(** * generate-mail-extension-typings: schema merge and declaration synthesis

    A shallow embedding of the schema normalisation and declaration-synthesis
    engine of [index.ts]: the namespace merge ([mergeSchema] and its helpers),
    the reference resolver ([findNamespaceFortype]), the type expression
    compiler ([getType]) and the function signature synthesizer
    ([createFunctionDefinition], [generateFunctionParams]).

    The repository holds two versions of [index.ts].  The embedding follows
    the later one, which merges events and properties and resolves
    references through the namespace table; [mergeNamespaceFunctions],
    [mergeNamespaceTypes] and the guard of [getType] for an array without
    [items] read the same in both.  The functions of the first version that
    read differently are embedded in the module [Legacy].

    JavaScript values are modelled as follows.
    - Strings are [string]s; the template literals of the source are spelled
      out as concatenations.
    - A schema node (a JSON object) is a [Node]: one record with the keys the
      code reads, an absent key being [None].  Keys whose value is only tested
      for truthiness ([optional], [unsupported]) are [bool]s.
    - [console]/[logger] output is a list of messages in the [World].
    - A thrown [Error] is the outcome [Throw]; nothing in the source catches.
    - [Array.prototype.shift] mutates the array it is called on.  The only
      arrays the code mutates are [parameters] arrays, so each of them carries
      the address of the array object, and the [World] records how many
      elements have been shifted off each address.  Objects made by spread
      ([{...o}]) share the arrays of [o], hence share the address. *)

From Stdlib Require Import String Ascii List Bool Arith ZArith Lia.
From Stdlib Require DecimalString.
Import ListNotations.
Open Scope list_scope.
Open Scope string_scope.

Set Implicit Arguments.
Set Warnings "-register-all".

(** ** Strings *)

Module Str.

Definition LF : string := String (ascii_of_nat 10) EmptyString.

(** JavaScript truthiness of a string. *)
Definition truthy (s : string) : bool := negb (s =? "").

Definition truthyOpt (o : option string) : bool :=
  match o with Some s => truthy s | None => false end.

(** [`${x}`] for a possibly undefined string. *)
Definition show (o : option string) : string :=
  match o with Some s => s | None => "undefined" end.

(** [a === b] on possibly undefined strings. *)
Definition eqOpt (a b : option string) : bool :=
  match a, b with
  | Some x, Some y => x =? y
  | None, None => true
  | _, _ => false
  end.

(** [s.indexOf(c) >= 0] for a one character pattern. *)
Definition includesDot (s : string) : bool :=
  match index 0 "." s with Some _ => true | None => false end.

(** The ASCII members of the white space and line terminator classes that
    [String.prototype.trim] strips. *)
Definition isSpace (c : ascii) : bool :=
  let n := nat_of_ascii c in
  Nat.eqb n 32 || (Nat.leb 9 n && Nat.leb n 13).

Fixpoint trimStart (s : string) : string :=
  match s with
  | String c s' => if isSpace c then trimStart s' else s
  | EmptyString => EmptyString
  end.

(** [trimEnd] keeps a character when something other than white space
    follows it or when it is not white space itself. *)
Fixpoint trimEnd (s : string) : string :=
  match s with
  | String c s' =>
      match trimEnd s' with
      | EmptyString => if isSpace c then EmptyString else String c EmptyString
      | t => String c t
      end
  | EmptyString => EmptyString
  end.

Definition trim (s : string) : string := trimEnd (trimStart s).

(** [Array(n).join(sep)]: [n] empty slots joined by [sep]. *)
Definition arrayJoin (n : nat) (sep : string) : string :=
  String.concat sep (repeat "" n).

(** [s.replace(/<\/?tag>/g, repl)]: every occurrence of [<tag>] or
    [</tag>], scanning from the left, is replaced.  [skip] counts the
    characters of a match that are still to be dropped. *)
Fixpoint replaceTagFrom (skip : nat) (tag repl s : string) : string :=
  match s with
  | EmptyString => EmptyString
  | String c s' =>
      match skip with
      | S k => replaceTagFrom k tag repl s'
      | O =>
          let opening := "<" ++ tag ++ ">" in
          let closing := "</" ++ tag ++ ">" in
          if prefix opening s then
            repl ++ replaceTagFrom (String.length opening - 1) tag repl s'
          else if prefix closing s then
            repl ++ replaceTagFrom (String.length closing - 1) tag repl s'
          else String c (replaceTagFrom 0 tag repl s')
      end
  end.

Definition replaceTag (tag repl s : string) : string :=
  replaceTagFrom 0 tag repl s.

End Str.

Import Str.

(** ** Arrays *)

Module Arr.

Section Ops.
Variable A : Type.

(** [xs.findIndex(p)], [-1] when no element satisfies [p]. *)
Fixpoint findIndexFrom (p : A -> bool) (i : Z) (xs : list A) : Z :=
  match xs with
  | [] => (-1)%Z
  | x :: xs' => if p x then i else findIndexFrom p (i + 1)%Z xs'
  end.

Definition findIndex (p : A -> bool) (xs : list A) : Z :=
  findIndexFrom p 0%Z xs.

(** [xs.slice(start)]: a negative [start] counts from the end. *)
Definition slice (start : Z) (xs : list A) : list A :=
  let len := Z.of_nat (List.length xs) in
  let k := if (start <? 0)%Z then Z.max (len + start) 0 else Z.min start len in
  skipn (Z.to_nat k) xs.

(** [xs.filter((x, index) => p x index)]. *)
Fixpoint filterIndexFrom (p : A -> Z -> bool) (i : Z) (xs : list A) : list A :=
  match xs with
  | [] => []
  | x :: xs' =>
      if p x i then x :: filterIndexFrom p (i + 1)%Z xs'
      else filterIndexFrom p (i + 1)%Z xs'
  end.

Definition filterIndex (p : A -> Z -> bool) (xs : list A) : list A :=
  filterIndexFrom p 0%Z xs.

(** [xs.pop()] read as a value: the last element. *)
Definition pop (xs : list A) : option A := last (map Some xs) None.

End Ops.

End Arr.

Import Arr.

(** ** Schema nodes *)

(** The [async] key: absent, a boolean, or the name of a callback parameter. *)
Inductive Async : Type :=
| AsyncUndefined
| AsyncBool (b : bool)
| AsyncString (s : string).

(** The [enum] key of a string type: an array, whose members are given by
    their string conversion, or some other truthy value. *)
Inductive EnumValue : Type :=
| EnumArray (members : list string)
| EnumOther.

(** An array object held in a [parameters] key.  [addr] is the address of
    the array when it was read from a schema file; arrays the program itself
    builds ([map], [[]]) have none and are never shifted while non-empty. *)
Record ParamArray (A : Type) : Type := mkArray {
  addr : option nat;
  elems : list A
}.

Module Node.

(** One JSON object of a schema file, or an object the program builds from
    one.  [oid] is the identity of the object, which [indexOf] compares;
    [ref] is the [$ref] key. *)
Inductive t : Type := mk {
  oid : nat;
  id : option string;
  name : option string;
  description : option string;
  ref : option string;
  type : option string;
  enum : option EnumValue;
  items : option t;
  choices : option (list t);
  properties : option (list (string * t));
  functions : option (list t);
  async : Async;
  parameters : option (ParamArray t);
  returns : option t;
  optional : bool;
  unsupported : bool;
  isInterfaceProperty : option bool
}.

(** The object with no key set. *)
Definition empty : t :=
  mk 0 None None None None None None None None None None AsyncUndefined None None false false None.

(** The object [n] placed at the address [v]. *)
Definition withOid (v : nat) (n : t) : t :=
  mk v n.(id) n.(name) n.(description) n.(ref) n.(type) n.(enum) n.(items)
    n.(choices) n.(properties) n.(functions) n.(async) n.(parameters)
    n.(returns) n.(optional) n.(unsupported) n.(isInterfaceProperty).

(** [{...n, id: v}]. *)
Definition withId (v : option string) (n : t) : t :=
  mk n.(oid) v n.(name) n.(description) n.(ref) n.(type) n.(enum) n.(items)
    n.(choices) n.(properties) n.(functions) n.(async) n.(parameters)
    n.(returns) n.(optional) n.(unsupported) n.(isInterfaceProperty).

(** [{...n, name: v}]. *)
Definition withName (v : option string) (n : t) : t :=
  mk n.(oid) n.(id) v n.(description) n.(ref) n.(type) n.(enum) n.(items)
    n.(choices) n.(properties) n.(functions) n.(async) n.(parameters)
    n.(returns) n.(optional) n.(unsupported) n.(isInterfaceProperty).

(** [{...n, description: v}]. *)
Definition withDescription (v : option string) (n : t) : t :=
  mk n.(oid) n.(id) n.(name) v n.(ref) n.(type) n.(enum) n.(items) n.(choices)
    n.(properties) n.(functions) n.(async) n.(parameters) n.(returns)
    n.(optional) n.(unsupported) n.(isInterfaceProperty).

(** [{...n, $ref: v}]. *)
Definition withRef (v : option string) (n : t) : t :=
  mk n.(oid) n.(id) n.(name) n.(description) v n.(type) n.(enum) n.(items)
    n.(choices) n.(properties) n.(functions) n.(async) n.(parameters)
    n.(returns) n.(optional) n.(unsupported) n.(isInterfaceProperty).

(** [{...n, type: v}]. *)
Definition withType (v : option string) (n : t) : t :=
  mk n.(oid) n.(id) n.(name) n.(description) n.(ref) v n.(enum) n.(items)
    n.(choices) n.(properties) n.(functions) n.(async) n.(parameters)
    n.(returns) n.(optional) n.(unsupported) n.(isInterfaceProperty).

(** [{...n, enum: v}]. *)
Definition withEnum (v : option EnumValue) (n : t) : t :=
  mk n.(oid) n.(id) n.(name) n.(description) n.(ref) n.(type) v n.(items)
    n.(choices) n.(properties) n.(functions) n.(async) n.(parameters)
    n.(returns) n.(optional) n.(unsupported) n.(isInterfaceProperty).

(** [{...n, items: v}]. *)
Definition withItems (v : option t) (n : t) : t :=
  mk n.(oid) n.(id) n.(name) n.(description) n.(ref) n.(type) n.(enum) v
    n.(choices) n.(properties) n.(functions) n.(async) n.(parameters)
    n.(returns) n.(optional) n.(unsupported) n.(isInterfaceProperty).

(** [{...n, choices: v}]. *)
Definition withChoices (v : option (list t)) (n : t) : t :=
  mk n.(oid) n.(id) n.(name) n.(description) n.(ref) n.(type) n.(enum)
    n.(items) v n.(properties) n.(functions) n.(async) n.(parameters)
    n.(returns) n.(optional) n.(unsupported) n.(isInterfaceProperty).

(** [{...n, properties: v}]. *)
Definition withProperties (v : option (list (string * t))) (n : t) : t :=
  mk n.(oid) n.(id) n.(name) n.(description) n.(ref) n.(type) n.(enum)
    n.(items) n.(choices) v n.(functions) n.(async) n.(parameters) n.(returns)
    n.(optional) n.(unsupported) n.(isInterfaceProperty).

(** [{...n, functions: v}]. *)
Definition withFunctions (v : option (list t)) (n : t) : t :=
  mk n.(oid) n.(id) n.(name) n.(description) n.(ref) n.(type) n.(enum)
    n.(items) n.(choices) n.(properties) v n.(async) n.(parameters) n.(returns)
    n.(optional) n.(unsupported) n.(isInterfaceProperty).

(** [{...n, async: v}]. *)
Definition withAsync (v : Async) (n : t) : t :=
  mk n.(oid) n.(id) n.(name) n.(description) n.(ref) n.(type) n.(enum)
    n.(items) n.(choices) n.(properties) n.(functions) v n.(parameters)
    n.(returns) n.(optional) n.(unsupported) n.(isInterfaceProperty).

(** [{...n, parameters: v}]. *)
Definition withParameters (v : option (ParamArray t)) (n : t) : t :=
  mk n.(oid) n.(id) n.(name) n.(description) n.(ref) n.(type) n.(enum)
    n.(items) n.(choices) n.(properties) n.(functions) n.(async) v n.(returns)
    n.(optional) n.(unsupported) n.(isInterfaceProperty).

(** [{...n, returns: v}]. *)
Definition withReturns (v : option t) (n : t) : t :=
  mk n.(oid) n.(id) n.(name) n.(description) n.(ref) n.(type) n.(enum)
    n.(items) n.(choices) n.(properties) n.(functions) n.(async) n.(parameters)
    v n.(optional) n.(unsupported) n.(isInterfaceProperty).

(** [{...n, optional: v}]. *)
Definition withOptional (v : bool) (n : t) : t :=
  mk n.(oid) n.(id) n.(name) n.(description) n.(ref) n.(type) n.(enum)
    n.(items) n.(choices) n.(properties) n.(functions) n.(async) n.(parameters)
    n.(returns) v n.(unsupported) n.(isInterfaceProperty).

(** [{...n, unsupported: v}]. *)
Definition withUnsupported (v : bool) (n : t) : t :=
  mk n.(oid) n.(id) n.(name) n.(description) n.(ref) n.(type) n.(enum)
    n.(items) n.(choices) n.(properties) n.(functions) n.(async) n.(parameters)
    n.(returns) n.(optional) v n.(isInterfaceProperty).

(** [{...n, isInterfaceProperty: v}]. *)
Definition withIsInterfaceProperty (v : option bool) (n : t) : t :=
  mk n.(oid) n.(id) n.(name) n.(description) n.(ref) n.(type) n.(enum)
    n.(items) n.(choices) n.(properties) n.(functions) n.(async) n.(parameters)
    n.(returns) n.(optional) n.(unsupported) v.

End Node.

(** [a === b] on the values of the [async] key. *)
Definition asyncEq (a b : Async) : bool :=
  match a, b with
  | AsyncUndefined, AsyncUndefined => true
  | AsyncBool x, AsyncBool y => Bool.eqb x y
  | AsyncString x, AsyncString y => x =? y
  | _, _ => false
  end.

Module SchemaPart.

(** One namespace record of one schema file.  A missing [functions],
    [types] or [events] key is the empty list: [mergeSchema] reads the three
    through destructuring defaults ([functions = []]) and stores the
    defaulted values, so no code ever sees them undefined. *)
Record t : Type := mk {
  namespace : string;
  description : option string;
  functions : list Node.t;
  events : list Node.t;
  types : list Node.t;
  properties : option (list (string * Node.t))
}.

End SchemaPart.

(** ** The namespace table *)

(** A [Map<string, SchemaPart>]: its entries in insertion order, one per key. *)
Definition NamespaceTable : Type := list (string * SchemaPart.t).

Module NsMap.

Fixpoint get (k : string) (m : NamespaceTable) : option SchemaPart.t :=
  match m with
  | [] => None
  | (k', v) :: m' => if k' =? k then Some v else get k m'
  end.

Definition has (k : string) (m : NamespaceTable) : bool :=
  match get k m with Some _ => true | None => false end.

(** [m.set(k, v)]: an existing key keeps its place, a new key goes last. *)
Fixpoint set (k : string) (v : SchemaPart.t) (m : NamespaceTable) : NamespaceTable :=
  match m with
  | [] => [(k, v)]
  | (k', v') :: m' => if k' =? k then (k', v) :: m' else (k', v') :: set k v m'
  end.

(** [m.delete(k)]. *)
Definition delete (k : string) (m : NamespaceTable) : NamespaceTable :=
  filter (fun e => negb (fst e =? k)) m.

End NsMap.

(** ** Namespace merge engine *)

(** [result.indexOf(x)]: objects are compared by identity. *)
Definition indexOf (x : Node.t) (result : list Node.t) : Z :=
  findIndex (fun item => Nat.eqb item.(Node.oid) x.(Node.oid)) result.

Definition mergeNamespaceFunctions
    (functions : list Node.t) (existingSchemaPart : SchemaPart.t) : list Node.t :=
  let result := (functions ++ existingSchemaPart.(SchemaPart.functions))%list in
  filterIndex (fun schemaPart index => Z.eqb (indexOf schemaPart result) index) result.

Definition mergeNamespaceEvents
    (events : list Node.t) (existingSchemaPart : SchemaPart.t) : list Node.t :=
  let result :=
    (events ++
     filter
       (fun schemaPart =>
          negb (existsb
                  (fun item =>
                     asyncEq item.(Node.async) schemaPart.(Node.async)
                     && eqOpt item.(Node.name) schemaPart.(Node.name))
                  events))
       existingSchemaPart.(SchemaPart.events))%list in
  result.

(** The callback of the filter answers [0] for a part without [id]: a falsy
    value, so the part is filtered out. *)
Definition mergeNamespaceTypes
    (types : list Node.t) (existingSchemaPart : SchemaPart.t) : list Node.t :=
  let result := (types ++ existingSchemaPart.(SchemaPart.types))%list in
  filterIndex
    (fun schemaPart index =>
       if negb (truthyOpt schemaPart.(Node.id)) then
         (* always keep parts with no name *)
         false
       else
         Z.eqb
           (findIndex (fun item => eqOpt item.(Node.id) schemaPart.(Node.id)) result)
           index)
    result.

Definition mergeNameSpaceProperties
    (properties : option (list (string * Node.t)))
    (existingSchemaPart : SchemaPart.t) : option (list (string * Node.t)) :=
  properties.

(** The body of the [forEach] of [mergeSchema]. *)
Definition mergeSchemaStep
    (namespaces : NamespaceTable) (schemaPart : SchemaPart.t) : NamespaceTable :=
  let namespace := schemaPart.(SchemaPart.namespace) in
  let functions := schemaPart.(SchemaPart.functions) in
  let types := schemaPart.(SchemaPart.types) in
  let events := schemaPart.(SchemaPart.events) in
  let properties := schemaPart.(SchemaPart.properties) in
  match NsMap.get namespace namespaces with
  | None =>
      (* initialize the namespace object *)
      NsMap.set namespace
        (SchemaPart.mk namespace schemaPart.(SchemaPart.description)
           functions events types properties)
        namespaces
  | Some existingSchemaPart =>
      (* update existing parts *)
      let mergedSchemaPart :=
        SchemaPart.mk namespace None
          (mergeNamespaceFunctions functions existingSchemaPart)
          (mergeNamespaceEvents events existingSchemaPart)
          (mergeNamespaceTypes types existingSchemaPart)
          (mergeNameSpaceProperties properties existingSchemaPart) in
      NsMap.set namespace mergedSchemaPart namespaces
  end.

Definition mergeSchema (schemaParts : list SchemaPart.t) : NamespaceTable :=
  fold_left mergeSchemaStep schemaParts [].

Definition postProcessSchemaFunctions (schemaFunctions : list Node.t) : list Node.t :=
  filter (fun item => negb (eqOpt item.(Node.name) (Some "delete"))) schemaFunctions.

Definition postProcessNamespaces (namespaces : NamespaceTable) : NamespaceTable :=
  fold_left
    (fun result entry =>
       let '(namespace, namespaceSchema) := entry in
       NsMap.set namespace
         (SchemaPart.mk
            namespaceSchema.(SchemaPart.namespace)
            namespaceSchema.(SchemaPart.description)
            (postProcessSchemaFunctions namespaceSchema.(SchemaPart.functions))
            namespaceSchema.(SchemaPart.events)
            namespaceSchema.(SchemaPart.types)
            namespaceSchema.(SchemaPart.properties))
         result)
    namespaces [].

(** ** Effects: console output, exceptions and shifted arrays *)

Inductive Level : Type := Info | Log | Warn | Error.

Record World : Type := mkWorld {
  (** one entry per [shift()] that removed an element: the array's address *)
  shifts : list nat;
  (** the messages written so far, oldest first *)
  console : list (Level * string)
}.

Definition emptyWorld : World := mkWorld [] [].

Inductive Outcome (A : Type) : Type :=
| Ret (a : A)
| Throw (msg : string)
| OutOfFuel.

Arguments Throw {A} msg.
Arguments OutOfFuel {A}.

Definition M (A : Type) : Type := World -> Outcome A * World.

Definition ret {A : Type} (a : A) : M A := fun w => (Ret a, w).

Definition bind {A B : Type} (m : M A) (k : A -> M B) : M B :=
  fun w =>
    match m w with
    | (Ret a, w') => k a w'
    | (Throw msg, w') => (Throw msg, w')
    | (OutOfFuel, w') => (OutOfFuel, w')
    end.

Definition throw {A : Type} (msg : string) : M A := fun w => (Throw msg, w).

Definition outOfFuel {A : Type} : M A := fun w => (OutOfFuel, w).

Declare Scope monad_scope.
Delimit Scope monad_scope with monad.
Notation "x <- c1 ;; c2" := (bind c1 (fun x => c2))
  (at level 61, c1 at next level, right associativity) : monad_scope.
Notation "c1 ;;; c2" := (bind c1 (fun _ => c2))
  (at level 61, right associativity) : monad_scope.
Open Scope monad_scope.

(** [logger.info], [logger.log] / [console.log], [logger.warn], [logger.error]. *)
Definition logger (lvl : Level) (msg : string) : M unit :=
  fun w => (Ret tt, mkWorld w.(shifts) (w.(console) ++ [(lvl, msg)])%list).

(** The current elements of an array object. *)
Definition readArray (w : World) (a : ParamArray Node.t) : list Node.t :=
  match a.(addr) with
  | Some k => skipn (count_occ Nat.eq_dec w.(shifts) k) a.(elems)
  | None => a.(elems)
  end.

Definition getElems (a : ParamArray Node.t) : M (list Node.t) :=
  fun w => (Ret (readArray w a), w).

(** [a.shift()]: removes the first element of the array and answers it,
    [undefined] on an empty array. *)
Definition shift (a : ParamArray Node.t) : M (option Node.t) :=
  fun w =>
    match readArray w a with
    | [] => (Ret None, w)
    | x :: _ =>
        (Ret (Some x),
         match a.(addr) with
         | Some k => mkWorld (k :: w.(shifts)) w.(console)
         | None => w
         end)
    end.

(** [xs.forEach] / [xs.map] with an effectful callback, left to right. *)
Fixpoint mapM {A B : Type} (f : A -> M B) (xs : list A) : M (list B) :=
  match xs with
  | [] => ret []
  | x :: xs' => y <- f x ;; ys <- mapM f xs' ;; ret (y :: ys)
  end.

(** ** Descriptions *)

Definition DEBUG : bool := false.

Definition debug (msg : string) : string := if DEBUG then msg else "".

(** The double quote character. *)
Definition DQ : string := String (ascii_of_nat 34) EmptyString.

(** [generateDescription(chunk, indention)], given [chunk.description]. *)
Definition generateDescription (description : option string) (indention : nat) : string :=
  match description with
  | Some d =>
      if truthy d then
        arrayJoin indention "  " ++ "  /**" ++ LF ++ " "
        ++ arrayJoin (indention + 1) "  " ++ "* "
        ++ replaceTag "strong" "**"
             (replaceTag "em" "*"
                (replaceTag "b" "**"
                   (replaceTag "code" "`" d)))
        ++ LF ++ "  */" ++ LF
      else ""
  | None => ""
  end.

(** ** Reference resolver *)

Definition findNamespaceFortype
    (ref : string) (namespaces : option NamespaceTable) : M (list string) :=
  match namespaces with
  | None => ret []
  | Some table =>
      found <-
        mapM
          (fun entry =>
             let '(namespace, part) := entry in
             if existsb (fun item => eqOpt item.(Node.id) (Some ref))
                  part.(SchemaPart.types)
             then
               logger Log ("FOUND! :: '" ++ namespace ++ "." ++ ref) ;;;
               ret [namespace]
             else ret [])
          table ;;
      ret (List.concat found)
  end.

(** ** Rendering options of [createFunctionDefinition] *)

Module Options.

Record t : Type := mk {
  omitFunctionKeyword : bool;
  omitFunctionName : bool;
  omitDescription : bool;
  inlineFunction : bool;
  overrideDelimiter : string;
  wrapInBrackets : bool
}.

(** The defaults of the destructuring, used for [options === undefined]. *)
Definition default : t := mk false false false false ";" false.

End Options.

(** [`${schemaPart.async}`]. *)
Definition showAsync (a : Async) : string :=
  match a with
  | AsyncUndefined => "undefined"
  | AsyncBool true => "true"
  | AsyncBool false => "false"
  | AsyncString s => s
  end.

(** [requireAllParams]: only a parameter named [callback] keeps its
    [optional] flag. *)
Definition requireAllParams (params : list Node.t) : list Node.t :=
  map
    (fun parameter =>
       Node.withOptional
         (if eqOpt parameter.(Node.name) (Some "callback")
          then parameter.(Node.optional) else false)
         parameter)
    params.

(** The [while] loop of [createFunctionDefinition].  Every turn removes one
    element of [params], so [n], the length of the list on entry, bounds the
    number of turns; [emit] renders one signature. *)
Fixpoint overloadLoop
    (emit : list Node.t -> M string) (n : nat)
    (params : list Node.t) (overrides : string) : M (list Node.t * string) :=
  if (0 <=? findIndex Node.optional params)%Z then
    match n with
    | O => outOfFuel
    | S n' =>
        signature <- emit (requireAllParams params) ;;
        let overrides := overrides ++ signature in
        let overrides := overrides ++ LF in
        let firstElementToBeRemoved := findIndex Node.optional params in
        let params :=
          filterIndex (fun _ index => negb (Z.eqb index firstElementToBeRemoved)) params in
        overloadLoop emit n' params overrides
    end
  else ret (params, overrides).

(** ** Signature synthesizer and type expression compiler *)

(** [getType], [createFunctionDefinition], [generateFunctionParams] and
    [generatePropertyTypings] call each other.  They are written here over
    [getTypeRec], the compiler for the nodes one level down; [getType] below
    closes the recursion. *)
Section Synthesis.

Variable getTypeRec :
  option Node.t -> option NamespaceTable -> option string -> M string.

(** The object built for a nested parameter in [generateFunctionParams]. *)
Definition nestedParameter (item : Node.t) : Node.t :=
  Node.withName
    (Some (if truthyOpt item.(Node.name) then show item.(Node.name) else ""))
    (Node.withOptional item.(Node.optional)
       (Node.withType
          (Some (if truthyOpt item.(Node.type) then show item.(Node.type) else ""))
          (Node.withDescription
             (Some (match item.(Node.description) with Some d => d | None => "" end))
             (Node.withParameters (Some (mkArray None [])) Node.empty)))).

Definition generateFunctionParams (parameters : list Node.t) : M string :=
  result <-
    mapM
      (fun param =>
         (* TODO: this parameter mapping is awful and sloppy - so fix this! *)
         mapped <-
           match param.(Node.parameters) with
           | Some a =>
               items <- getElems a ;;
               ret (Some (mkArray None (map nestedParameter items)))
           | None => ret None
           end ;;
         let functionParam := Node.withParameters mapped param in
         type <- getTypeRec (Some functionParam) None None ;;
         ret (trim
                (generateDescription param.(Node.description) 0 ++ LF
                 ++ show param.(Node.name)
                 ++ (if param.(Node.optional) then "?" else "")
                 ++ ": " ++ type)))
      parameters ;;
  ret (String.concat ", " result).

(** [findReturnType] is a closure inside [createFunctionDefinition]: it
    reads the enclosing [schemaPart], [namespaces] and [currentNamespace]
    and is applied to [schemaPart] itself. *)
Definition findReturnType
    (schemaPart : Node.t) (namespaces : option NamespaceTable)
    (currentNamespace : string) (func : Node.t) : M (string * list Node.t) :=
  own <-
    match schemaPart.(Node.parameters) with
    | Some a => getElems a
    | None => ret []
    end ;;
  let parameters :=
    filter
      (fun param =>
         negb (eqOpt param.(Node.name) (Some "callback"))
         && negb (eqOpt param.(Node.name) (Some "responseCallback")))
      own in
  match func.(Node.async) with
  | AsyncString async =>
      match func.(Node.parameters) with
      | None => throw "TypeError: Cannot read properties of undefined (reading 'find')"
      | Some funcParameters =>
          candidates <- getElems funcParameters ;;
          let asyncReturnType :=
            find
              (fun param =>
                 eqOpt param.(Node.name) (Some async)
                 && eqOpt param.(Node.type) (Some "function"))
              candidates in
          first <-
            match asyncReturnType with
            | Some callback =>
                match callback.(Node.parameters) with
                | Some nested => shift nested
                | None => ret None
                end
            | None => ret None
            end ;;
          unwrappedAsyncReturnType <-
            getTypeRec first namespaces (Some currentNamespace) ;;
          let optionalFallBackType :=
            match asyncReturnType with
            | Some callback =>
                if eqOpt callback.(Node.name) (Some "callback")
                   && callback.(Node.optional)
                then " | null" else ""
            | None => ""
            end in
          remaining <- getElems funcParameters ;;
          let funcParams :=
            filter (fun param => negb (eqOpt param.(Node.name) (Some async)))
              remaining in
          ret ("Promise<"
               ++ (if truthy unwrappedAsyncReturnType
                   then unwrappedAsyncReturnType else "any")
               ++ optionalFallBackType ++ ">",
               funcParams)
          (* the source goes on with
               // this must be an unkown error
               return { returnType: "ERR", parameters: [] };
             which no execution reaches *)
      end
  | _ =>
      let functionResultType :=
        match func.(Node.returns) with
        | Some returns =>
            (* TODO: map array type correctly (via "items") *)
            if eqOpt returns.(Node.type) (Some "array") then "[]"
            else show returns.(Node.type)
        | None => "void"
        end in
      ret (match func.(Node.async) with
           | AsyncBool true => "Promise<any>"
           | _ => functionResultType
           end,
           parameters)
  end.

(** The signature template, which the source spells out three times. *)
Definition signatureLine
    (options : Options.t) (funcName returnType params : string) : string :=
  let delimStart := if options.(Options.wrapInBrackets) then "(" else "" in
  let delimEnd := if options.(Options.wrapInBrackets) then ")" else "" in
  "  " ++ delimStart
  ++ (if options.(Options.omitFunctionKeyword) then "" else "function ")
  ++ (if options.(Options.omitFunctionName) then "" else funcName)
  ++ "(" ++ params ++ ")"
  ++ (if options.(Options.inlineFunction) then " => " else ": ")
  ++ returnType ++ delimEnd ++ options.(Options.overrideDelimiter).

Definition reservedWords : list string := ["import"; "delete"; "class"].

Definition isNameReserved (schemaPart : Node.t) : bool :=
  existsb (fun w => eqOpt (Some w) schemaPart.(Node.name)) reservedWords.

Definition funcName (schemaPart : Node.t) : string :=
  if isNameReserved schemaPart then "__" ++ show schemaPart.(Node.name)
  else show schemaPart.(Node.name).

(** The text of the diagnostic for a return type ["ERR"]. *)
Definition unknownAsyncType (currentNamespace : string) (schemaPart : Node.t) : string :=
  "Unknown async type, namespace " ++ currentNamespace
  ++ ", function '" ++ show schemaPart.(Node.name)
  ++ "': '" ++ showAsync schemaPart.(Node.async) ++ "'".

(** One signature: the template filled with the rendered parameters. *)
Definition emitSignature
    (options : Options.t) (funcName returnType : string)
    (params : list Node.t) : M string :=
  text <- generateFunctionParams params ;;
  ret (signatureLine options funcName returnType text).

Definition createFunctionDefinition
    (schemaPart : Node.t) (currentNamespace : string)
    (options : Options.t) (namespaces : option NamespaceTable) : M string :=
  let result := "" in
  found <- findReturnType schemaPart namespaces currentNamespace schemaPart ;;
  let '(returnType, parameters) := found in
  (if returnType =? "ERR" then
     let error := unknownAsyncType currentNamespace schemaPart in
     logger Error error
   else ret tt) ;;;
  let result :=
    if options.(Options.omitDescription) then result
    else result ++ generateDescription schemaPart.(Node.description) 0 in
  (* check if we have optional parameters BEFORE defining required parameters
     if so, add additional function signatures *)
  let firstOptionalParameterIndex := findIndex Node.optional parameters in
  let allTrailingAreOptional :=
    forallb Node.optional (slice firstOptionalParameterIndex parameters) in
  let emit := emitSignature options (funcName schemaPart) returnType in
  result <-
    (if negb allTrailingAreOptional then
       looped <- overloadLoop emit (List.length parameters) parameters "" ;;
       let '(params, overrides) := looped in
       let result := result ++ overrides in
       signature <- emit (requireAllParams params) ;;
       let result := result ++ signature in
       ret (result ++ LF)
     else
       signature <- emit parameters ;;
       let result := result ++ signature in
       ret (result ++ LF)) ;;
  ret (if isNameReserved schemaPart then
         result ++ LF ++ " export { " ++ funcName schemaPart ++ " as "
         ++ show schemaPart.(Node.name) ++ " }" ++ LF ++ LF
       else result).

Definition generatePropertyTypings (property : Node.t) : M string :=
  let result := "" in
  if property.(Node.unsupported) then ret result
  else
    match property.(Node.choices), property.(Node.isInterfaceProperty) with
    | Some _, None | Some _, Some false =>
        let result := result ++ generateDescription property.(Node.description) 0 in
        type <- getTypeRec (Some property) None None ;;
        ret (result ++ "  type " ++ show property.(Node.name) ++ " = " ++ type
             ++ ";" ++ LF)
    | _, _ =>
        let result := result ++ generateDescription property.(Node.description) 1 in
        type <- getTypeRec (Some property) None None ;;
        ret (result ++ "    " ++ show property.(Node.name)
             ++ (if property.(Node.optional) then "?" else "")
             ++ ": " ++ type ++ LF)
    end.

(** [{ name, isInterfaceProperty: true, ...prop }]: the keys of [prop]
    win over the two given first. *)
Definition interfaceProperty (name : string) (prop : Node.t) : Node.t :=
  Node.withName
    (match prop.(Node.name) with Some n => Some n | None => Some name end)
    (Node.withIsInterfaceProperty
       (match prop.(Node.isInterfaceProperty) with
        | Some b => Some b
        | None => Some true
        end)
       prop).

Definition inlineOptions : Options.t :=
  Options.mk true true true true " , " false.

(** One level of [getType]. *)
Definition getTypeBody
    (property : option Node.t) (namespaces : option NamespaceTable)
    (currentNamespace : option string) : M string :=
  match property with
  | None => ret "void"
  | Some property =>
      if truthyOpt property.(Node.ref) then
        let ref := show property.(Node.ref) in
        if includesDot ref then
          let dbg :=
            debug
              ("/* lookup type? " ++ DQ ++ ref ++ DQ ++ ", optional? "
               ++ match property.(Node.properties) with
                  | Some entries =>
                      if existsb (fun e => fst e =? "optional") entries
                      then "[object Object]" else "undefined"
                  | None => "undefined"
                  end
               ++ " */") in
          ret (dbg ++ " " ++ ref)
        else
          (* if no '.' is included it's the local/current namespace *)
          namespace <- findNamespaceFortype ref namespaces ;;
          match pop namespace with
          | None =>
              logger Warn ("ERROR: namespace '" ++ ref ++ "' not found.") ;;;
              ret ref
          | Some targetNamespace =>
              if truthyOpt currentNamespace
                 && eqOpt (Some targetNamespace) currentNamespace
              then ret ref
              else ret (targetNamespace ++ "." ++ ref)
          end
      else if eqOpt property.(Node.type) (Some "integer") then ret "number"
      else if eqOpt property.(Node.type) (Some "number") then ret "number"
      else if eqOpt property.(Node.type) (Some "string") then
        match property.(Node.enum) with
        | Some (EnumArray members) =>
            ret (trim
                   (String.concat (LF ++ " | ")
                      (map (fun item => "'" ++ item ++ "'") members)))
        | Some EnumOther => ret "enum"
        | None => ret "string"
        end
      else if eqOpt property.(Node.type) (Some "array") then
        match property.(Node.items) with
        | None => throw "Cannot create array typing"
        | Some items =>
            if truthyOpt items.(Node.type) then
              inner <- getTypeRec (Some items) None None ;;
              ret (inner ++ "[]")
            else
              let refName :=
                if truthyOpt items.(Node.ref) then show items.(Node.ref) else "" in
              if includesDot refName then
                let dbg := debug "/* z8array */" in
                ret (dbg ++ refName ++ "[]")
              else ret (refName ++ "[]")
        end
      else if eqOpt property.(Node.type) (Some "boolean") then ret "boolean"
      else
        match property.(Node.choices) with
        | Some choices =>
            compiled <- mapM (fun choice => getTypeRec (Some choice) None None) choices ;;
            ret (String.concat " | " compiled)
        | None =>
            if eqOpt property.(Node.type) (Some "function") then
              let schemaPart :=
                Node.withName (Some "")
                  (Node.withAsync
                     (match property.(Node.async) with
                      | AsyncUndefined => AsyncBool false
                      | a => a
                      end)
                     (Node.withDescription (Some "")
                        (Node.withParameters
                           (match property.(Node.parameters) with
                            | Some a => Some a
                            | None => Some (mkArray None [])
                            end)
                           property))) in
              definition <-
                createFunctionDefinition schemaPart "" inlineOptions namespaces ;;
              ret ("/* or any?  */ " ++ definition ++ " /* x7 */ " ++ LF)
            else if eqOpt property.(Node.type) (Some "any") then ret "any"
            else if eqOpt property.(Node.type) (Some "object") then
              match property.(Node.properties) with
              | Some entries =>
                  members <-
                    mapM
                      (fun entry =>
                         generatePropertyTypings
                           (interfaceProperty (fst entry) (snd entry)))
                      entries ;;
                  let result := String.concat "" members in
                  let functions :=
                    match property.(Node.functions) with
                    | Some fs => fs
                    | None => []
                    end in
                  mapM
                    (fun f => logger Log ("> func: '" ++ show f.(Node.name)))
                    functions ;;;
                  ret ("{" ++ LF ++ "  " ++ result ++ LF ++ "  }")
              | None =>
                  ret ("/* " ++ DQ ++ "unknown" ++ DQ ++ " undefined */ object")
              end
            else ret "void /* could not determine correct type */"
        end
  end.

End Synthesis.

(** [getType]: [fuel] bounds the depth of the nodes it descends into. *)
Fixpoint getType (fuel : nat)
    (property : option Node.t) (namespaces : option NamespaceTable)
    (currentNamespace : option string) : M string :=
  match fuel with
  | O => outOfFuel
  | S fuel' => getTypeBody (getType fuel') property namespaces currentNamespace
  end.

Definition generateFunctionTypings
    (fuel : nat) (currentNamespace : string) (namespaces : NamespaceTable) : M string :=
  let result := "" in
  match NsMap.get currentNamespace namespaces with
  | None => ret result
  | Some schema =>
      texts <-
        mapM
          (fun schemaPart =>
             createFunctionDefinition (getType fuel) schemaPart currentNamespace
               Options.default (Some namespaces))
          schema.(SchemaPart.functions) ;;
      ret (result ++ String.concat "" texts)
  end.

(** ** Declaration emitter *)

(** [`${n}`] for a natural number. *)
Definition showNat (n : nat) : string :=
  DecimalString.NilEmpty.string_of_uint (Nat.to_uint n).

(** [s.substring(0, s.length - n)]. *)
Definition dropLast (n : nat) (s : string) : string :=
  substring 0 (String.length s - n) s.

Definition eventOptions : Options.t :=
  Options.mk true true false true " | " true.

(** The body of the [forEach] of [generateEventTypings]. *)
Definition generateEventTyping
    (fuel : nat) (namespaces : NamespaceTable) (count : nat)
    (result : string) (schemaPart : Node.t) (index : nat) : M string :=
  let dbg :=
    debug ("/* " ++ showNat (index + 1) ++ " of " ++ showNat count ++ " */ }") in
  let result :=
    result ++ "    const " ++ dbg ++ show schemaPart.(Node.name) ++ ": EventHandler<" in
  definition <-
    createFunctionDefinition (getType fuel) schemaPart "" eventOptions
      (Some namespaces) ;;
  let result := result ++ definition in
  let result := dropLast 4 result in
  ret (result ++ ">;" ++ LF).

(** [xs.forEach((x, index) => ...)] threading the string built so far. *)
Fixpoint forEachIndexed
    (body : string -> Node.t -> nat -> M string)
    (index : nat) (xs : list Node.t) (result : string) : M string :=
  match xs with
  | [] => ret result
  | x :: xs' =>
      result <- body result x index ;;
      forEachIndexed body (S index) xs' result
  end.

Definition generateEventTypings
    (fuel : nat) (currentNamespace : string) (namespaces : NamespaceTable) : M string :=
  let result := "" in
  match NsMap.get currentNamespace namespaces with
  | None => ret result
  | Some schema =>
      forEachIndexed
        (generateEventTyping fuel namespaces (List.length schema.(SchemaPart.events)))
        0 schema.(SchemaPart.events) result
  end.

Definition typeFunctionOptions : Options.t :=
  Options.mk true false true false ";" false.

(** The body of the [forEach] of [generateTypeTypings], as the text it adds.
    The [$extend] key, which only the last debug message mentions, is not a
    key of [Node.t] and is printed as absent; [debug] discards the message. *)
Definition generateTypeTyping
    (fuel : nat) (namespaces : NamespaceTable) (schemaPart : Node.t) : M string :=
  let result := generateDescription schemaPart.(Node.description) 0 in
  result <-
    (if eqOpt schemaPart.(Node.type) (Some "object") then
       let result :=
         result ++ "  export interface " ++ show schemaPart.(Node.id) ++ " {" ++ LF in
       result <-
         match schemaPart.(Node.properties) with
         | Some entries =>
             members <-
               mapM
                 (fun entry =>
                    generatePropertyTypings (getType fuel)
                      (interfaceProperty (fst entry) (snd entry)))
                 entries ;;
             ret (result ++ String.concat "" members ++ LF)
         | None => ret result
         end ;;
       result <-
         match schemaPart.(Node.functions) with
         | Some functions =>
             members <-
               mapM
                 (fun func =>
                    definition <-
                      createFunctionDefinition (getType fuel) func ""
                        typeFunctionOptions (Some namespaces) ;;
                    ret (generateDescription func.(Node.description) 0 ++ LF
                         ++ definition ++ LF))
                 functions ;;
             ret (result ++ String.concat "" members ++ LF)
         | None => ret result
         end ;;
       ret (result ++ "  }" ++ LF)
     else if eqOpt schemaPart.(Node.type) (Some "string") then
       let result := result ++ generateDescription schemaPart.(Node.description) 0 in
       ret (result ++ "  type " ++ show schemaPart.(Node.id) ++ " = string;")
     else if eqOpt schemaPart.(Node.type) (Some "url") then
       let result := result ++ generateDescription schemaPart.(Node.description) 0 in
       ret (result ++ "  type " ++ show schemaPart.(Node.id) ++ " = string;")
     else if truthyOpt schemaPart.(Node.id) then
       let result :=
         result
         ++ debug ("  /* skipped: " ++ show schemaPart.(Node.id) ++ ": "
                   ++ show schemaPart.(Node.type) ++ " */" ++ LF) in
       type <- getType fuel (Some schemaPart) None None ;;
       ret (result ++ "  type " ++ show schemaPart.(Node.id) ++ " = " ++ type ++ ";")
     else
       ret (result
            ++ debug ("  /* skipped: .extend " ++ show None ++ ": "
                      ++ show schemaPart.(Node.type) ++ " */" ++ LF))) ;;
  ret (result ++ LF).

Definition generateTypeTypings
    (fuel : nat) (currentNamespace : string) (namespaces : NamespaceTable) : M string :=
  let result := "" in
  match NsMap.get currentNamespace namespaces with
  | None => ret result
  | Some schema =>
      texts <- mapM (generateTypeTyping fuel namespaces) schema.(SchemaPart.types) ;;
      ret (result ++ String.concat "" texts)
  end.

(** ** Reading and selecting the schema *)

(** [s.split(sep)] for a one character separator. *)
Fixpoint split (sep : ascii) (s : string) : list string :=
  match s with
  | EmptyString => [EmptyString]
  | String c s' =>
      if Ascii.eqb c sep then EmptyString :: split sep s'
      else
        match split sep s' with
        | line :: rest => String c line :: rest
        | [] => [String c EmptyString]
        end
  end.




(** The table that [generateTypings] hands to [generateTypingsFile], from
    the parts read from all the files and the [--ignored-namespaces] flag. *)
Definition typingsTable
    (schemaParts : list SchemaPart.t) (ignoredNamespaces : string) : NamespaceTable :=
  let namespaces := postProcessNamespaces (mergeSchema schemaParts) in
  if truthy ignoredNamespaces then
    let ignoredNamespacesList := split "," ignoredNamespaces in
    fold_left
      (fun namespaces ignoredNamespace => NsMap.delete ignoredNamespace namespaces)
      ignoredNamespacesList namespaces
  else namespaces.

(** ** The first version of the synthesizer

    [src/index.ts] before events, properties and the namespace table came
    in.  It has its own [generateDescription], [mergeSchema], [getType],
    [generatePropertyTypings], [generateFunctionParams] and
    [generateFunctionTypings]; [mergeNamespaceFunctions],
    [mergeNamespaceTypes] and [postProcessNamespaces] are the ones above.
    This version has no statement that changes an array: an array is the
    elements it was read with. *)
Module Legacy.

Definition generateDescription (description : option string) (indention : nat) : string :=
  match description with
  | Some d =>
      if truthy d then
        arrayJoin indention "  " ++ "  /**" ++ LF ++ " "
        ++ arrayJoin (indention + 1) "  " ++ "* " ++ d
        ++ LF ++ "  */" ++ LF
      else ""
  | None => ""
  end.

(** The body of the [forEach] of [mergeSchema].  The first record of a
    namespace is the part with its own keys; a merged record has the keys
    [namespace], [functions] and [types] only. *)
Definition mergeSchemaStep
    (namespaces : NamespaceTable) (schemaPart : SchemaPart.t) : NamespaceTable :=
  let namespace := schemaPart.(SchemaPart.namespace) in
  let functions := schemaPart.(SchemaPart.functions) in
  let types := schemaPart.(SchemaPart.types) in
  match NsMap.get namespace namespaces with
  | None =>
      (* initialize the namespace object *)
      NsMap.set namespace
        (SchemaPart.mk namespace schemaPart.(SchemaPart.description)
           functions schemaPart.(SchemaPart.events) types
           schemaPart.(SchemaPart.properties))
        namespaces
  | Some existingSchemaPart =>
      (* update existing parts *)
      let mergedSchemaPart :=
        SchemaPart.mk namespace None
          (mergeNamespaceFunctions functions existingSchemaPart)
          []
          (mergeNamespaceTypes types existingSchemaPart)
          None in
      NsMap.set namespace mergedSchemaPart namespaces
  end.

Definition mergeSchema (schemaParts : list SchemaPart.t) : NamespaceTable :=
  fold_left mergeSchemaStep schemaParts [].

(** [xs.slice(0, end)]: a negative [end] counts from the end. *)
Definition sliceTo (A : Type) (e : Z) (xs : list A) : list A :=
  let len := Z.of_nat (List.length xs) in
  let k := if (e <? 0)%Z then Z.max (len + e) 0 else Z.min e len in
  firstn (Z.to_nat k) xs.

Definition requireAllParams (params : list Node.t) : list Node.t :=
  map (fun parameter => Node.withOptional false parameter) params.

(** The signature template, which the source spells out three times. *)
Definition signatureLine (schemaPart : Node.t) (returnType params : string) : string :=
  "  function " ++ show schemaPart.(Node.name) ++ "(" ++ params ++ "): "
  ++ returnType ++ ";".

(** [leadingOptionalParameters.forEach((_, index) => ...)]: [overrides]
    collects the signatures, and every turn adds all of it to [result]. *)
Fixpoint overloadLoop
    (emit : list Node.t -> M string) (parameters : list Node.t)
    (leadingOptionalParameters : list Node.t) (index : nat)
    (overrides result : string) : M string :=
  match leadingOptionalParameters with
  | [] => ret result
  | _ :: rest =>
      signature <-
        emit (requireAllParams (slice (Z.of_nat (index + 1)) parameters)) ;;
      let overrides := overrides ++ signature in
      let overrides := overrides ++ LF in
      let result := result ++ overrides in
      overloadLoop emit parameters rest (S index) overrides result
  end.

(** [xs.forEach(x => ...)] with a body that extends the string [result]. *)
Fixpoint forEachM
    (body : string -> Node.t -> M string) (xs : list Node.t) (result : string) : M string :=
  match xs with
  | [] => ret result
  | x :: xs' =>
      result <- body result x ;;
      forEachM body xs' result
  end.

Section Synthesis.

Variable getTypeRec : Node.t -> M string.

Definition generateFunctionParams (parameters : list Node.t) : M string :=
  result <-
    mapM
      (fun param =>
         type <- getTypeRec param ;;
         ret (trim
                (generateDescription param.(Node.description) 0 ++ LF
                 ++ show param.(Node.name)
                 ++ (if param.(Node.optional) then "?" else "")
                 ++ ": " ++ type)))
      parameters ;;
  ret (String.concat ", " result).

Definition findReturnType (func : Node.t) : M (string * list Node.t) :=
  match func.(Node.parameters) with
  | None => throw "TypeError: Cannot read properties of undefined (reading 'filter')"
  | Some own =>
      let parameters :=
        filter
          (fun param =>
             negb (eqOpt param.(Node.name) (Some "callback"))
             && negb (eqOpt param.(Node.name) (Some "responseCallback")))
          own.(elems) in
      match func.(Node.async) with
      | AsyncString async =>
          let asyncReturnType :=
            find (fun param => eqOpt param.(Node.name) (Some "callback"))
              own.(elems) in
          match async =? "callback", asyncReturnType with
          | true, Some callback =>
              returnType <- getTypeRec callback ;;
              ret (returnType, parameters)
          | _, _ =>
              if async =? "responseCallback" then
                (* check if we have a responseCallback type,
                   then we have to patch the param list as well *)
                ret ("Promise<any>",
                     filter
                       (fun param =>
                          eqOpt param.(Node.name) (Some "responseCallback"))
                       parameters)
              else ret ("ERR", [])
          end
      | _ =>
          ret (match func.(Node.async) with
               | AsyncBool true => "Promise<void>"
               | _ => "void"
               end,
               parameters)
      end
  end.

(** One signature: the template filled with the rendered parameters. *)
Definition emitSignature
    (schemaPart : Node.t) (returnType : string) (params : list Node.t) : M string :=
  text <- generateFunctionParams params ;;
  ret (signatureLine schemaPart returnType text).

(** The body of the [forEach] of [generateFunctionTypings]. *)
Definition functionTyping
    (currentNamespace : string) (result : string) (schemaPart : Node.t) : M string :=
  found <- findReturnType schemaPart ;;
  let '(returnType, parameters) := found in
  (if returnType =? "ERR" then
     let error := unknownAsyncType currentNamespace schemaPart in
     logger Error error
   else ret tt) ;;;
  let result := result ++ generateDescription schemaPart.(Node.description) 0 in
  (* check if we have optional parameters BEFORE defining required parameters
     if so, add additional function signatures *)
  let firstOptionalParameter := findIndex Node.optional parameters in
  let firstRequiredParameter :=
    findIndex (fun param => negb param.(Node.optional)) parameters in
  let emit := emitSignature schemaPart returnType in
  if (0 <=? firstOptionalParameter)%Z
     && (firstOptionalParameter <? firstRequiredParameter)%Z
  then
    let leadingOptionalParameters := sliceTo firstRequiredParameter parameters in
    result <- overloadLoop emit parameters leadingOptionalParameters 0 "" result ;;
    signature <- emit (requireAllParams parameters) ;;
    let result := result ++ signature in
    ret (result ++ LF)
  else
    signature <- emit parameters ;;
    let result := result ++ signature in
    ret (result ++ LF).

Definition generatePropertyTypings (property : Node.t) : M string :=
  let result := "" in
  if property.(Node.unsupported) then ret result
  else
    match property.(Node.choices), property.(Node.isInterfaceProperty) with
    | Some _, None | Some _, Some false =>
        let result := result ++ generateDescription property.(Node.description) 0 in
        type <- getTypeRec property ;;
        ret (result ++ "  type " ++ show property.(Node.name) ++ " = " ++ type
             ++ ";" ++ LF)
    | _, _ =>
        let result := result ++ generateDescription property.(Node.description) 1 in
        type <- getTypeRec property ;;
        ret (result ++ "    " ++ show property.(Node.name)
             ++ (if property.(Node.optional) then "?" else "")
             ++ ": " ++ type ++ ";" ++ LF)
    end.

(** One level of [getType]. *)
Definition getTypeBody (property : Node.t) : M string :=
  if truthyOpt property.(Node.ref) then ret (show property.(Node.ref))
  else if eqOpt property.(Node.type) (Some "integer") then ret "number"
  else if eqOpt property.(Node.type) (Some "number") then ret "number"
  else if eqOpt property.(Node.type) (Some "string") then
    match property.(Node.enum) with
    | Some (EnumArray members) =>
        ret (trim
               (String.concat (LF ++ " | ")
                  (map (fun item => "'" ++ item ++ "'") members)))
    | Some EnumOther => ret "enum"
    | None => ret "string"
    end
  else if eqOpt property.(Node.type) (Some "array") then
    match property.(Node.items) with
    | None => throw "Cannot create array typing"
    | Some items =>
        if truthyOpt items.(Node.type) then
          inner <- getTypeRec items ;;
          ret (inner ++ "[]")
        else
          let refName :=
            if truthyOpt items.(Node.ref) then show items.(Node.ref) else "" in
          if includesDot refName then ret ("void /* " ++ refName ++ " */")
          else ret (refName ++ "[]")
    end
  else if eqOpt property.(Node.type) (Some "boolean") then ret "boolean"
  else
    match property.(Node.choices) with
    | Some choices =>
        compiled <- mapM getTypeRec choices ;;
        ret (String.concat " | " compiled)
    | None =>
        if eqOpt property.(Node.type) (Some "object") then
          match property.(Node.properties) with
          | Some entries =>
              members <-
                mapM
                  (fun entry =>
                     generatePropertyTypings
                       (interfaceProperty (fst entry) (snd entry)))
                  entries ;;
              let result := String.concat "" members in
              ret ("{" ++ LF ++ "  " ++ result ++ LF ++ "  }")
          | None =>
              ret ("/* " ++ DQ ++ "unknown" ++ DQ ++ " undefined */ object")
          end
        else ret "void"
    end.

End Synthesis.

(** [getType]: [fuel] bounds the depth of the nodes it descends into. *)
Fixpoint getType (fuel : nat) (property : Node.t) : M string :=
  match fuel with
  | O => outOfFuel
  | S fuel' => getTypeBody (getType fuel') property
  end.

Definition generateFunctionTypings
    (fuel : nat) (currentNamespace : string) (namespaces : NamespaceTable) : M string :=
  let result := "" in
  match NsMap.get currentNamespace namespaces with
  | None => ret result
  | Some schema =>
      forEachM (functionTyping (getType fuel) currentNamespace)
        schema.(SchemaPart.functions) result
  end.

End Legacy.

(** ** Views used to state the properties *)

(** The namespaces of the table that declare a type with the identifier
    [ref], in the iteration order of the table. *)
Definition declaringNamespaces
    (ref : string) (namespaces : option NamespaceTable) : list string :=
  match namespaces with
  | Some table =>
      map fst
        (filter
           (fun entry =>
              existsb (fun item => eqOpt item.(Node.id) (Some ref))
                (snd entry).(SchemaPart.types))
           table)
  | None => []
  end.

(** The successive values of [params] that the overload loop of
    [createFunctionDefinition] renders, the one rendered after the loop
    included; [n] bounds the number of turns as in [overloadLoop]. *)
Fixpoint cascade (n : nat) (params : list Node.t) : list (list Node.t) :=
  if (0 <=? findIndex Node.optional params)%Z then
    match n with
    | O => []
    | S n' =>
        requireAllParams params
        :: cascade n'
             (filterIndex
                (fun _ index => negb (Z.eqb index (findIndex Node.optional params)))
                params)
    end
  else [requireAllParams params].

(** The parameter lists of the signatures that [createFunctionDefinition]
    emits for the visible parameters [parameters], in order. *)
Definition overloads (parameters : list Node.t) : list (list Node.t) :=
  if forallb Node.optional (slice (findIndex Node.optional parameters) parameters)
  then [parameters]
  else cascade (List.length parameters) parameters.

(** The text of a function definition, given its signature lines. *)
Definition renderDefinition
    (options : Options.t) (schemaPart : Node.t) (signatures : list string) : string :=
  (if options.(Options.omitDescription) then ""
   else generateDescription schemaPart.(Node.description) 0)
  ++ String.concat "" (map (fun signature => signature ++ LF) signatures)
  ++ (if isNameReserved schemaPart then
        LF ++ " export { " ++ funcName schemaPart ++ " as "
        ++ show schemaPart.(Node.name) ++ " }" ++ LF ++ LF
      else "").

(** What [findNamespaceFortype] writes for one namespace it finds. *)
Definition foundMessage (ref namespace : string) : Level * string :=
  (Log, "FOUND! :: '" ++ namespace ++ "." ++ ref).

(** The world after some more console output. *)
Definition written (w : World) (messages : list (Level * string)) : World :=
  mkWorld w.(shifts) (w.(console) ++ messages)%list.

(** [m2] ends as [m1] does whenever [m1] ends, with a result or an
    exception. *)
Definition refines {A : Type} (m1 m2 : M A) : Prop :=
  forall w, fst (m1 w) <> OutOfFuel -> m2 w = m1 w.

(** [m] ends in every world, and a result it gives satisfies [Q]. *)
Definition ensures {A : Type} (Q : A -> Prop) (m : M A) : Prop :=
  forall w,
    match fst (m w) with
    | Ret a => Q a
    | Throw _ => True
    | OutOfFuel => False
    end.

(** The nodes [getType] may descend into from a node. *)
Definition children (n : Node.t) : list Node.t :=
  (match n.(Node.items) with Some i => [i] | None => [] end
   ++ match n.(Node.choices) with Some l => l | None => [] end
   ++ match n.(Node.properties) with Some l => map snd l | None => [] end
   ++ match n.(Node.parameters) with Some a => a.(elems) | None => [] end)%list.

(** The depth of a node: one more than the depth of its deepest child. *)
Fixpoint depth (n : Node.t) : nat :=
  match n with
  | Node.mk _ _ _ _ _ _ _ items choices properties _ _ parameters _ _ _ _ =>
      S (list_max
           (match items with Some i => [depth i] | None => [] end
            ++ match choices with Some l => map depth l | None => [] end
            ++ match properties with
               | Some l => map (fun e => depth (snd e)) l
               | None => []
               end
            ++ match parameters with Some a => map depth a.(elems) | None => [] end)%list)
  end.

(** The record that [mergeSchema] stores for a namespace when the part
    [schemaPart] arrives and [existing] is what the table holds for it. *)
Definition mergeInto
    (existing : option SchemaPart.t) (schemaPart : SchemaPart.t) : SchemaPart.t :=
  match existing with
  | None =>
      SchemaPart.mk schemaPart.(SchemaPart.namespace)
        schemaPart.(SchemaPart.description) schemaPart.(SchemaPart.functions)
        schemaPart.(SchemaPart.events) schemaPart.(SchemaPart.types)
        schemaPart.(SchemaPart.properties)
  | Some existingSchemaPart =>
      SchemaPart.mk schemaPart.(SchemaPart.namespace) None
        (mergeNamespaceFunctions schemaPart.(SchemaPart.functions) existingSchemaPart)
        (mergeNamespaceEvents schemaPart.(SchemaPart.events) existingSchemaPart)
        (mergeNamespaceTypes schemaPart.(SchemaPart.types) existingSchemaPart)
        (mergeNameSpaceProperties schemaPart.(SchemaPart.properties)
           existingSchemaPart)
  end.

(** The parts of a list that describe the namespace [ns]. *)
Definition partsOf (ns : string) (schemaParts : list SchemaPart.t) : list SchemaPart.t :=
  filter (fun schemaPart => schemaPart.(SchemaPart.namespace) =? ns) schemaParts.

(** [m] leaves the shifted arrays as they are, and a result it gives
    satisfies [Q]. *)
Definition keeps {A : Type} (Q : A -> Prop) (m : M A) : Prop :=
  forall w,
    shifts (snd (m w)) = shifts w
    /\ match fst (m w) with Ret a => Q a | _ => True end.

(** What [m] answers and shifts depends on the shifted arrays only, not on
    what has been written to the console. *)
Definition uniform {A : Type} (m : M A) : Prop :=
  forall w1 w2,
    shifts w1 = shifts w2 ->
    fst (m w1) = fst (m w2) /\ shifts (snd (m w1)) = shifts (snd (m w2)).

(** No node below [n], [n] included, has a string for [async]. *)
Fixpoint withoutAsyncName (n : Node.t) : bool :=
  match n with
  | Node.mk _ _ _ _ _ _ _ items choices properties _ async parameters _ _ _ _ =>
      match async with AsyncString _ => false | _ => true end
      && forallb (fun b : bool => b)
           (match items with Some i => [withoutAsyncName i] | None => [] end
            ++ match choices with Some l => map withoutAsyncName l | None => [] end
            ++ match properties with
               | Some l => map (fun e => withoutAsyncName (snd e)) l
               | None => []
               end
            ++ match parameters with
               | Some a => map withoutAsyncName a.(elems)
               | None => []
               end)%list
  end.

(** Whether the character [c] occurs in [s]. *)
Fixpoint mentions (c : ascii) (s : string) : bool :=
  match s with
  | EmptyString => false
  | String c' s' => Ascii.eqb c' c || mentions c s'
  end.

(** [xs] without its first element that satisfies [p]. *)
Fixpoint removeFirst (A : Type) (p : A -> bool) (xs : list A) : list A :=
  match xs with
  | [] => []
  | x :: xs' => if p x then xs' else x :: removeFirst p xs'
  end.

(** The test by which [mergeNamespaceEvents] takes [item] and [event] for
    the same event. *)
Definition sameEvent (event item : Node.t) : bool :=
  asyncEq item.(Node.async) event.(Node.async)
  && eqOpt item.(Node.name) event.(Node.name).

(** A record after [postProcessNamespaces]. *)
Definition withoutDelete (namespaceSchema : SchemaPart.t) : SchemaPart.t :=
  SchemaPart.mk
    namespaceSchema.(SchemaPart.namespace)
    namespaceSchema.(SchemaPart.description)
    (postProcessSchemaFunctions namespaceSchema.(SchemaPart.functions))
    namespaceSchema.(SchemaPart.events)
    namespaceSchema.(SchemaPart.types)
    namespaceSchema.(SchemaPart.properties).

(** What identifies an event for [mergeNamespaceEvents]. *)
Definition eventKey (event : Node.t) : Async * option string :=
  (event.(Node.async), event.(Node.name)).

(** The non-empty prefixes of a list, shortest first. *)
Fixpoint prefixes {A : Type} (xs : list A) : list (list A) :=
  match xs with
  | [] => []
  | x :: xs' => [x] :: map (cons x) (prefixes xs')
  end.

(** The text of some signature lines. *)
Definition lines (signatures : list string) : string :=
  String.concat "" (map (fun signature => signature ++ LF) signatures).

(** The parameters of a function that are no callback of the two known
    names. *)
Definition visible (parameters : list Node.t) : list Node.t :=
  filter
    (fun param =>
       negb (eqOpt param.(Node.name) (Some "callback"))
       && negb (eqOpt param.(Node.name) (Some "responseCallback")))
    parameters.

(** What the two versions of [mergeSchema] have in common in a record. *)
Definition commonKeys (part : SchemaPart.t)
  : string * option string * list Node.t * list Node.t :=
  (part.(SchemaPart.namespace), part.(SchemaPart.description),
   part.(SchemaPart.functions), part.(SchemaPart.types)).

(** [m] gives no result in any world: it throws or runs out of fuel. *)
Definition fails {A : Type} (m : M A) : Prop :=
  forall w a w', m w <> (Ret a, w').

(** ** Sample schema data *)

Module Sample.

Definition typed (name type : string) : Node.t :=
  Node.withName (Some name) (Node.withType (Some type) Node.empty).

Definition ofType (type : string) : Node.t :=
  Node.withType (Some type) Node.empty.

Definition jsonArray (address : nat) (items : list Node.t) : option (ParamArray Node.t) :=
  Some (mkArray (Some address) items).

(** File 1: [{ namespace: "mail", types: [{ id: "Foo", type: "object",
    properties: { a: { type: "string" } } }] }]. *)
Definition foo1 : Node.t :=
  Node.withOid 1
    (Node.withId (Some "Foo")
       (Node.withProperties (Some [("a", ofType "string")]) (ofType "object"))).

Definition file1 : SchemaPart.t :=
  SchemaPart.mk "mail" None [] [] [foo1] None.

(** File 2: the same namespace with [Foo] as [{ b: number }] and the
    function [send(a: string, callback: function)]. *)
Definition foo2 : Node.t :=
  Node.withOid 2
    (Node.withId (Some "Foo")
       (Node.withProperties (Some [("b", ofType "number")]) (ofType "object"))).

Definition send : Node.t :=
  Node.withOid 3
    (Node.withName (Some "send")
       (Node.withAsync (AsyncString "callback")
          (Node.withParameters
             (jsonArray 10 [typed "a" "string"; typed "callback" "function"])
             Node.empty))).

Definition file2 : SchemaPart.t :=
  SchemaPart.mk "mail" None [send] [] [foo2] None.

(** Two files of one namespace, each with one type that has no [id]. *)
Definition anonymous1 : Node.t :=
  Node.withOid 4 (Node.withChoices (Some [ofType "string"; ofType "integer"]) Node.empty).

Definition anonymous2 : Node.t :=
  Node.withOid 5 (Node.withProperties (Some [("size", ofType "integer")]) (ofType "object")).

Definition anonFile1 : SchemaPart.t :=
  SchemaPart.mk "mail" None [] [] [anonymous1] None.

Definition anonFile2 : SchemaPart.t :=
  SchemaPart.mk "mail" None [] [] [anonymous2] None.

(** Two files of one namespace, each with a [properties] map. *)
Definition propFile1 : SchemaPart.t :=
  SchemaPart.mk "mail" None [] [] []
    (Some [("first", Node.withRef (Some "Foo") Node.empty)]).

Definition propFile2 : SchemaPart.t :=
  SchemaPart.mk "mail" None [] [] []
    (Some [("second", Node.withRef (Some "Bar") Node.empty)]).

(** A table in which [compose] and [contacts] both declare [Foo], with
    [mail] between them declaring nothing. *)
Definition fooType : Node.t := Node.withId (Some "Foo") (ofType "object").

Definition namespaceOf (name : string) (types : list Node.t) : string * SchemaPart.t :=
  (name, SchemaPart.mk name None [] [] types None).

Definition ambiguousTable : NamespaceTable :=
  [namespaceOf "compose" [fooType]; namespaceOf "mail" [];
   namespaceOf "contacts" [fooType]].

(** A table in which only [compose] declares [Foo]. *)
Definition crossTable : NamespaceTable :=
  [namespaceOf "mail" []; namespaceOf "compose" [fooType]].

Definition refTo (name : string) : Node.t := Node.withRef (Some name) Node.empty.

(** [{ type: "array", items: { $ref: "Foo" } }]. *)
Definition arrayOfFoo : Node.t :=
  Node.withItems (Some (refTo "Foo")) (ofType "array").

(** [{ type: "array" }], without [items]. *)
Definition arrayWithoutItems : Node.t := ofType "array".

(** [get(id: string, options?: object, callback: function)] with
    [async: "callback"]; the callback takes one integer. *)
Definition getCallback : Node.t :=
  Node.withParameters (jsonArray 12 [ofType "integer"]) (typed "callback" "function").

Definition get : Node.t :=
  Node.withName (Some "get")
    (Node.withAsync (AsyncString "callback")
       (Node.withParameters
          (jsonArray 11
             [typed "id" "string";
              Node.withOptional true (typed "options" "object");
              getCallback])
          Node.empty)).

(** [move(source?: string, target: string, flags?: string)]: an optional
    parameter before a required one. *)
Definition source : Node.t := Node.withOptional true (typed "source" "string").
Definition target : Node.t := typed "target" "string".
Definition flags : Node.t := Node.withOptional true (typed "flags" "string").

Definition move : Node.t :=
  Node.withName (Some "move")
    (Node.withParameters (jsonArray 13 [source; target; flags]) Node.empty).

(** [notify(a: string)] with [async: "done"], which names no parameter. *)
Definition notify : Node.t :=
  Node.withName (Some "notify")
    (Node.withAsync (AsyncString "done")
       (Node.withParameters (jsonArray 14 [typed "a" "string"]) Node.empty)).

(** A namespace whose first function takes an array without [items]:
    [list(ids: array)] and [ping()]. *)
Definition listIds : Node.t :=
  Node.withName (Some "list")
    (Node.withParameters
       (jsonArray 15 [Node.withName (Some "ids") arrayWithoutItems])
       Node.empty).

Definition ping : Node.t :=
  Node.withName (Some "ping") (Node.withParameters (jsonArray 16 []) Node.empty).

Definition brokenTable : NamespaceTable :=
  [("mail", SchemaPart.mk "mail" None [listIds; ping] [] [] None)].

(** The function type [{ type: "function", async: "callback", parameters:
    [{ name: "callback", type: "function", parameters: [{ type: "integer" }] }] }]. *)
Definition asyncFunctionType : Node.t :=
  Node.withAsync (AsyncString "callback")
    (Node.withParameters
       (jsonArray 17
          [Node.withParameters (jsonArray 18 [ofType "integer"])
             (typed "callback" "function")])
       (ofType "function")).

(** A function [send] read from another file: an object of its own with
    the same content as [send]. *)
Definition sendAgain : Node.t :=
  Node.withOid 6
    (Node.withParameters
       (jsonArray 19 [typed "a" "string"; typed "callback" "function"]) send).

(** The event [onUpdated(tabId: integer)]. *)
Definition onUpdated : Node.t :=
  Node.withName (Some "onUpdated")
    (Node.withParameters (jsonArray 20 [typed "tabId" "integer"]) Node.empty).



(** [copy(from?: string, to?: string, name: string)]: two optional
    parameters before a required one. *)
Definition copy : Node.t :=
  Node.withName (Some "copy")
    (Node.withParameters
       (jsonArray 22
          [Node.withOptional true (typed "from" "string");
           Node.withOptional true (typed "to" "string");
           typed "name" "string"])
       Node.empty).

(** [query(info: object, responseCallback: function)] with
    [async: "responseCallback"]. *)
Definition query : Node.t :=
  Node.withName (Some "query")
    (Node.withAsync (AsyncString "responseCallback")
       (Node.withParameters
          (jsonArray 23 [typed "info" "object"; typed "responseCallback" "function"])
          Node.empty)).

End Sample.

(** * Properties *)

(** ** Strings and arrays *)

Lemma eqOpt_true (a b : option string) : eqOpt a b = true <-> a = b.
Proof.
  destruct a as [x|], b as [y|]; simpl; split; intro H;
    try discriminate; try reflexivity.
  - apply String.eqb_eq in H. now subst.
  - injection H as ->. apply String.eqb_refl.
Qed.

Lemma eqOpt_refl (a : option string) : eqOpt a a = true.
Proof. now apply eqOpt_true. Qed.

Lemma findIndexFrom_shift (A : Type) (p : A -> bool) (xs : list A) (i : Z) :
  findIndexFrom p i xs =
  if existsb p xs then (i + findIndexFrom p 0 xs)%Z else (-1)%Z.
Proof.
  revert i. induction xs as [|x xs IH]; intro i; simpl.
  - reflexivity.
  - destruct (p x); simpl.
    + lia.
    + rewrite (IH (i + 1)%Z), (IH 1%Z). destruct (existsb p xs); lia.
Qed.

Lemma findIndexFrom_bounds (A : Type) (p : A -> bool) (xs : list A) :
  existsb p xs = true ->
  (0 <= findIndexFrom p 0 xs < Z.of_nat (List.length xs))%Z.
Proof.
  induction xs as [|x xs IH]; simpl.
  - discriminate.
  - destruct (p x); simpl; intro H.
    + lia.
    + rewrite findIndexFrom_shift, H. specialize (IH H). lia.
Qed.

Lemma findIndexFrom_app (A : Type) (p : A -> bool) (pre suf : list A) (i : Z) :
  findIndexFrom p i (pre ++ suf)%list =
  if existsb p pre then findIndexFrom p i pre
  else findIndexFrom p (i + Z.of_nat (List.length pre)) suf.
Proof.
  revert i. induction pre as [|x pre IH]; intro i.
  - simpl. f_equal. lia.
  - cbn [app findIndexFrom existsb List.length]. destruct (p x); simpl orb.
    + reflexivity.
    + rewrite IH. destruct (existsb p pre); [reflexivity|]. f_equal. lia.
Qed.

Lemma findIndex_app (A : Type) (p : A -> bool) (pre suf : list A) :
  findIndex p (pre ++ suf)%list =
  if existsb p pre then findIndex p pre
  else if existsb p suf
       then (Z.of_nat (List.length pre) + findIndex p suf)%Z
       else (-1)%Z.
Proof.
  unfold findIndex. rewrite findIndexFrom_app.
  destruct (existsb p pre); [reflexivity|].
  rewrite findIndexFrom_shift. destruct (existsb p suf); lia.
Qed.

Lemma findIndex_none (A : Type) (p : A -> bool) (xs : list A) :
  existsb p xs = false -> findIndex p xs = (-1)%Z.
Proof.
  intro H. unfold findIndex. now rewrite findIndexFrom_shift, H.
Qed.

Lemma filterIndexFrom_kept (A : Type) (p : A -> Z -> bool) (xs : list A) (i : Z) (x : A) :
  In x (filterIndexFrom p i xs) -> exists k, p x k = true.
Proof.
  revert i. induction xs as [|y xs IH]; intro i; simpl.
  - intros [].
  - destruct (p y i) eqn:E.
    + intros [<- | H]; [now exists i | now apply (IH (i + 1)%Z)].
    + apply IH.
Qed.

(** ** Namespace merge engine *)

Section TypeMerge.

Variable result : list Node.t.

(** The callback that [mergeNamespaceTypes] filters [result] with. *)
Let keep (schemaPart : Node.t) (index : Z) : bool :=
  if negb (truthyOpt schemaPart.(Node.id)) then false
  else Z.eqb
         (findIndex (fun item => eqOpt item.(Node.id) schemaPart.(Node.id)) result)
         index.

Let hasId (i : string) (t : Node.t) : bool := eqOpt t.(Node.id) (Some i).

(** A part at position [length pre] of [result] is kept exactly when it has
    an [id] that no part before it has. *)
Lemma keep_at (pre suf : list Node.t) (x : Node.t) :
  result = (pre ++ x :: suf)%list ->
  keep x (Z.of_nat (List.length pre)) =
  truthyOpt x.(Node.id)
  && negb (existsb (fun item => eqOpt item.(Node.id) x.(Node.id)) pre).
Proof.
  intro E. unfold keep. destruct (truthyOpt x.(Node.id)); simpl; [|reflexivity].
  rewrite E, findIndex_app.
  destruct (existsb _ pre) eqn:Hpre; simpl.
  - apply Z.eqb_neq. pose proof (findIndexFrom_bounds _ _ Hpre) as B.
    unfold findIndex. lia.
  - rewrite eqOpt_refl. simpl. unfold findIndex. simpl.
    rewrite eqOpt_refl. apply Z.eqb_eq. lia.
Qed.

Lemma filter_kept_by_id (i : string) (suf pre : list Node.t) :
  truthy i = true ->
  result = (pre ++ suf)%list ->
  filter (hasId i) (filterIndexFrom keep (Z.of_nat (List.length pre)) suf) =
  if existsb (hasId i) pre then []
  else match find (hasId i) suf with Some t => [t] | None => [] end.
Proof.
  intro Hi. revert pre. induction suf as [|x suf IH]; intros pre E.
  - simpl. now destruct (existsb (hasId i) pre).
  - assert (E' : result = ((pre ++ [x]) ++ suf)%list)
      by (now rewrite <- app_assoc).
    specialize (IH (pre ++ [x])%list E').
    rewrite length_app, Nat2Z.inj_add in IH. simpl List.length in IH.
    change (Z.of_nat 1) with 1%Z in IH.
    rewrite existsb_app in IH. simpl existsb in IH. rewrite orb_false_r in IH.
    cbn [filterIndexFrom find]. rewrite (keep_at pre suf x E).
    destruct (hasId i x) eqn:Hx.
    + assert (Hid : x.(Node.id) = Some i) by (now apply eqOpt_true).
      rewrite Hid. simpl truthyOpt. rewrite Hi. simpl andb.
      fold (hasId i). rewrite orb_true_r in IH.
      destruct (existsb (hasId i) pre); simpl.
      * exact IH.
      * rewrite Hx, IH. reflexivity.
    + rewrite orb_false_r in IH.
      destruct (truthyOpt x.(Node.id) && _); simpl; rewrite ?Hx; exact IH.
Qed.

End TypeMerge.

(** Of the types with a given [id], the merge keeps the first of the new
    types followed by the existing ones, and nothing else. *)
Lemma mergeNamespaceTypes_by_id
    (i : string) (types : list Node.t) (existing : SchemaPart.t) :
  truthy i = true ->
  filter (fun t => eqOpt t.(Node.id) (Some i)) (mergeNamespaceTypes types existing) =
  match find (fun t => eqOpt t.(Node.id) (Some i))
          (types ++ existing.(SchemaPart.types))%list with
  | Some t => [t]
  | None => []
  end.
Proof.
  intro Hi. unfold mergeNamespaceTypes, filterIndex.
  exact (@filter_kept_by_id _ i _ [] Hi eq_refl).
Qed.

(** Every type that survives the merge has an [id]. *)
Lemma mergeNamespaceTypes_identified (types : list Node.t) (existing : SchemaPart.t) :
  Forall (fun t => truthyOpt t.(Node.id) = true) (mergeNamespaceTypes types existing).
Proof.
  apply Forall_forall. intros x Hx.
  unfold mergeNamespaceTypes, filterIndex in Hx.
  apply filterIndexFrom_kept in Hx. destruct Hx as [k Hk].
  destruct (truthyOpt x.(Node.id)); [reflexivity | discriminate].
Qed.

(** Merging two parts of one namespace gives a table with one record. *)
Lemma mergeSchema_two (A B : SchemaPart.t) :
  A.(SchemaPart.namespace) = B.(SchemaPart.namespace) ->
  mergeSchema [A; B] =
  [(A.(SchemaPart.namespace),
    SchemaPart.mk B.(SchemaPart.namespace) None
      (mergeNamespaceFunctions B.(SchemaPart.functions) A)
      (mergeNamespaceEvents B.(SchemaPart.events) A)
      (mergeNamespaceTypes B.(SchemaPart.types) A)
      B.(SchemaPart.properties))].
Proof.
  intro E. destruct A as [nsA dA fA eA tA pA], B as [nsB dB fB eB tB pB].
  simpl in E. subst nsB.
  unfold mergeSchema, mergeSchemaStep. simpl.
  rewrite String.eqb_refl. reflexivity.
Qed.

(** C4, as stated, fails: with file 1 declaring [Foo] as [{ a: string }] and
    file 2 declaring [Foo] as [{ b: number }], the merged namespace holds file
    2's record and not file 1's. *)
Lemma merge_duplicate_id_drops_first_file :
  exists merged,
    NsMap.get "mail" (mergeSchema [Sample.file1; Sample.file2]) = Some merged
    /\ merged.(SchemaPart.types) = [Sample.foo2]
    /\ merged.(SchemaPart.types) <> [Sample.foo1].
Proof.
  eexists. split; [reflexivity|]. split; [reflexivity|]. discriminate.
Qed.

(** C4, amended: when two parts of one namespace are merged (file 1 first,
    then file 2) and file 2 declares a type with the id [i], the merged
    types hold exactly one record with that id, and it is file 2's (its
    first record with that id), whatever file 1 declares under [i]. *)
Theorem merge_duplicate_id_keeps_second_file
    (A B : SchemaPart.t) (i : string) (t2 : Node.t) :
  A.(SchemaPart.namespace) = B.(SchemaPart.namespace) ->
  truthy i = true ->
  find (fun t => eqOpt t.(Node.id) (Some i)) B.(SchemaPart.types) = Some t2 ->
  exists merged,
    NsMap.get A.(SchemaPart.namespace) (mergeSchema [A; B]) = Some merged
    /\ filter (fun t => eqOpt t.(Node.id) (Some i)) merged.(SchemaPart.types) = [t2].
Proof.
  intros Ens Hi Hfind. rewrite (mergeSchema_two A B Ens).
  eexists. split.
  - simpl. rewrite String.eqb_refl. reflexivity.
  - cbn [SchemaPart.types]. rewrite mergeNamespaceTypes_by_id by exact Hi.
    set (p := fun t : Node.t => eqOpt t.(Node.id) (Some i)) in *.
    assert (H : find p (B.(SchemaPart.types) ++ A.(SchemaPart.types))%list = Some t2).
    { revert Hfind. generalize B.(SchemaPart.types) as l.
      induction l as [|x l IH]; simpl; [discriminate|].
      destruct (p x); auto. }
    now rewrite H.
Qed.

Lemma merge_duplicate_id_keeps_second_file_witness :
  (Sample.file1.(SchemaPart.namespace) = Sample.file2.(SchemaPart.namespace)
   /\ truthy "Foo" = true
   /\ find (fun t => eqOpt t.(Node.id) (Some "Foo")) Sample.file2.(SchemaPart.types)
      = Some Sample.foo2)
  /\ exists merged,
       NsMap.get "mail" (mergeSchema [Sample.file1; Sample.file2]) = Some merged
       /\ filter (fun t => eqOpt t.(Node.id) (Some "Foo")) merged.(SchemaPart.types)
          = [Sample.foo2].
Proof.
  split.
  - repeat split.
  - apply (@merge_duplicate_id_keeps_second_file
             Sample.file1 Sample.file2 "Foo" Sample.foo2);
      reflexivity.
Defined.

(** C5: the merge of two parts that each hold one type without [id] keeps
    neither of them, although the callback's comment reads "always keep parts
    with no name". *)
Theorem merge_loses_anonymous_types :
  exists merged,
    NsMap.get "mail" (mergeSchema [Sample.anonFile1; Sample.anonFile2]) = Some merged
    /\ merged.(SchemaPart.types) = [].
Proof.
  eexists. split; reflexivity.
Qed.

(** C6, as stated, fails: the merged record carries the second file's
    [properties] and has lost the first file's. *)
Lemma merge_properties_drops_first_file :
  exists merged,
    NsMap.get "mail" (mergeSchema [Sample.propFile1; Sample.propFile2]) = Some merged
    /\ merged.(SchemaPart.properties) = Sample.propFile2.(SchemaPart.properties)
    /\ merged.(SchemaPart.properties) <> Sample.propFile1.(SchemaPart.properties).
Proof.
  eexists. split; [reflexivity|]. split; [reflexivity|]. discriminate.
Qed.

(** C6, amended: when two parts of one namespace both carry a [properties]
    map, the merged record keeps the second file's map and drops the first
    file's. *)
Theorem merge_properties_keeps_second_file
    (A B : SchemaPart.t) (pa pb : list (string * Node.t)) :
  A.(SchemaPart.namespace) = B.(SchemaPart.namespace) ->
  A.(SchemaPart.properties) = Some pa ->
  B.(SchemaPart.properties) = Some pb ->
  exists merged,
    NsMap.get A.(SchemaPart.namespace) (mergeSchema [A; B]) = Some merged
    /\ merged.(SchemaPart.properties) = Some pb.
Proof.
  intros Ens _ Hb. rewrite (mergeSchema_two A B Ens).
  eexists. split.
  - simpl. rewrite String.eqb_refl. reflexivity.
  - exact Hb.
Qed.

Lemma merge_properties_keeps_second_file_witness :
  (Sample.propFile1.(SchemaPart.namespace) = Sample.propFile2.(SchemaPart.namespace)
   /\ Sample.propFile1.(SchemaPart.properties)
      = Some [("first", Node.withRef (Some "Foo") Node.empty)]
   /\ Sample.propFile2.(SchemaPart.properties)
      = Some [("second", Node.withRef (Some "Bar") Node.empty)])
  /\ exists merged,
       NsMap.get "mail" (mergeSchema [Sample.propFile1; Sample.propFile2]) = Some merged
       /\ merged.(SchemaPart.properties)
          = Some [("second", Node.withRef (Some "Bar") Node.empty)].
Proof.
  split.
  - repeat split.
  - apply (@merge_properties_keeps_second_file Sample.propFile1 Sample.propFile2
             [("first", Node.withRef (Some "Foo") Node.empty)]
             [("second", Node.withRef (Some "Bar") Node.empty)]);
      reflexivity.
Defined.

(** ** Reference resolver *)

Lemma written_nil (w : World) : written w [] = w.
Proof. destruct w. unfold written. simpl. now rewrite app_nil_r. Qed.

Lemma written_written (w : World) (a b : list (Level * string)) :
  written (written w a) b = written w (a ++ b)%list.
Proof. unfold written. simpl. now rewrite app_assoc. Qed.

Lemma pop_last (A : Type) (xs : list A) (x : A) : pop (xs ++ [x])%list = Some x.
Proof.
  unfold pop. rewrite map_app. simpl. apply last_last.
Qed.

(** The resolver answers the declaring namespaces in table order and writes
    one message for each. *)
Lemma findNamespaceFortype_spec
    (ref : string) (namespaces : option NamespaceTable) (w : World) :
  findNamespaceFortype ref namespaces w =
  (Ret (declaringNamespaces ref namespaces),
   written w (map (foundMessage ref) (declaringNamespaces ref namespaces))).
Proof.
  destruct namespaces as [table|]; simpl.
  2: { unfold ret. now rewrite written_nil. }
  unfold findNamespaceFortype, bind.
  assert (H : forall w0,
             mapM
               (fun entry : string * SchemaPart.t =>
                  let '(namespace, part) := entry in
                  if existsb (fun item => eqOpt item.(Node.id) (Some ref))
                       part.(SchemaPart.types)
                  then logger Log ("FOUND! :: '" ++ namespace ++ "." ++ ref) ;;;
                       ret [namespace]
                  else ret [])
               table w0 =
             (Ret (map (fun entry : string * SchemaPart.t =>
                          if existsb (fun item => eqOpt item.(Node.id) (Some ref))
                               (snd entry).(SchemaPart.types)
                          then [fst entry] else [])
                     table),
              written w0
                (map (foundMessage ref) (declaringNamespaces ref (Some table))))).
  { induction table as [|[namespace part] table IH]; intro w0.
    - simpl. unfold ret. now rewrite written_nil.
    - cbn [mapM]. unfold bind at 1. cbn [snd fst declaringNamespaces filter map].
      destruct (existsb _ part.(SchemaPart.types)).
      + unfold bind at 1, logger, ret at 1. unfold bind at 1.
        rewrite IH. unfold ret. cbn [map]. f_equal.
        unfold declaringNamespaces, written, foundMessage. simpl.
        now rewrite <- app_assoc.
      + unfold ret at 1. unfold bind at 1. rewrite IH. reflexivity. }
  rewrite H. unfold ret. f_equal. f_equal.
  clear H. induction table as [|[namespace part] table IH]; simpl.
  - reflexivity.
  - destruct (existsb _ part.(SchemaPart.types)); simpl; now rewrite IH.
Qed.

(** ** Type expression compiler: references *)

(** C9: an unqualified [$ref] is compiled without an exception.  When no
    namespace of the table declares the identifier, a warning is logged and
    the bare identifier is the type expression.  When one or several declare
    it, the last of them in the iteration order of the table is the target:
    the expression is the identifier qualified by that namespace, or the bare
    identifier when that namespace is the current one. *)
Theorem getType_unqualified_ref
    (fuel : nat) (property : Node.t) (ref : string)
    (namespaces : option NamespaceTable) (currentNamespace : option string)
    (w : World) :
  property.(Node.ref) = Some ref ->
  truthy ref = true ->
  includesDot ref = false ->
  (declaringNamespaces ref namespaces = [] ->
   getType (S fuel) (Some property) namespaces currentNamespace w =
   (Ret ref, written w [(Warn, "ERROR: namespace '" ++ ref ++ "' not found.")]))
  /\ (forall earlier target,
        declaringNamespaces ref namespaces = (earlier ++ [target])%list ->
        getType (S fuel) (Some property) namespaces currentNamespace w =
        (Ret (if truthyOpt currentNamespace && eqOpt (Some target) currentNamespace
              then ref else target ++ "." ++ ref),
         written w (map (foundMessage ref) (earlier ++ [target])%list))).
Proof.
  intros Href Htruthy Hdot.
  assert (Hbody :
    getType (S fuel) (Some property) namespaces currentNamespace w =
    (namespace <- findNamespaceFortype ref namespaces ;;
     match pop namespace with
     | None =>
         logger Warn ("ERROR: namespace '" ++ ref ++ "' not found.") ;;;
         ret ref
     | Some targetNamespace =>
         if truthyOpt currentNamespace
            && eqOpt (Some targetNamespace) currentNamespace
         then ret ref
         else ret (targetNamespace ++ "." ++ ref)
     end) w).
  { cbn [getType]. unfold getTypeBody. rewrite Href.
    cbn [truthyOpt show]. rewrite Htruthy, Hdot. reflexivity. }
  rewrite Hbody. unfold bind at 1. rewrite findNamespaceFortype_spec.
  split.
  - intro Hnone. rewrite Hnone. simpl map. rewrite written_nil. reflexivity.
  - intros earlier target Hsome. unfold bind at 1.
    rewrite findNamespaceFortype_spec, Hsome, pop_last.
    now destruct (truthyOpt currentNamespace && eqOpt (Some target) currentNamespace).
Qed.

Lemma getType_unqualified_ref_witness :
  ((Sample.refTo "Bar").(Node.ref) = Some "Bar"
   /\ truthy "Bar" = true /\ includesDot "Bar" = false
   /\ declaringNamespaces "Bar" (Some Sample.ambiguousTable) = [])
  /\ getType 1 (Some (Sample.refTo "Bar")) (Some Sample.ambiguousTable)
       (Some "mail") emptyWorld
     = (Ret "Bar",
        mkWorld [] [(Warn, "ERROR: namespace 'Bar' not found.")])
  /\ ((Sample.refTo "Foo").(Node.ref) = Some "Foo"
      /\ truthy "Foo" = true /\ includesDot "Foo" = false
      /\ declaringNamespaces "Foo" (Some Sample.ambiguousTable)
         = ["compose"; "contacts"])
  /\ getType 1 (Some (Sample.refTo "Foo")) (Some Sample.ambiguousTable)
       (Some "mail") emptyWorld
     = (Ret "contacts.Foo",
        mkWorld []
          [(Log, "FOUND! :: 'compose.Foo"); (Log, "FOUND! :: 'contacts.Foo")]).
Proof.
  split; [repeat split|]. split; [|split; [repeat split|]].
  - apply (proj1 (@getType_unqualified_ref 0 (Sample.refTo "Bar") "Bar"
                    (Some Sample.ambiguousTable) (Some "mail") emptyWorld
                    eq_refl eq_refl eq_refl)).
    reflexivity.
  - apply (proj2 (@getType_unqualified_ref 0 (Sample.refTo "Foo") "Foo"
                    (Some Sample.ambiguousTable) (Some "mail") emptyWorld
                    eq_refl eq_refl eq_refl)
             ["compose"] "contacts").
    reflexivity.
Defined.

(** ** Function signature synthesizer: overloads *)

Lemma append_assoc (a b c : string) : (a ++ b) ++ c = a ++ (b ++ c).
Proof. induction a as [|x a IH]; simpl; [reflexivity | now rewrite IH]. Qed.

Lemma append_nil_r (a : string) : a ++ "" = a.
Proof. induction a as [|x a IH]; simpl; [reflexivity | now rewrite IH]. Qed.

Lemma concat_empty_cons (x : string) (xs : list string) :
  String.concat "" (x :: xs) = x ++ String.concat "" xs.
Proof.
  destruct xs as [|y ys]; simpl; [now rewrite append_nil_r | reflexivity].
Qed.

Lemma findIndex_found (A : Type) (p : A -> bool) (xs : list A) :
  (0 <=? findIndex p xs)%Z = true ->
  (0 <= findIndex p xs < Z.of_nat (List.length xs))%Z.
Proof.
  intro H. apply Z.leb_le in H. unfold findIndex in *.
  destruct (existsb p xs) eqn:E.
  - now apply findIndexFrom_bounds.
  - rewrite findIndexFrom_shift, E in H. lia.
Qed.

Lemma removeAt_before (A : Type) (xs : list A) (i k : Z) :
  (k < i)%Z ->
  filterIndexFrom (fun _ index => negb (Z.eqb index k)) i xs = xs.
Proof.
  revert i. induction xs as [|x xs IH]; intros i H; simpl.
  - reflexivity.
  - destruct (Z.eqb_spec i k); [lia|]. simpl. f_equal. apply IH. lia.
Qed.

Lemma removeAt_length (A : Type) (xs : list A) (i k : Z) :
  (i <= k < i + Z.of_nat (List.length xs))%Z ->
  S (List.length (filterIndexFrom (fun _ index => negb (Z.eqb index k)) i xs))
  = List.length xs.
Proof.
  revert i. induction xs as [|x xs IH]; intros i H.
  - simpl in H. lia.
  - cbn [filterIndexFrom]. cbn [List.length] in *. rewrite Nat2Z.inj_succ in H.
    destruct (Z.eqb_spec i k) as [->|Hne]; simpl negb; cbn iota.
    + rewrite removeAt_before by lia. reflexivity.
    + cbn [List.length]. f_equal. apply IH. lia.
Qed.

Lemma removeFirstOptional_length (params : list Node.t) :
  (0 <=? findIndex Node.optional params)%Z = true ->
  S (List.length
       (filterIndex
          (fun _ index => negb (Z.eqb index (findIndex Node.optional params)))
          params))
  = List.length params.
Proof.
  intro H. pose proof (findIndex_found _ _ H) as B.
  unfold filterIndex. apply removeAt_length. lia.
Qed.

Lemma bind_bind (A B C : Type) (m : M A) (f : A -> M B) (g : B -> M C) (w : World) :
  bind (bind m f) g w = bind m (fun x => bind (f x) g) w.
Proof. unfold bind. now destruct (m w) as [[a|msg|] w']. Qed.

Lemma bind_ext (A B : Type) (m : M A) (f g : A -> M B) (w : World) :
  (forall a w', f a w' = g a w') -> bind m f w = bind m g w.
Proof. intro H. unfold bind. destruct (m w) as [[a|msg|] w']; auto. Qed.

(** The overload loop followed by the last signature renders the lists of
    [cascade], one after the other, and concatenates the lines. *)
Lemma overloadLoop_cascade
    (emit : list Node.t -> M string) (head : string) (n : nat) :
  forall (params : list Node.t) (acc : string) (w : World),
    List.length params <= n ->
    (looped <- overloadLoop emit n params acc ;;
     let '(ps, overrides) := looped in
     signature <- emit (requireAllParams ps) ;;
     ret (((head ++ overrides) ++ signature) ++ LF)) w
    = (signatures <- mapM emit (cascade n params) ;;
       ret (head ++ acc
            ++ String.concat "" (map (fun signature => signature ++ LF) signatures))) w.
Proof.
  assert (Hlast : forall params acc w,
             (signature <- emit (requireAllParams params) ;;
              ret (((head ++ acc) ++ signature) ++ LF)) w
             = (signatures <- mapM emit [requireAllParams params] ;;
                ret (head ++ acc
                     ++ String.concat ""
                          (map (fun signature => signature ++ LF) signatures))) w).
  { intros params acc w. cbn [mapM]. rewrite bind_bind. apply bind_ext.
    intros signature w'. unfold bind, ret. simpl.
    now rewrite !append_assoc. }
  induction n as [|n IH]; intros params acc w Hlen.
  - destruct params; [|simpl in Hlen; lia]. simpl overloadLoop. simpl cascade.
    unfold bind at 1, ret at 1. apply Hlast.
  - cbn [overloadLoop cascade].
    destruct (0 <=? findIndex Node.optional params)%Z eqn:Hopt.
    + pose proof (removeFirstOptional_length params Hopt) as Hrem.
      rewrite bind_bind. cbn [mapM]. rewrite bind_bind. apply bind_ext.
      intros signature w'. rewrite IH by lia. rewrite bind_bind. apply bind_ext.
      intros signatures w''. unfold bind, ret. cbn [map].
      now rewrite concat_empty_cons, !append_assoc.
    + unfold bind at 1, ret at 1. apply Hlast.
Qed.

(** [createFunctionDefinition] renders one signature for each list of
    [overloads], in order, from the visible parameters that [findReturnType]
    answers. *)
Lemma createFunctionDefinition_overloads
    (getTypeRec : option Node.t -> option NamespaceTable -> option string -> M string)
    (schemaPart : Node.t) (currentNamespace : string)
    (options : Options.t) (namespaces : option NamespaceTable) (w : World) :
  createFunctionDefinition getTypeRec schemaPart currentNamespace options namespaces w
  = (found <- findReturnType getTypeRec schemaPart namespaces currentNamespace schemaPart ;;
     (if fst found =? "ERR" then
        logger Error (unknownAsyncType currentNamespace schemaPart)
      else ret tt) ;;;
     signatures <-
       mapM (emitSignature getTypeRec options (funcName schemaPart) (fst found))
         (overloads (snd found)) ;;
     ret (renderDefinition options schemaPart signatures)) w.
Proof.
  unfold createFunctionDefinition. apply bind_ext. intros [returnType parameters] w1.
  cbn [fst snd]. apply bind_ext. intros _ w2.
  unfold overloads, renderDefinition.
  set (emit := emitSignature getTypeRec options (funcName schemaPart) returnType).
  set (head := if options.(Options.omitDescription) then ""
               else "" ++ generateDescription schemaPart.(Node.description) 0).
  destruct (forallb Node.optional
              (slice (findIndex Node.optional parameters) parameters)); cbn [negb].
  - rewrite bind_bind. cbn [mapM]. rewrite bind_bind. apply bind_ext.
    intros signature w3. unfold bind, ret. cbn [map].
    rewrite concat_empty_cons. simpl String.concat. rewrite append_nil_r.
    subst head. destruct options.(Options.omitDescription), (isNameReserved schemaPart);
      simpl; rewrite ?append_nil_r, ?append_assoc; reflexivity.
  - rewrite bind_bind.
    transitivity
      ((result <-
          (looped <- overloadLoop emit (List.length parameters) parameters "" ;;
           let '(ps, overrides) := looped in
           signature <- emit (requireAllParams ps) ;;
           ret (((head ++ overrides) ++ signature) ++ LF)) ;;
        ret (if isNameReserved schemaPart
             then result ++ LF ++ " export { " ++ funcName schemaPart ++ " as "
                  ++ show schemaPart.(Node.name) ++ " }" ++ LF ++ LF
             else result)) w2).
    { rewrite bind_bind. apply bind_ext. intros [ps overrides] w3.
      rewrite bind_bind. reflexivity. }
    unfold bind at 1. rewrite overloadLoop_cascade by lia.
    fold (bind (A:=string) (B:=string)).
    unfold bind. destruct (mapM emit _ w2) as [[signatures|msg|] w3]; try reflexivity.
    unfold ret. simpl "++".
    subst head. destruct options.(Options.omitDescription), (isNameReserved schemaPart);
      simpl; rewrite ?append_nil_r, ?append_assoc; reflexivity.
Qed.

Lemma Forall_filterIndexFrom (A : Type) (P : A -> Prop) (p : A -> Z -> bool)
    (xs : list A) (i : Z) :
  Forall P xs -> Forall P (filterIndexFrom p i xs).
Proof.
  intro H. revert i. induction H as [|x xs Hx Hxs IH]; intro i; simpl.
  - constructor.
  - destruct (p x i); [constructor|]; auto.
Qed.

Lemma requireAllParams_names (Q : option string -> Prop) (params : list Node.t) :
  Forall (fun q => Q q.(Node.name)) params ->
  Forall (fun q => Q q.(Node.name)) (requireAllParams params).
Proof.
  intro H. unfold requireAllParams. induction H; simpl; constructor; auto.
Qed.

(** Every signature of the overload set is made of parameters of the visible
    list: a property of the names of all visible parameters holds for the
    names in each signature. *)
Lemma overloads_names (Q : option string -> Prop) (parameters : list Node.t) :
  Forall (fun q => Q q.(Node.name)) parameters ->
  Forall (Forall (fun q => Q q.(Node.name))) (overloads parameters).
Proof.
  intro H. unfold overloads.
  destruct (forallb _ _); [now repeat constructor|].
  generalize (List.length parameters) as n. intro n.
  revert parameters H. induction n as [|n IH]; intros parameters H; simpl.
  - destruct (0 <=? _)%Z; repeat constructor. now apply requireAllParams_names.
  - destruct (0 <=? _)%Z; repeat constructor;
      try now apply requireAllParams_names.
    apply IH. now apply Forall_filterIndexFrom.
Qed.

(** With [async] a string, the visible parameters that [findReturnType]
    answers are the function's parameters without those of that name. *)
Lemma findReturnType_async_string
    (getTypeRec : option Node.t -> option NamespaceTable -> option string -> M string)
    (schemaPart func : Node.t) (namespaces : option NamespaceTable)
    (currentNamespace p returnType : string) (parameters : list Node.t)
    (w w' : World) :
  func.(Node.async) = AsyncString p ->
  findReturnType getTypeRec schemaPart namespaces currentNamespace func w
  = (Ret (returnType, parameters), w') ->
  exists funcParameters,
    func.(Node.parameters) = Some funcParameters
    /\ parameters =
       filter (fun param => negb (eqOpt param.(Node.name) (Some p)))
         (readArray w' funcParameters).
Proof.
  intros Hasync H. unfold findReturnType in H. rewrite Hasync in H.
  unfold bind at 1 in H.
  destruct (match schemaPart.(Node.parameters) with
            | Some a => getElems a
            | None => ret []
            end w) as [[own| |] w0] eqn:Hown; try discriminate.
  destruct func.(Node.parameters) as [funcParameters|]; [|discriminate].
  exists funcParameters. split; [reflexivity|].
  unfold bind at 1, getElems at 1 in H.
  unfold bind at 1 in H.
  match type of H with
  | context [match ?m w0 with _ => _ end] =>
      destruct (m w0) as [[first| |] w1]; try discriminate
  end.
  unfold bind at 1 in H.
  destruct (getTypeRec first namespaces (Some currentNamespace) w1)
    as [[unwrapped| |] w2]; try discriminate.
  unfold bind, getElems, ret in H. injection H as _ <- <-. reflexivity.
Qed.

(** C1: when [async] is the string [p], no signature that
    [createFunctionDefinition] emits has a parameter named [p].  The
    signatures emitted are those of [overloads] applied to the visible
    parameters answered by [findReturnType], which are the function's
    parameters with the ones named [p] filtered out. *)
Theorem async_callback_parameter_not_visible
    (getTypeRec : option Node.t -> option NamespaceTable -> option string -> M string)
    (schemaPart : Node.t) (currentNamespace : string) (options : Options.t)
    (namespaces : option NamespaceTable) (p returnType : string)
    (parameters : list Node.t) (w w' : World) :
  schemaPart.(Node.async) = AsyncString p ->
  findReturnType getTypeRec schemaPart namespaces currentNamespace schemaPart w
  = (Ret (returnType, parameters), w') ->
  createFunctionDefinition getTypeRec schemaPart currentNamespace options namespaces w
  = ((if returnType =? "ERR" then
        logger Error (unknownAsyncType currentNamespace schemaPart)
      else ret tt) ;;;
     signatures <-
       mapM (emitSignature getTypeRec options (funcName schemaPart) returnType)
         (overloads parameters) ;;
     ret (renderDefinition options schemaPart signatures)) w'
  /\ Forall (Forall (fun q => q.(Node.name) <> Some p)) (overloads parameters).
Proof.
  intros Hasync Hfound. split.
  - rewrite createFunctionDefinition_overloads. unfold bind at 1.
    rewrite Hfound. reflexivity.
  - destruct (findReturnType_async_string _ _ _ _ _ _ Hasync Hfound)
      as [funcParameters [_ ->]].
    apply (overloads_names (fun name => name <> Some p)).
    apply Forall_forall. intros q Hq. apply filter_In in Hq.
    destruct Hq as [_ Hq]. intro Hname. rewrite Hname, eqOpt_refl in Hq.
    discriminate.
Qed.

Lemma async_callback_parameter_not_visible_witness :
  (Sample.get.(Node.async) = AsyncString "callback"
   /\ findReturnType (getType 2) Sample.get None "mail" Sample.get emptyWorld
      = (Ret ("Promise<number>",
              [Sample.typed "id" "string";
               Node.withOptional true (Sample.typed "options" "object")]),
         mkWorld [12] []))
  /\ Forall (Forall (fun q => q.(Node.name) <> Some "callback"))
       (overloads
          [Sample.typed "id" "string";
           Node.withOptional true (Sample.typed "options" "object")]).
Proof.
  split.
  - split; reflexivity.
  - apply (proj2 (@async_callback_parameter_not_visible
                    (getType 2) Sample.get "mail" Options.default None
                    "callback" "Promise<number>"
                    [Sample.typed "id" "string";
                     Node.withOptional true (Sample.typed "options" "object")]
                    emptyWorld (mkWorld [12] []) eq_refl eq_refl)).
Defined.

Lemma requireAllParams_forced (params : list Node.t) :
  Forall
    (fun q => q.(Node.optional) = true -> q.(Node.name) = Some "callback")
    (requireAllParams params).
Proof.
  unfold requireAllParams. induction params as [|x params IH]; simpl; constructor.
  - simpl. destruct (eqOpt x.(Node.name) (Some "callback")) eqn:E.
    + intros _. now apply eqOpt_true.
    + discriminate.
  - exact IH.
Qed.

Lemma overloads_optional_required_optional (o1 r1 o2 : Node.t) :
  o1.(Node.optional) = true ->
  r1.(Node.optional) = false ->
  o2.(Node.optional) = true ->
  overloads [o1; r1; o2] =
  [requireAllParams [o1; r1; o2]; requireAllParams [r1; o2]; requireAllParams [r1]].
Proof.
  intros H1 H2 H3.
  unfold overloads, findIndex, slice, filterIndex. simpl findIndexFrom.
  rewrite H1. simpl. rewrite H1, H2. simpl.
  unfold findIndex, filterIndex. simpl. rewrite H1. simpl.
  rewrite H2, H3. simpl. rewrite H2. reflexivity.
Qed.

(** C2, as stated, fails: for [move(source?, target, flags?)] the code emits
    three signatures, over [source, target, flags], [target, flags] and
    [target], not the two over [source, target] and [source, target, flags]. *)
Lemma optional_required_optional_gives_three_signatures :
  createFunctionDefinition (getType 2) Sample.move "mail" Options.default None
    emptyWorld
  = (Ret ("  function move(source: string, target: string, flags: string): void;" ++ LF
          ++ "  function move(target: string, flags: string): void;" ++ LF
          ++ "  function move(target: string): void;" ++ LF),
     emptyWorld)
  /\ List.length (overloads [Sample.source; Sample.target; Sample.flags]) = 3
  /\ overloads [Sample.source; Sample.target; Sample.flags]
     <> [requireAllParams [Sample.source; Sample.target];
         requireAllParams [Sample.source; Sample.target; Sample.flags]].
Proof.
  split; [reflexivity|]. split; [reflexivity|]. discriminate.
Qed.

(** C2, amended: when the visible parameters are [opt1, req1, opt2], with
    [opt1] and [opt2] optional and [req1] required,
    [createFunctionDefinition] emits exactly three signatures, over
    [opt1, req1, opt2], over [req1, opt2] and over [req1], in this order;
    in each of them every parameter is required except one named
    [callback], which keeps its own flag. *)
Theorem optional_required_optional_overloads
    (getTypeRec : option Node.t -> option NamespaceTable -> option string -> M string)
    (schemaPart : Node.t) (currentNamespace : string) (options : Options.t)
    (namespaces : option NamespaceTable) (returnType : string)
    (opt1 req1 opt2 : Node.t) (w w' : World) :
  opt1.(Node.optional) = true ->
  req1.(Node.optional) = false ->
  opt2.(Node.optional) = true ->
  findReturnType getTypeRec schemaPart namespaces currentNamespace schemaPart w
  = (Ret (returnType, [opt1; req1; opt2]), w') ->
  let emit := emitSignature getTypeRec options (funcName schemaPart) returnType in
  createFunctionDefinition getTypeRec schemaPart currentNamespace options namespaces w
  = ((if returnType =? "ERR" then
        logger Error (unknownAsyncType currentNamespace schemaPart)
      else ret tt) ;;;
     first <- emit (requireAllParams [opt1; req1; opt2]) ;;
     second <- emit (requireAllParams [req1; opt2]) ;;
     third <- emit (requireAllParams [req1]) ;;
     ret (renderDefinition options schemaPart [first; second; third])) w'
  /\ Forall
       (Forall (fun q => q.(Node.optional) = true -> q.(Node.name) = Some "callback"))
       (overloads [opt1; req1; opt2]).
Proof.
  intros H1 H2 H3 Hfound emit. split.
  - rewrite createFunctionDefinition_overloads. unfold bind at 1.
    rewrite Hfound. cbn [fst snd].
    rewrite (overloads_optional_required_optional _ _ _ H1 H2 H3).
    fold emit. apply bind_ext. intros _ w1. cbn [mapM].
    rewrite bind_bind. apply bind_ext. intros first w2.
    rewrite !bind_bind. apply bind_ext. intros second w3.
    rewrite !bind_bind. apply bind_ext. intros third w4.
    reflexivity.
  - rewrite (overloads_optional_required_optional _ _ _ H1 H2 H3).
    repeat (apply Forall_cons; [apply requireAllParams_forced|]). apply Forall_nil.
Qed.

Lemma optional_required_optional_overloads_witness :
  (Sample.source.(Node.optional) = true
   /\ Sample.target.(Node.optional) = false
   /\ Sample.flags.(Node.optional) = true
   /\ findReturnType (getType 2) Sample.move None "mail" Sample.move emptyWorld
      = (Ret ("void", [Sample.source; Sample.target; Sample.flags]), emptyWorld))
  /\ Forall
       (Forall (fun q => q.(Node.optional) = true -> q.(Node.name) = Some "callback"))
       (overloads [Sample.source; Sample.target; Sample.flags]).
Proof.
  split.
  - repeat split.
  - apply (proj2 (@optional_required_optional_overloads
                    (getType 2) Sample.move "mail" Options.default None "void"
                    Sample.source Sample.target Sample.flags emptyWorld emptyWorld
                    eq_refl eq_refl eq_refl eq_refl)).
Defined.

(** ** Function signature synthesizer: unknown async convention *)

(** When [async] is a string and no parameter has that name and the type
    [function], [findReturnType] answers [Promise<void>] with all parameters
    of another name, and writes nothing. *)
Lemma findReturnType_unmatched_async
    (fuel : nat) (schemaPart : Node.t) (namespaces : option NamespaceTable)
    (currentNamespace p : string) (funcParameters : ParamArray Node.t) (w : World) :
  schemaPart.(Node.async) = AsyncString p ->
  schemaPart.(Node.parameters) = Some funcParameters ->
  find
    (fun param =>
       eqOpt param.(Node.name) (Some p) && eqOpt param.(Node.type) (Some "function"))
    (readArray w funcParameters) = None ->
  findReturnType (getType (S fuel)) schemaPart namespaces currentNamespace schemaPart w
  = (Ret ("Promise<void>",
          filter (fun param => negb (eqOpt param.(Node.name) (Some p)))
            (readArray w funcParameters)),
     w).
Proof.
  intros Hasync Hparams Hfind. unfold findReturnType.
  rewrite Hasync, Hparams. unfold bind, getElems, ret. rewrite Hfind. reflexivity.
Qed.

(** C3: [notify(a: string)] with [async: "done"] has no parameter named
    [done].  Its definition is emitted with the parameter [a] and the return
    type [Promise<void>], and nothing is written to the console: the
    diagnostic and the empty parameter list sit behind a [return] that comes
    after the one taken. *)
Theorem unknown_async_convention_is_silent (fuel : nat) :
  createFunctionDefinition (getType (S fuel)) Sample.notify "mail" Options.default
    None emptyWorld
  = (Ret ("  function notify(a: string): Promise<void>;" ++ LF), emptyWorld).
Proof. reflexivity. Qed.

(** ** Type expression compiler: arrays *)

(** An array whose [items] has no [type] compiles to the [$ref] of the items
    followed by the array suffix; the namespace table is not consulted. *)
Lemma getType_array_of_ref
    (fuel : nat) (property items : Node.t) (namespaces : option NamespaceTable)
    (currentNamespace : option string) (w : World) :
  truthyOpt property.(Node.ref) = false ->
  property.(Node.type) = Some "array" ->
  property.(Node.items) = Some items ->
  truthyOpt items.(Node.type) = false ->
  getType (S fuel) (Some property) namespaces currentNamespace w
  = (Ret ((if truthyOpt items.(Node.ref) then show items.(Node.ref) else "") ++ "[]"),
     w).
Proof.
  intros Href Htype Hitems Hitype. cbn [getType]. unfold getTypeBody.
  rewrite Href, Htype, Hitems, Hitype. simpl.
  now destruct (includesDot _).
Qed.

(** C7: in namespace [mail], with [Foo] declared by [compose] only, the
    array of [Foo] compiles to [Foo[]], while the reference [Foo] alone
    compiles to [compose.Foo]. *)
Theorem array_of_foreign_ref_is_unqualified (fuel : nat) :
  getType (S fuel) (Some Sample.arrayOfFoo) (Some Sample.crossTable) (Some "mail")
    emptyWorld
  = (Ret "Foo[]", emptyWorld)
  /\ getType (S fuel) (Some (Sample.refTo "Foo")) (Some Sample.crossTable)
       (Some "mail") emptyWorld
     = (Ret "compose.Foo", mkWorld [] [(Log, "FOUND! :: 'compose.Foo")]).
Proof. split; reflexivity. Qed.

(** C8, as stated, fails: compiling [{ type: "array" }] throws instead of
    answering the marker for an undeterminable type, and the function typings
    of a namespace whose first function has such a parameter are not
    generated, the declaration of [ping] included. *)
Lemma array_without_items_aborts :
  getType 1 (Some Sample.arrayWithoutItems) None None emptyWorld
  = (Throw "Cannot create array typing", emptyWorld)
  /\ getType 1 (Some Sample.arrayWithoutItems) None None emptyWorld
     <> (Ret "void /* could not determine correct type */", emptyWorld)
  /\ generateFunctionTypings 2 "mail" Sample.brokenTable emptyWorld
     = (Throw "Cannot create array typing", emptyWorld).
Proof.
  split; [reflexivity|]. split; [discriminate | reflexivity].
Qed.

Lemma mapM_fails (A B : Type) (f : A -> M B) (x : A) (xs : list A) :
  (forall w ys w', f x w <> (Ret ys, w')) ->
  In x xs ->
  forall w ys w', mapM f xs w <> (Ret ys, w').
Proof.
  intros Hx Hin. induction xs as [|y xs IH]; [destruct Hin|].
  intros w ys w' H. cbn [mapM] in H. unfold bind at 1 in H.
  destruct (f y w) as [[b|msg|] w1] eqn:Hy; try discriminate.
  destruct Hin as [-> | Hin].
  - exact (Hx _ _ _ Hy).
  - unfold bind at 1 in H.
    destruct (mapM f xs w1) as [[bs|msg|] w2] eqn:Hxs; try discriminate.
    exact (IH Hin _ _ _ Hxs).
Qed.

(** C8, amended: compiling an array-typed node without [items] throws
    ["Cannot create array typing"]; no type expression is produced for the
    node, and no parameter list that contains the node can be rendered. *)
Theorem getType_array_without_items
    (fuel : nat) (property : Node.t) :
  truthyOpt property.(Node.ref) = false ->
  property.(Node.type) = Some "array" ->
  property.(Node.items) = None ->
  (forall namespaces currentNamespace w,
      getType (S fuel) (Some property) namespaces currentNamespace w
      = (Throw "Cannot create array typing", w))
  /\ (forall parameters w text w',
        In property parameters ->
        generateFunctionParams (getType (S fuel)) parameters w <> (Ret text, w')).
Proof.
  intros Href Htype Hitems.
  assert (Hthrow : forall parameters namespaces currentNamespace w,
             getType (S fuel) (Some (Node.withParameters parameters property))
               namespaces currentNamespace w
             = (Throw "Cannot create array typing", w)).
  { intros. cbn [getType]. unfold getTypeBody. simpl.
    rewrite Href, Htype, Hitems. reflexivity. }
  split.
  - intros. cbn [getType]. unfold getTypeBody.
    rewrite Href, Htype, Hitems. reflexivity.
  - intros parameters w text w' Hin H.
    unfold generateFunctionParams in H. unfold bind at 1 in H.
    match type of H with
    | context [mapM ?f parameters w] =>
        destruct (mapM f parameters w) as [[result|msg|] w1] eqn:Hmap;
        try discriminate;
        apply (@mapM_fails _ _ f property parameters) in Hmap; [exact Hmap | | exact Hin]
    end.
    intros w0 ys w0' Hrun. unfold bind at 1 in Hrun.
    destruct property.(Node.parameters) as [a|].
    + unfold bind at 1, getElems, ret at 1 in Hrun. unfold bind at 1 in Hrun.
      rewrite Hthrow in Hrun. discriminate.
    + unfold ret at 1 in Hrun. unfold bind at 1 in Hrun.
      rewrite Hthrow in Hrun. discriminate.
Qed.

Lemma getType_array_without_items_witness :
  (truthyOpt Sample.arrayWithoutItems.(Node.ref) = false
   /\ Sample.arrayWithoutItems.(Node.type) = Some "array"
   /\ Sample.arrayWithoutItems.(Node.items) = None)
  /\ getType 1 (Some Sample.arrayWithoutItems) (Some Sample.crossTable) (Some "mail")
       emptyWorld
     = (Throw "Cannot create array typing", emptyWorld).
Proof.
  split.
  - repeat split.
  - apply (proj1 (@getType_array_without_items 0 Sample.arrayWithoutItems
                    eq_refl eq_refl eq_refl)).
Defined.

(** ** Type expression compiler: compiling twice *)

(** C10: compiling the function type [asyncFunctionType] twice in a row gives
    two different texts.  The first compilation shifts the nested parameter
    off the callback's [parameters] array, so the second one finds the array
    empty and resolves to [void]. *)
Theorem compiling_twice_differs (fuel : nat) :
  (first <- getType (S (S fuel)) (Some Sample.asyncFunctionType) None None ;;
   second <- getType (S (S fuel)) (Some Sample.asyncFunctionType) None None ;;
   ret (first, second)) emptyWorld
  = (Ret ("/* or any?  */   () => Promise<number> , " ++ LF ++ " /* x7 */ " ++ LF,
          "/* or any?  */   () => Promise<void> , " ++ LF ++ " /* x7 */ " ++ LF),
     mkWorld [18] []).
Proof. reflexivity. Qed.

(** ** Fuel

[getType] is given fuel only to make the recursion through nested nodes
structural.  More fuel never changes an answer: a run that ends, with a
result or an exception, ends the same way with any larger fuel. *)

Lemma refines_refl (A : Type) (m : M A) : refines m m.
Proof. now intros w _. Qed.

Lemma refines_bind (A B : Type) (m1 m2 : M A) (k1 k2 : A -> M B) :
  refines m1 m2 ->
  (forall a, refines (k1 a) (k2 a)) ->
  refines (bind m1 k1) (bind m2 k2).
Proof.
  intros Hm Hk w H. unfold bind in *.
  destruct (m1 w) as [[a|msg|] w1] eqn:E.
  - rewrite (Hm w) by (rewrite E; discriminate). rewrite E. now apply Hk.
  - rewrite (Hm w) by (rewrite E; discriminate). now rewrite E.
  - now contradiction H.
Qed.

Lemma refines_mapM (A B : Type) (f1 f2 : A -> M B) (xs : list A) :
  (forall x, refines (f1 x) (f2 x)) ->
  refines (mapM f1 xs) (mapM f2 xs).
Proof.
  intro H. induction xs as [|x xs IH]; cbn [mapM].
  - apply refines_refl.
  - apply refines_bind; [apply H|]. intro y.
    apply refines_bind; [apply IH|]. intro ys. apply refines_refl.
Qed.

Lemma refines_overloadLoop (emit1 emit2 : list Node.t -> M string) (n : nat) :
  (forall ps, refines (emit1 ps) (emit2 ps)) ->
  forall params overrides,
    refines (overloadLoop emit1 n params overrides)
      (overloadLoop emit2 n params overrides).
Proof.
  intro H. induction n as [|n IH]; intros params overrides; cbn [overloadLoop];
    destruct (0 <=? findIndex Node.optional params)%Z; try apply refines_refl.
  apply refines_bind; [apply H|]. intro signature. apply IH.
Qed.

Ltac refines_step :=
  first
    [ apply refines_refl
    | apply refines_bind; [|intro]
    | apply refines_mapM; intro
    | apply refines_overloadLoop; intro
    | match goal with
      | |- refines (match ?x with _ => _ end) (match ?x with _ => _ end) =>
          destruct x
      | |- refines (if ?b then _ else _) (if ?b then _ else _) => destruct b
      | |- refines (let '(_, _) := ?p in _) (let '(_, _) := ?p in _) =>
          destruct p
      end ].

Section FuelMonotone.

Variables rec1 rec2 :
  option Node.t -> option NamespaceTable -> option string -> M string.

Hypothesis Hrec :
  forall property namespaces currentNamespace,
    refines (rec1 property namespaces currentNamespace)
      (rec2 property namespaces currentNamespace).

Lemma refines_generateFunctionParams (parameters : list Node.t) :
  refines (generateFunctionParams rec1 parameters)
    (generateFunctionParams rec2 parameters).
Proof.
  unfold generateFunctionParams. repeat refines_step. apply Hrec.
Qed.

Lemma refines_findReturnType
    (schemaPart : Node.t) (namespaces : option NamespaceTable)
    (currentNamespace : string) (func : Node.t) :
  refines (findReturnType rec1 schemaPart namespaces currentNamespace func)
    (findReturnType rec2 schemaPart namespaces currentNamespace func).
Proof.
  unfold findReturnType. refines_step; [apply refines_refl|].
  destruct func.(Node.async); try apply refines_refl.
  destruct func.(Node.parameters); [|apply refines_refl].
  refines_step; [apply refines_refl|]. refines_step; [apply refines_refl|].
  refines_step; [apply Hrec|]. apply refines_refl.
Qed.

Lemma refines_createFunctionDefinition
    (schemaPart : Node.t) (currentNamespace : string)
    (options : Options.t) (namespaces : option NamespaceTable) :
  refines
    (createFunctionDefinition rec1 schemaPart currentNamespace options namespaces)
    (createFunctionDefinition rec2 schemaPart currentNamespace options namespaces).
Proof.
  assert (Hemit : forall funcName returnType ps,
             refines (emitSignature rec1 options funcName returnType ps)
               (emitSignature rec2 options funcName returnType ps)).
  { intros. unfold emitSignature.
    apply refines_bind; [apply refines_generateFunctionParams|].
    intro. apply refines_refl. }
  unfold createFunctionDefinition.
  apply refines_bind; [apply refines_findReturnType|]. intros [returnType parameters].
  apply refines_bind; [apply refines_refl|]. intros _.
  apply refines_bind; [|intro; apply refines_refl].
  destruct (negb _).
  - apply refines_bind; [apply refines_overloadLoop; intro; apply Hemit|].
    intros [params overrides].
    apply refines_bind; [apply Hemit|]. intro. apply refines_refl.
  - apply refines_bind; [apply Hemit|]. intro. apply refines_refl.
Qed.

Lemma refines_generatePropertyTypings (property : Node.t) :
  refines (generatePropertyTypings rec1 property)
    (generatePropertyTypings rec2 property).
Proof.
  unfold generatePropertyTypings.
  destruct property.(Node.unsupported); [apply refines_refl|].
  destruct property.(Node.choices), property.(Node.isInterfaceProperty) as [[|]|];
    (apply refines_bind; [apply Hrec | intro; apply refines_refl]).
Qed.

Lemma refines_getTypeBody
    (property : option Node.t) (namespaces : option NamespaceTable)
    (currentNamespace : option string) :
  refines (getTypeBody rec1 property namespaces currentNamespace)
    (getTypeBody rec2 property namespaces currentNamespace).
Proof.
  unfold getTypeBody. destruct property as [property|]; [|apply refines_refl].
  destruct (truthyOpt property.(Node.ref)); [apply refines_refl|].
  repeat (match goal with
          | |- refines (if ?b then _ else _) (if ?b then _ else _) =>
              destruct b; try apply refines_refl
          end).
  - destruct property.(Node.items) as [items|]; [|apply refines_refl].
    destruct (truthyOpt items.(Node.type)); [|apply refines_refl].
    apply refines_bind; [apply Hrec | intro; apply refines_refl].
  - destruct property.(Node.choices) as [choices|].
    + apply refines_bind; [|intro; apply refines_refl].
      apply refines_mapM. intro. apply Hrec.
    + repeat (match goal with
              | |- refines (if ?b then _ else _) (if ?b then _ else _) =>
                  destruct b; try apply refines_refl
              end).
      * apply refines_bind; [apply refines_createFunctionDefinition|].
        intro. apply refines_refl.
      * destruct property.(Node.properties); [|apply refines_refl].
        apply refines_bind; [|intro; apply refines_refl].
        apply refines_mapM. intro. apply refines_generatePropertyTypings.
Qed.

End FuelMonotone.

Lemma getType_fuel_succ (fuel : nat) :
  forall property namespaces currentNamespace,
    refines (getType fuel property namespaces currentNamespace)
      (getType (S fuel) property namespaces currentNamespace).
Proof.
  induction fuel as [|fuel IH]; intros property namespaces currentNamespace.
  - intros w H. now contradiction H.
  - change (refines
              (getTypeBody (getType fuel) property namespaces currentNamespace)
              (getTypeBody (getType (S fuel)) property namespaces currentNamespace)).
    apply refines_getTypeBody. exact IH.
Qed.

(** A compilation that ends with some fuel ends the same way with more. *)
Lemma getType_fuel_monotone (fuel fuel' : nat) :
  fuel <= fuel' ->
  forall property namespaces currentNamespace,
    refines (getType fuel property namespaces currentNamespace)
      (getType fuel' property namespaces currentNamespace).
Proof.
  induction 1 as [|fuel' Hle IH]; intros property namespaces currentNamespace.
  - apply refines_refl.
  - intros w H. rewrite <- (IH _ _ _ w H).
    apply getType_fuel_succ. now rewrite (IH _ _ _ w H).
Qed.

(** ** Termination

With fuel above the depth of the node, [getType] ends: it answers a type
expression or throws, and never stops for lack of fuel. *)

Lemma depth_eq (n : Node.t) : depth n = S (list_max (map depth (children n))).
Proof.
  destruct n as [o i nm d r t e items choices properties fs a parameters rt op u ip].
  unfold children. cbn [depth Node.items Node.choices Node.properties Node.parameters].
  rewrite !map_app.
  destruct items, choices, properties, parameters; cbn [map]; rewrite ?map_map;
    reflexivity.
Qed.

Lemma depth_child (n c : Node.t) : In c (children n) -> depth c < depth n.
Proof.
  intro H. rewrite (depth_eq n).
  assert (Hall : Forall (fun k => k <= list_max (map depth (children n)))
                   (map depth (children n)))
    by (now apply list_max_le).
  rewrite Forall_forall in Hall. specialize (Hall (depth c) (in_map depth _ _ H)).
  lia.
Qed.

Lemma depth_pos (n : Node.t) : 0 < depth n.
Proof. rewrite depth_eq. lia. Qed.

Lemma depth_bounded (n : Node.t) (d : nat) :
  0 < d -> (forall c, In c (children n) -> depth c < d) -> depth n <= d.
Proof.
  intros Hd H. rewrite depth_eq.
  destruct (children n) as [|c cs] eqn:E; [simpl; lia|].
  assert (Hlt : list_max (map depth (c :: cs)) < d).
  { apply list_max_lt; [discriminate|]. apply Forall_forall.
    intros k Hk. apply in_map_iff in Hk. destruct Hk as [x [<- Hx]]. now apply H. }
  lia.
Qed.

Lemma depth_same_children (n m : Node.t) : children n = children m -> depth n = depth m.
Proof. intro H. now rewrite (depth_eq n), (depth_eq m), H. Qed.

Lemma In_skipn (A : Type) (k : nat) (l : list A) (x : A) : In x (skipn k l) -> In x l.
Proof.
  revert l. induction k as [|k IH]; intros [|y l]; simpl; auto.
Qed.

Lemma readArray_elems (w : World) (a : ParamArray Node.t) (x : Node.t) :
  In x (readArray w a) -> In x a.(elems).
Proof.
  unfold readArray. destruct a.(addr); [apply In_skipn | auto].
Qed.

Lemma ensures_ret (A : Type) (Q : A -> Prop) (a : A) : Q a -> ensures Q (ret a).
Proof. now intros H w. Qed.

Lemma ensures_throw (A : Type) (Q : A -> Prop) (msg : string) : ensures Q (throw msg).
Proof. now intros w. Qed.

Lemma ensures_bind (A B : Type) (P : A -> Prop) (Q : B -> Prop)
    (m : M A) (k : A -> M B) :
  ensures P m -> (forall a, P a -> ensures Q (k a)) -> ensures Q (bind m k).
Proof.
  intros Hm Hk w. unfold bind. specialize (Hm w).
  destruct (m w) as [[a|msg|] w1]; simpl in *; [now apply Hk | exact I | exact Hm].
Qed.

Lemma ensures_weaken (A : Type) (P Q : A -> Prop) (m : M A) :
  ensures P m -> (forall a, P a -> Q a) -> ensures Q m.
Proof.
  intros Hm HPQ w. specialize (Hm w). destruct (fst (m w)); auto.
Qed.

Lemma ensures_logger (lvl : Level) (msg : string) :
  ensures (fun _ => True) (logger lvl msg).
Proof. now intros w. Qed.

Lemma ensures_getElems (a : ParamArray Node.t) :
  ensures (fun l => forall x, In x l -> In x a.(elems)) (getElems a).
Proof. intros w x. apply readArray_elems. Qed.

Lemma ensures_shift (a : ParamArray Node.t) :
  ensures (fun o => forall x, o = Some x -> In x a.(elems)) (shift a).
Proof.
  intros w. unfold shift. destruct (readArray w a) as [|y l] eqn:E; simpl.
  - discriminate.
  - intros x [= <-]. apply (readArray_elems w). rewrite E. now left.
Qed.

Lemma ensures_mapM (A B : Type) (f : A -> M B) (xs : list A) :
  (forall x, In x xs -> ensures (fun _ => True) (f x)) ->
  ensures (fun _ => True) (mapM f xs).
Proof.
  induction xs as [|x xs IH]; intro H; cbn [mapM].
  - now apply ensures_ret.
  - apply ensures_bind with (P := fun _ => True); [apply H; now left|].
    intros y _. apply ensures_bind with (P := fun _ => True).
    + apply IH. intros z Hz. apply H. now right.
    + intros ys _. now apply ensures_ret.
Qed.

(** The bound of the overload loop is never exhausted. *)
Lemma ensures_overloadLoop
    (P : Node.t -> Prop) (emit : list Node.t -> M string) (n : nat) :
  (forall ps, Forall P ps -> ensures (fun _ => True) (emit (requireAllParams ps))) ->
  forall params overrides,
    Forall P params ->
    List.length params <= n ->
    ensures (fun looped => Forall P (fst looped))
      (overloadLoop emit n params overrides).
Proof.
  intro Hemit. induction n as [|n IH]; intros params overrides HP Hlen;
    cbn [overloadLoop];
    destruct (0 <=? findIndex Node.optional params)%Z eqn:Hopt;
    try (now apply ensures_ret).
  - apply findIndex_found in Hopt. lia.
  - pose proof (removeFirstOptional_length params Hopt) as Hrem.
    apply ensures_bind with (P := fun _ => True); [now apply Hemit|].
    intros signature _. apply IH; [|lia].
    now apply Forall_filterIndexFrom.
Qed.

Section Terminates.

Variable rec : option Node.t -> option NamespaceTable -> option string -> M string.
Variable bound : nat.

Hypothesis Hrec :
  forall node namespaces currentNamespace,
    depth node < bound ->
    ensures (fun _ => True) (rec (Some node) namespaces currentNamespace).

Hypothesis HrecNone :
  forall namespaces currentNamespace,
    ensures (fun _ => True) (rec None namespaces currentNamespace).

Lemma depth_nestedParameter (item : Node.t) : depth (nestedParameter item) = 1.
Proof. reflexivity. Qed.

Lemma ends_generateFunctionParams (parameters : list Node.t) :
  Forall (fun q => depth q < bound) parameters ->
  ensures (fun _ => True) (generateFunctionParams rec parameters).
Proof.
  intro HP. unfold generateFunctionParams.
  apply ensures_bind with (P := fun _ => True); [|intros; now apply ensures_ret].
  apply ensures_mapM. intros param Hin.
  rewrite Forall_forall in HP. specialize (HP param Hin).
  apply ensures_bind
    with (P := fun mapped => depth (Node.withParameters mapped param) < bound).
  - destruct param.(Node.parameters) as [a|] eqn:Ea.
    + apply ensures_bind with (P := fun l => forall x, In x l -> In x a.(elems));
        [apply ensures_getElems|].
      intros items Hitems. apply ensures_ret.
      apply Nat.le_lt_trans with (depth param); [|exact HP].
      apply depth_bounded; [apply depth_pos|].
      intros c Hc. unfold children in Hc. cbn in Hc.
      rewrite !in_app_iff in Hc.
      destruct Hc as [Hc | [Hc | [Hc | Hc]]].
      * apply depth_child. unfold children. rewrite !in_app_iff. auto.
      * apply depth_child. unfold children. rewrite !in_app_iff. auto.
      * apply depth_child. unfold children. rewrite !in_app_iff. auto.
      * apply in_map_iff in Hc. destruct Hc as [x [<- Hx]].
        rewrite depth_nestedParameter.
        assert (Hlt : depth x < depth param).
        { apply depth_child. unfold children. rewrite Ea, !in_app_iff. auto. }
        pose proof (depth_pos x). lia.
    + apply ensures_ret.
      replace (depth (Node.withParameters None param)) with (depth param); [exact HP|].
      apply depth_same_children. unfold children. cbn. now rewrite Ea.
  - intros mapped Hmapped.
    apply ensures_bind with (P := fun _ => True); [now apply Hrec|].
    intros; now apply ensures_ret.
Qed.

Lemma ends_findReturnType
    (schemaPart func : Node.t) (namespaces : option NamespaceTable)
    (currentNamespace : string) :
  depth schemaPart <= bound ->
  depth func <= bound ->
  ensures (fun found => Forall (fun q => depth q < bound) (snd found))
    (findReturnType rec schemaPart namespaces currentNamespace func).
Proof.
  intros HS HF. unfold findReturnType.
  assert (Hkids : forall (n : Node.t) a,
             depth n <= bound -> n.(Node.parameters) = Some a ->
             forall l, (forall x, In x l -> In x a.(elems)) ->
                       Forall (fun q => depth q < bound) l).
  { intros n a Hn Ha l Hl. apply Forall_forall. intros x Hx.
    apply Nat.lt_le_trans with (depth n); [|exact Hn].
    apply depth_child. unfold children. rewrite Ha, !in_app_iff. auto. }
  apply ensures_bind with (P := Forall (fun q => depth q < bound)).
  - destruct schemaPart.(Node.parameters) as [a|] eqn:Ea.
    + apply ensures_weaken with (P := fun l => forall x, In x l -> In x a.(elems));
        [apply ensures_getElems|].
      intros l Hl. now apply (Hkids schemaPart a).
    + apply ensures_ret. constructor.
  - intros own Hown.
    assert (Hfiltered : forall p l, Forall (fun q => depth q < bound) l ->
                                    Forall (fun q => depth q < bound) (filter p l)).
    { intros p l Hl. rewrite Forall_forall in *. intros x Hx.
      apply filter_In in Hx. now apply Hl. }
    destruct func.(Node.async) as [|b|async];
      try (apply ensures_ret; cbn [snd]; now apply Hfiltered).
    destruct func.(Node.parameters) as [funcParameters|] eqn:Ef;
      [|apply ensures_throw].
    apply ensures_bind
      with (P := fun l => forall x, In x l -> In x funcParameters.(elems));
      [apply ensures_getElems|].
    intros candidates Hcand.
    apply ensures_bind
      with (P := fun first => forall x, first = Some x -> depth x < bound).
    + destruct (find _ candidates) as [callback|] eqn:Efind;
        [|apply ensures_ret; discriminate].
      apply find_some in Efind. destruct Efind as [Hin _].
      assert (Hcb : depth callback < bound).
      { pose proof (Hkids func funcParameters HF Ef candidates Hcand) as Hall.
        rewrite Forall_forall in Hall. now apply Hall. }
      destruct callback.(Node.parameters) as [nested|] eqn:En;
        [|apply ensures_ret; discriminate].
      intro w. pose proof (ensures_shift nested w) as Hshift.
      destruct (fst (shift nested w)) as [o| |]; auto.
      intros x Hx. specialize (Hshift x Hx).
      apply Nat.lt_trans with (depth callback); [|exact Hcb].
      apply depth_child. unfold children. rewrite En, !in_app_iff. auto.
    + intros first Hfirst.
      apply ensures_bind with (P := fun _ => True).
      * destruct first as [x|]; [apply Hrec; now apply Hfirst | apply HrecNone].
      * intros unwrapped _.
        apply ensures_bind
          with (P := fun l => forall x, In x l -> In x funcParameters.(elems));
          [apply ensures_getElems|].
        intros remaining Hrem. apply ensures_ret. cbn [snd].
        apply Hfiltered. now apply (Hkids func funcParameters).
Qed.

Lemma requireAllParams_depth (params : list Node.t) :
  Forall (fun q => depth q < bound) params ->
  Forall (fun q => depth q < bound) (requireAllParams params).
Proof.
  intro H. unfold requireAllParams. induction H as [|x l Hx Hl IH]; simpl;
    constructor; auto.
  now rewrite (depth_same_children (Node.withOptional _ x) x).
Qed.

Lemma ends_createFunctionDefinition
    (schemaPart : Node.t) (currentNamespace : string)
    (options : Options.t) (namespaces : option NamespaceTable) :
  depth schemaPart <= bound ->
  ensures (fun _ => True)
    (createFunctionDefinition rec schemaPart currentNamespace options namespaces).
Proof.
  intro HS. unfold createFunctionDefinition.
  assert (Hemit : forall returnType ps,
             Forall (fun q => depth q < bound) ps ->
             ensures (fun _ => True)
               (emitSignature rec options (funcName schemaPart) returnType ps)).
  { intros returnType ps Hps. unfold emitSignature.
    apply ensures_bind with (P := fun _ => True);
      [now apply ends_generateFunctionParams | intros; now apply ensures_ret]. }
  apply ensures_bind
    with (P := fun found => Forall (fun q => depth q < bound) (snd found));
    [now apply ends_findReturnType|].
  intros [returnType parameters] Hparams. cbn [snd] in Hparams.
  apply ensures_bind with (P := fun _ => True).
  { destruct (returnType =? "ERR"); [apply ensures_logger | now apply ensures_ret]. }
  intros _ _.
  apply ensures_bind with (P := fun _ => True); [|intros; now apply ensures_ret].
  destruct (negb _).
  - apply ensures_bind
      with (P := fun looped => Forall (fun q => depth q < bound) (fst looped)).
    + apply ensures_overloadLoop; [|exact Hparams|lia].
      intros ps Hps. apply Hemit. now apply requireAllParams_depth.
    + intros [params overrides] Hps. cbn [fst] in Hps.
      apply ensures_bind with (P := fun _ => True);
        [|intros; now apply ensures_ret].
      apply Hemit. now apply requireAllParams_depth.
  - apply ensures_bind with (P := fun _ => True);
      [now apply Hemit | intros; now apply ensures_ret].
Qed.

Lemma ends_generatePropertyTypings (property : Node.t) :
  depth property < bound ->
  ensures (fun _ => True) (generatePropertyTypings rec property).
Proof.
  intro H. unfold generatePropertyTypings.
  destruct property.(Node.unsupported); [now apply ensures_ret|].
  destruct property.(Node.choices), property.(Node.isInterfaceProperty) as [[|]|];
    (apply ensures_bind with (P := fun _ => True);
     [now apply Hrec | intros; now apply ensures_ret]).
Qed.

Lemma ensures_findNamespaceFortype (ref : string) (namespaces : option NamespaceTable) :
  ensures (fun _ => True) (findNamespaceFortype ref namespaces).
Proof. intro w. now rewrite findNamespaceFortype_spec. Qed.

Lemma ends_getTypeBody
    (property : Node.t) (namespaces : option NamespaceTable)
    (currentNamespace : option string) :
  depth property <= bound ->
  ensures (fun _ => True)
    (getTypeBody rec (Some property) namespaces currentNamespace).
Proof.
  intro H. unfold getTypeBody.
  assert (Hchild : forall c, In c (children property) -> depth c < bound).
  { intros c Hc. apply Nat.lt_le_trans with (depth property); [|exact H].
    now apply depth_child. }
  destruct (truthyOpt property.(Node.ref)).
  { destruct (includesDot _); [now apply ensures_ret|].
    apply ensures_bind with (P := fun _ => True);
      [apply ensures_findNamespaceFortype|].
    intros namespace _. destruct (pop namespace).
    - destruct (_ && _); now apply ensures_ret.
    - apply ensures_bind with (P := fun _ => True);
        [apply ensures_logger | intros; now apply ensures_ret]. }
  repeat (match goal with
          | |- ensures _ (if ?b then _ else _) =>
              destruct b; try (now apply ensures_ret)
          end).
  - destruct property.(Node.enum) as [[members|]|]; now apply ensures_ret.
  - destruct property.(Node.items) as [items|] eqn:Ei; [|apply ensures_throw].
    destruct (truthyOpt items.(Node.type)).
    + apply ensures_bind with (P := fun _ => True);
        [|intros; now apply ensures_ret].
      apply Hrec, Hchild. unfold children. rewrite Ei, !in_app_iff. left. now left.
    + destruct (includesDot _); now apply ensures_ret.
  - destruct property.(Node.choices) as [choices|] eqn:Ec.
    + apply ensures_bind with (P := fun _ => True);
        [|intros; now apply ensures_ret].
      apply ensures_mapM. intros choice Hin. apply Hrec, Hchild.
      unfold children. rewrite Ec, !in_app_iff. auto.
    + repeat (match goal with
              | |- ensures _ (if ?b then _ else _) =>
                  destruct b; try (now apply ensures_ret)
              end).
      * apply ensures_bind with (P := fun _ => True);
          [|intros; now apply ensures_ret].
        apply ends_createFunctionDefinition.
        apply depth_bounded; [pose proof (depth_pos property); lia|].
        intros c Hc. apply Hchild.
        unfold children in *. cbn in Hc. rewrite !in_app_iff in *.
        destruct Hc as [Hc | [Hc | [Hc | Hc]]]; auto.
        destruct property.(Node.parameters); [auto | destruct Hc].
      * destruct property.(Node.properties) as [entries|] eqn:Ep;
          [|now apply ensures_ret].
        apply ensures_bind with (P := fun _ => True).
        -- apply ensures_mapM. intros [key prop] Hin.
           apply ends_generatePropertyTypings. cbn [fst snd].
           rewrite (depth_same_children (interfaceProperty key prop) prop)
             by reflexivity.
           apply Hchild. unfold children. rewrite Ep, !in_app_iff.
           right. right. left. apply in_map_iff. now exists (key, prop).
        -- intros members _.
           apply ensures_bind with (P := fun _ => True);
             [|intros; now apply ensures_ret].
           apply ensures_mapM. intros f _. apply ensures_logger.
Qed.

End Terminates.

(** [getType] ends on every node whose depth does not exceed the fuel, and
    on [undefined]. *)
Theorem getType_terminates (fuel : nat) :
  forall (property : option Node.t) (namespaces : option NamespaceTable)
         (currentNamespace : option string),
    match property with Some node => depth node <= fuel | None => True end ->
    ensures (fun _ => True) (getType (S fuel) property namespaces currentNamespace).
Proof.
  induction fuel as [|fuel IH]; intros [node|] namespaces currentNamespace H;
    try (now apply ensures_ret).
  - pose proof (depth_pos node). lia.
  - change (ensures (fun _ => True)
              (getTypeBody (getType (S fuel)) (Some node) namespaces currentNamespace)).
    apply ends_getTypeBody with (bound := S fuel); [| |exact H].
    + intros node' ns cn Hlt. apply IH. simpl. lia.
    + intros ns cn. now apply IH.
Qed.

(** A function definition is synthesized, or an exception raised, whenever
    the fuel reaches the depth of the function's schema node. *)
Corollary createFunctionDefinition_terminates
    (fuel : nat) (schemaPart : Node.t) (currentNamespace : string)
    (options : Options.t) (namespaces : option NamespaceTable) :
  depth schemaPart <= S fuel ->
  ensures (fun _ => True)
    (createFunctionDefinition (getType (S fuel)) schemaPart currentNamespace
       options namespaces).
Proof.
  intro H. apply ends_createFunctionDefinition with (bound := S fuel); [| |exact H].
  - intros node ns cn Hlt. apply getType_terminates. simpl. lia.
  - intros ns cn. now apply getType_terminates.
Qed.

(** * Further properties *)

(** ** The namespace table *)

Lemma NsMap_get_set (k k' : string) (v : SchemaPart.t) (m : NamespaceTable) :
  NsMap.get k' (NsMap.set k v m) = if k =? k' then Some v else NsMap.get k' m.
Proof.
  induction m as [|[k0 v0] m IH]; simpl.
  - destruct (k =? k'); reflexivity.
  - destruct (String.eqb_spec k0 k) as [->|Hne]; simpl.
    + destruct (k =? k'); reflexivity.
    + rewrite IH. destruct (String.eqb_spec k0 k') as [->|Hne'].
      * destruct (String.eqb_spec k k'); [congruence | reflexivity].
      * reflexivity.
Qed.

Lemma NsMap_get_In (k : string) (m : NamespaceTable) :
  NsMap.get k m <> None <-> In k (map fst m).
Proof.
  induction m as [|[k0 v0] m IH]; simpl.
  - split; [congruence | intros []].
  - destruct (String.eqb_spec k0 k) as [->|Hne].
    + split; [now left | discriminate].
    + rewrite IH. split; [now right | intros [H|H]; [congruence | exact H]].
Qed.

Lemma NsMap_keys_set (k : string) (v : SchemaPart.t) (m : NamespaceTable) :
  map fst (NsMap.set k v m) =
  if NsMap.has k m then map fst m else (map fst m ++ [k])%list.
Proof.
  unfold NsMap.has. induction m as [|[k0 v0] m IH]; simpl.
  - reflexivity.
  - destruct (String.eqb_spec k0 k) as [->|Hne]; simpl.
    + reflexivity.
    + rewrite IH. now destruct (NsMap.get k m).
Qed.

Lemma NsMap_set_In (k : string) (v : SchemaPart.t) (m : NamespaceTable)
    (e : string * SchemaPart.t) :
  In e (NsMap.set k v m) -> e = (k, v) \/ In e m.
Proof.
  induction m as [|[k0 v0] m IH]; simpl.
  - intros [<-|[]]. now left.
  - destruct (String.eqb_spec k0 k) as [->|Hne]; simpl.
    + intros [<-|H]; auto.
    + intros [<-|H]; auto. destruct (IH H); auto.
Qed.

(** ** Namespace merge engine: the table *)

Lemma mergeSchemaStep_mergeInto (namespaces : NamespaceTable) (schemaPart : SchemaPart.t) :
  mergeSchemaStep namespaces schemaPart =
  NsMap.set schemaPart.(SchemaPart.namespace)
    (mergeInto (NsMap.get schemaPart.(SchemaPart.namespace) namespaces) schemaPart)
    namespaces.
Proof.
  unfold mergeSchemaStep, mergeInto.
  now destruct (NsMap.get schemaPart.(SchemaPart.namespace) namespaces).
Qed.

Lemma mergeInto_namespace (existing : option SchemaPart.t) (schemaPart : SchemaPart.t) :
  (mergeInto existing schemaPart).(SchemaPart.namespace)
  = schemaPart.(SchemaPart.namespace).
Proof. now destruct existing. Qed.

Lemma mergeSchema_fold_invariant (schemaParts : list SchemaPart.t) :
  forall namespaces : NamespaceTable,
    NoDup (map fst namespaces) ->
    Forall (fun e => (snd e).(SchemaPart.namespace) = fst e) namespaces ->
    let result := fold_left mergeSchemaStep schemaParts namespaces in
    NoDup (map fst result)
    /\ Forall (fun e => (snd e).(SchemaPart.namespace) = fst e) result
    /\ (forall ns,
          In ns (map fst result) <->
          In ns (map fst namespaces)
          \/ In ns (map SchemaPart.namespace schemaParts)).
Proof.
  induction schemaParts as [|p ps IH]; intros namespaces Hdup Hns; cbn [fold_left].
  - repeat split; auto. intros [H|[]]; exact H.
  - set (next := mergeSchemaStep namespaces p).
    assert (Hkeys : map fst next =
                    if NsMap.has p.(SchemaPart.namespace) namespaces
                    then map fst namespaces
                    else (map fst namespaces ++ [p.(SchemaPart.namespace)])%list).
    { unfold next. rewrite mergeSchemaStep_mergeInto. apply NsMap_keys_set. }
    assert (Hdup' : NoDup (map fst next)).
    { rewrite Hkeys. unfold NsMap.has.
      destruct (NsMap.get p.(SchemaPart.namespace) namespaces) eqn:E; [exact Hdup|].
      apply NoDup_rev in Hdup. rewrite <- (rev_involutive (_ ++ _)%list).
      apply NoDup_rev. rewrite rev_app_distr. simpl. constructor; [|exact Hdup].
      intro Hin. apply in_rev in Hin. apply NsMap_get_In in Hin. congruence. }
    assert (Hns' : Forall (fun e => (snd e).(SchemaPart.namespace) = fst e) next).
    { apply Forall_forall. intros e He. unfold next in He.
      rewrite mergeSchemaStep_mergeInto in He. apply NsMap_set_In in He.
      destruct He as [->|He].
      - apply mergeInto_namespace.
      - rewrite Forall_forall in Hns. now apply Hns. }
    destruct (IH next Hdup' Hns') as [H1 [H2 H3]].
    repeat split; auto.
    + intro H. apply H3 in H. rewrite Hkeys in H. unfold NsMap.has in H.
      destruct H as [H|H]; [|right; now right].
      destruct (NsMap.get _ namespaces); [now left|].
      apply in_app_or in H. destruct H as [H|[<-|[]]]; [now left | right; now left].
    + intro H. apply H3. rewrite Hkeys. unfold NsMap.has.
      destruct H as [H|[<-|H]].
      * left. destruct (NsMap.get _ namespaces); [exact H|].
        apply in_or_app. now left.
      * left. destruct (NsMap.get _ namespaces) eqn:E.
        -- apply NsMap_get_In. congruence.
        -- apply in_or_app. right. now left.
      * now right.
Qed.

(** X1: the merged table has one record per namespace name: its keys are
    pairwise distinct, they are exactly the namespace names of the parts
    read, and every record carries the name it is stored under. *)
Theorem mergeSchema_one_record_per_namespace (schemaParts : list SchemaPart.t) :
  NoDup (map fst (mergeSchema schemaParts))
  /\ Forall (fun e => (snd e).(SchemaPart.namespace) = fst e) (mergeSchema schemaParts)
  /\ (forall ns,
        In ns (map fst (mergeSchema schemaParts)) <->
        In ns (map SchemaPart.namespace schemaParts)).
Proof.
  destruct (mergeSchema_fold_invariant schemaParts (namespaces := []))
    as [H1 [H2 H3]]; [constructor | constructor |].
  repeat split; auto.
  - intro H. apply H3 in H. destruct H as [[]|H]. exact H.
  - intro H. apply H3. now right.
Qed.

(** What the table holds for [ns] after a run of merges only depends on
    what it held for [ns] before and on the parts of that namespace. *)
Lemma mergeSchema_get_fold (ns : string) (schemaParts : list SchemaPart.t) :
  forall namespaces : NamespaceTable,
    NsMap.get ns (fold_left mergeSchemaStep schemaParts namespaces) =
    fold_left
      (fun existing schemaPart =>
         if schemaPart.(SchemaPart.namespace) =? ns
         then Some (mergeInto existing schemaPart) else existing)
      schemaParts (NsMap.get ns namespaces).
Proof.
  induction schemaParts as [|p ps IH]; intro namespaces; cbn [fold_left].
  - reflexivity.
  - rewrite IH, mergeSchemaStep_mergeInto, NsMap_get_set.
    destruct (String.eqb_spec p.(SchemaPart.namespace) ns) as [->|Hne]; reflexivity.
Qed.

Lemma fold_partsOf (ns : string) (schemaParts : list SchemaPart.t) :
  forall existing : option SchemaPart.t,
    fold_left
      (fun existing schemaPart =>
         if schemaPart.(SchemaPart.namespace) =? ns
         then Some (mergeInto existing schemaPart) else existing)
      schemaParts existing
    = fold_left (fun existing schemaPart => Some (mergeInto existing schemaPart))
        (partsOf ns schemaParts) existing.
Proof.
  induction schemaParts as [|p ps IH]; intro existing; cbn [fold_left partsOf filter].
  - reflexivity.
  - fold (partsOf ns ps). destruct (p.(SchemaPart.namespace) =? ns); cbn [fold_left];
      apply IH.
Qed.

(** X2: namespaces are merged independently of each other: the record of a
    namespace is the one obtained by merging the parts of that namespace
    alone, whatever other parts are read before, between or after them. *)
Theorem mergeSchema_namespaces_independent
    (ns : string) (schemaParts : list SchemaPart.t) :
  NsMap.get ns (mergeSchema schemaParts)
  = NsMap.get ns (mergeSchema (partsOf ns schemaParts)).
Proof.
  assert (Hidem : partsOf ns (partsOf ns schemaParts) = partsOf ns schemaParts).
  { unfold partsOf. induction schemaParts as [|p ps IH]; simpl; [reflexivity|].
    destruct (p.(SchemaPart.namespace) =? ns) eqn:E; simpl; [|exact IH].
    now rewrite E, IH. }
  unfold mergeSchema. rewrite !mergeSchema_get_fold, !fold_partsOf.
  now rewrite Hidem.
Qed.

(** X3: a namespace described by exactly one part is stored as that part,
    unchanged: its description, its types without [id] and its types of equal
    [id] are all kept. *)
Theorem mergeSchema_single_part_verbatim
    (ns : string) (schemaParts : list SchemaPart.t) (schemaPart : SchemaPart.t) :
  partsOf ns schemaParts = [schemaPart] ->
  NsMap.get ns (mergeSchema schemaParts) = Some schemaPart.
Proof.
  intro H. unfold mergeSchema. rewrite mergeSchema_get_fold, fold_partsOf, H.
  simpl. now destruct schemaPart.
Qed.

Lemma mergeSchema_single_part_verbatim_witness :
  partsOf "mail" [Sample.anonFile1; SchemaPart.mk "compose" None [] [] [] None]
  = [Sample.anonFile1]
  /\ NsMap.get "mail"
       (mergeSchema [Sample.anonFile1; SchemaPart.mk "compose" None [] [] [] None])
     = Some Sample.anonFile1.
Proof.
  split; [reflexivity|].
  apply (@mergeSchema_single_part_verbatim "mail"
           [Sample.anonFile1; SchemaPart.mk "compose" None [] [] [] None]
           Sample.anonFile1 eq_refl).
Defined.

Lemma find_filter (A : Type) (p : A -> bool) (l : list A) :
  find p (filter p l) = find p l.
Proof.
  induction l as [|x l IH]; simpl; [reflexivity|].
  destruct (p x) eqn:E; simpl; [now rewrite E | exact IH].
Qed.

Lemma find_app (A : Type) (p : A -> bool) (l1 l2 : list A) :
  find p (l1 ++ l2)%list =
  match find p l1 with Some x => Some x | None => find p l2 end.
Proof.
  induction l1 as [|x l1 IH]; simpl; [reflexivity|]. now destruct (p x).
Qed.

Lemma find_mergeNamespaceTypes
    (i : string) (types : list Node.t) (existing : SchemaPart.t) :
  truthy i = true ->
  find (fun t => eqOpt t.(Node.id) (Some i)) (mergeNamespaceTypes types existing)
  = find (fun t => eqOpt t.(Node.id) (Some i))
      (types ++ existing.(SchemaPart.types))%list.
Proof.
  intro Hi. rewrite <- find_filter, mergeNamespaceTypes_by_id by exact Hi.
  destruct (find _ (types ++ _)%list) as [t|] eqn:E; [|reflexivity].
  apply find_some in E. simpl. now rewrite (proj2 E).
Qed.

Lemma mergeSchema_types_fold (ns i : string) (schemaParts : list SchemaPart.t) :
  truthy i = true ->
  forall (existing : option SchemaPart.t) (seen : list SchemaPart.t),
    match existing with
    | None => seen = []
    | Some merged =>
        find (fun t => eqOpt t.(Node.id) (Some i)) merged.(SchemaPart.types)
        = find (fun t => eqOpt t.(Node.id) (Some i)) (flat_map SchemaPart.types seen)
    end ->
    match
      fold_left (fun existing schemaPart => Some (mergeInto existing schemaPart))
        schemaParts existing
    with
    | None => (rev schemaParts ++ seen)%list = []
    | Some merged =>
        find (fun t => eqOpt t.(Node.id) (Some i)) merged.(SchemaPart.types)
        = find (fun t => eqOpt t.(Node.id) (Some i))
            (flat_map SchemaPart.types (rev schemaParts ++ seen)%list)
    end.
Proof.
  intro Hi. induction schemaParts as [|p ps IH]; intros existing seen H;
    cbn [fold_left rev].
  - exact H.
  - rewrite <- app_assoc. cbn [app]. apply IH.
    destruct existing as [merged|]; cbn [mergeInto SchemaPart.types flat_map].
    + rewrite find_mergeNamespaceTypes by exact Hi. rewrite !find_app, H.
      reflexivity.
    + subst seen. simpl. now rewrite app_nil_r.
Qed.

(** X4: with any number of files, the type a merged namespace holds under an
    [id] is the one of the last file that declares that [id] (the first
    record with the [id] in that file). *)
Theorem mergeSchema_type_of_last_file
    (ns i : string) (schemaParts : list SchemaPart.t)
    (first : SchemaPart.t) (others : list SchemaPart.t) :
  partsOf ns schemaParts = first :: others ->
  truthy i = true ->
  exists merged,
    NsMap.get ns (mergeSchema schemaParts) = Some merged
    /\ find (fun t => eqOpt t.(Node.id) (Some i)) merged.(SchemaPart.types)
       = find (fun t => eqOpt t.(Node.id) (Some i))
           (flat_map SchemaPart.types (rev (first :: others))).
Proof.
  intros Hparts Hi. unfold mergeSchema.
  rewrite mergeSchema_get_fold, fold_partsOf, Hparts.
  pose proof (@mergeSchema_types_fold ns i (first :: others) Hi None [] eq_refl) as H.
  cbn [NsMap.get] in *.
  destruct (fold_left _ (first :: others) None) as [merged|].
  - exists merged. split; [reflexivity|]. now rewrite app_nil_r in H.
  - apply app_eq_nil in H. destruct H as [H _]. simpl in H.
    now apply app_eq_nil in H.
Qed.

Lemma mergeSchema_type_of_last_file_witness :
  (partsOf "mail" [Sample.file1; Sample.file2; Sample.anonFile1]
   = [Sample.file1; Sample.file2; Sample.anonFile1]
   /\ truthy "Foo" = true)
  /\ exists merged,
       NsMap.get "mail" (mergeSchema [Sample.file1; Sample.file2; Sample.anonFile1])
       = Some merged
       /\ find (fun t => eqOpt t.(Node.id) (Some "Foo")) merged.(SchemaPart.types)
          = Some Sample.foo2.
Proof.
  split; [split; reflexivity|].
  apply (@mergeSchema_type_of_last_file "mail" "Foo"
           [Sample.file1; Sample.file2; Sample.anonFile1]
           Sample.file1 [Sample.file2; Sample.anonFile1] eq_refl eq_refl).
Defined.

(** ** Namespace merge engine: first occurrences

The functions and the types are both merged by a filter that keeps an
element when it is the first of the concatenation with its key. *)

Lemma filterIndexFrom_ext (A : Type) (p q : A -> Z -> bool) (xs : list A) (i : Z) :
  (forall x k, p x k = q x k) -> filterIndexFrom p i xs = filterIndexFrom q i xs.
Proof.
  intro H. revert i. induction xs as [|x xs IH]; intro i; simpl; [reflexivity|].
  now rewrite H, IH.
Qed.

Section FirstOccurrence.

Variable K : Type.
Variable key : Node.t -> K.
Variable same : Node.t -> Node.t -> bool.
Variable ok : Node.t -> bool.
Variable result : list Node.t.

Hypothesis same_key : forall x item, same x item = true <-> key item = key x.

Let keepFirst (x : Node.t) (index : Z) : bool :=
  ok x && Z.eqb (findIndex (same x) result) index.

Lemma keepFirst_at (pre suf : list Node.t) (x : Node.t) :
  result = (pre ++ x :: suf)%list ->
  keepFirst x (Z.of_nat (List.length pre)) = ok x && negb (existsb (same x) pre).
Proof.
  intro E. unfold keepFirst. f_equal. rewrite E, findIndex_app.
  destruct (existsb (same x) pre) eqn:Hpre; simpl.
  - apply Z.eqb_neq. pose proof (findIndexFrom_bounds _ _ Hpre) as B.
    unfold findIndex. lia.
  - assert (Hx : same x x = true) by (now apply same_key).
    rewrite Hx. simpl. unfold findIndex. simpl. rewrite Hx. apply Z.eqb_eq. lia.
Qed.

Lemma existsb_same_In (x : Node.t) (l : list Node.t) :
  existsb (same x) l = false -> ~ In (key x) (map key l).
Proof.
  intros H Hin. apply in_map_iff in Hin. destruct Hin as [y [Hy Hin]].
  assert (Ht : existsb (same x) l = true).
  { apply existsb_exists. exists y. split; [exact Hin | now apply same_key]. }
  congruence.
Qed.

(** The elements kept have pairwise distinct keys, none of which is the key
    of an element before them. *)
Lemma keepFirst_NoDup (suf pre : list Node.t) :
  result = (pre ++ suf)%list ->
  NoDup (map key (filterIndexFrom keepFirst (Z.of_nat (List.length pre)) suf))
  /\ forall k,
       In k (map key (filterIndexFrom keepFirst (Z.of_nat (List.length pre)) suf)) ->
       ~ In k (map key pre).
Proof.
  revert pre. induction suf as [|x suf IH]; intros pre E.
  - simpl. split; [constructor | intros k []].
  - assert (E' : result = ((pre ++ [x]) ++ suf)%list) by (now rewrite <- app_assoc).
    destruct (IH (pre ++ [x])%list E') as [Hnd Hfresh].
    rewrite length_app, Nat2Z.inj_add in Hnd, Hfresh.
    change (Z.of_nat (List.length [x])) with 1%Z in Hnd, Hfresh.
    cbn [filterIndexFrom]. rewrite (keepFirst_at pre suf x E).
    destruct (ok x && negb (existsb (same x) pre)) eqn:Hkeep.
    + apply andb_true_iff in Hkeep. destruct Hkeep as [_ Hpre].
      apply negb_true_iff in Hpre. cbn [map]. split.
      * constructor; [|exact Hnd]. intro Hin. apply (Hfresh _ Hin).
        rewrite map_app. apply in_or_app. right. now left.
      * intros k [<-|Hin]; [now apply existsb_same_In|].
        intro Hk. apply (Hfresh _ Hin). rewrite map_app. apply in_or_app. now left.
    + split; [exact Hnd|]. intros k Hin Hk. apply (Hfresh _ Hin).
      rewrite map_app. apply in_or_app. now left.
Qed.

(** When all keys are distinct, the filter only applies [ok]. *)
Lemma keepFirst_distinct (suf pre : list Node.t) :
  result = (pre ++ suf)%list ->
  NoDup (map key result) ->
  filterIndexFrom keepFirst (Z.of_nat (List.length pre)) suf = filter ok suf.
Proof.
  revert pre. induction suf as [|x suf IH]; intros pre E Hnd; [reflexivity|].
  assert (E' : result = ((pre ++ [x]) ++ suf)%list) by (now rewrite <- app_assoc).
  specialize (IH (pre ++ [x])%list E' Hnd).
  rewrite length_app, Nat2Z.inj_add in IH.
  change (Z.of_nat (List.length [x])) with 1%Z in IH.
  cbn [filterIndexFrom filter]. rewrite (keepFirst_at pre suf x E), IH.
  assert (Hpre : existsb (same x) pre = false).
  { destruct (existsb (same x) pre) eqn:Hex; [|reflexivity].
    apply existsb_exists in Hex. destruct Hex as [y [Hin Hy]].
    apply same_key in Hy. rewrite E, map_app in Hnd. cbn [map] in Hnd.
    apply NoDup_remove_2 in Hnd. exfalso. apply Hnd. apply in_or_app. left.
    rewrite <- Hy. now apply in_map. }
  rewrite Hpre. simpl. now rewrite andb_true_r.
Qed.

End FirstOccurrence.

(** X5: the types of a merged record have pairwise distinct ids, and none
    of them is without an id. *)
Theorem mergeNamespaceTypes_distinct_ids
    (types : list Node.t) (existing : SchemaPart.t) :
  NoDup (map Node.id (mergeNamespaceTypes types existing))
  /\ Forall (fun t => truthyOpt t.(Node.id) = true)
       (mergeNamespaceTypes types existing).
Proof.
  split; [|apply mergeNamespaceTypes_identified].
  unfold mergeNamespaceTypes, filterIndex.
  set (result := (types ++ existing.(SchemaPart.types))%list).
  rewrite filterIndexFrom_ext
    with (q := fun x index =>
                 truthyOpt x.(Node.id)
                 && Z.eqb (findIndex (fun item => eqOpt item.(Node.id) x.(Node.id))
                             result) index)
    by (intros x k; now destruct (truthyOpt x.(Node.id))).
  apply (@keepFirst_NoDup _ Node.id
           (fun x item => eqOpt item.(Node.id) x.(Node.id))
           (fun x => truthyOpt x.(Node.id)) result
           (fun x item => eqOpt_true item.(Node.id) x.(Node.id))
           result [] eq_refl).
Qed.

Lemma mergeNamespaceFunctions_keepFirst
    (functions : list Node.t) (existing : SchemaPart.t) :
  mergeNamespaceFunctions functions existing =
  filterIndexFrom
    (fun x index =>
       true
       && Z.eqb
            (findIndex (fun item => Nat.eqb item.(Node.oid) x.(Node.oid))
               (functions ++ existing.(SchemaPart.functions))%list)
            index)
    0 (functions ++ existing.(SchemaPart.functions))%list.
Proof. reflexivity. Qed.

Lemma oid_same_key (x item : Node.t) :
  Nat.eqb item.(Node.oid) x.(Node.oid) = true <-> item.(Node.oid) = x.(Node.oid).
Proof. apply Nat.eqb_eq. Qed.

(** X6: no object occurs twice among the merged functions; and when the
    functions of the two parts are all distinct objects, as they are when the
    parts come from different files, every one of them is kept, equal names
    included: the new part's functions first, then the existing ones. *)
Theorem mergeNamespaceFunctions_by_identity
    (functions : list Node.t) (existing : SchemaPart.t) :
  NoDup (map Node.oid (mergeNamespaceFunctions functions existing))
  /\ (NoDup (map Node.oid (functions ++ existing.(SchemaPart.functions))%list) ->
      mergeNamespaceFunctions functions existing
      = (functions ++ existing.(SchemaPart.functions))%list).
Proof.
  rewrite mergeNamespaceFunctions_keepFirst.
  set (result := (functions ++ existing.(SchemaPart.functions))%list).
  split.
  - apply (@keepFirst_NoDup _ Node.oid
             (fun x item => Nat.eqb item.(Node.oid) x.(Node.oid))
             (fun _ => true) result oid_same_key result [] eq_refl).
  - intro Hnd.
    pose proof (@keepFirst_distinct _ Node.oid
                  (fun x item => Nat.eqb item.(Node.oid) x.(Node.oid))
                  (fun _ => true) result oid_same_key result [] eq_refl Hnd) as H.
    change (Z.of_nat (List.length (@nil Node.t))) with 0%Z in H. rewrite H.
    clear. induction result as [|x l IH]; simpl; [reflexivity | now rewrite IH].
Qed.

Lemma mergeNamespaceFunctions_by_identity_witness :
  NoDup (map Node.oid ([Sample.sendAgain] ++ Sample.file2.(SchemaPart.functions))%list)
  /\ mergeNamespaceFunctions [Sample.sendAgain] Sample.file2
     = [Sample.sendAgain; Sample.send].
Proof.
  assert (Hnd : NoDup (map Node.oid
                         ([Sample.sendAgain] ++ Sample.file2.(SchemaPart.functions))%list)).
  { simpl. constructor; [intros [H|[]]; discriminate|].
    constructor; [intros []|constructor]. }
  split; [exact Hnd|].
  apply (proj2 (@mergeNamespaceFunctions_by_identity [Sample.sendAgain] Sample.file2)
           Hnd).
Defined.

(** ** Namespace merge engine: events *)

Lemma asyncEq_true (a b : Async) : asyncEq a b = true <-> a = b.
Proof.
  destruct a as [|x|x], b as [|y|y]; simpl; split; intro H;
    try discriminate; try reflexivity.
  - apply Bool.eqb_prop in H. now subst.
  - injection H as ->. apply Bool.eqb_reflx.
  - apply String.eqb_eq in H. now subst.
  - injection H as ->. apply String.eqb_refl.
Qed.

Lemma sameEvent_key (event item : Node.t) :
  sameEvent event item = true <-> eventKey item = eventKey event.
Proof.
  unfold sameEvent, eventKey. rewrite andb_true_iff, asyncEq_true, eqOpt_true.
  split; [intros [-> ->]; reflexivity | intros [= -> ->]; now split].
Qed.

Lemma find_filter_implied (A : Type) (p q : A -> bool) (l : list A) :
  (forall x, In x l -> p x = true -> q x = true) ->
  find p (filter q l) = find p l.
Proof.
  induction l as [|x l IH]; intro H; simpl; [reflexivity|].
  destruct (p x) eqn:Hp.
  - rewrite (H x (or_introl eq_refl) Hp). simpl. now rewrite Hp.
  - destruct (q x); simpl; rewrite ?Hp; apply IH; intros y Hy; apply H; now right.
Qed.

Lemma NoDup_map_filter (A B : Type) (f : A -> B) (q : A -> bool) (l : list A) :
  NoDup (map f l) -> NoDup (map f (filter q l)).
Proof.
  induction l as [|x l IH]; simpl; intro H; [constructor|].
  inversion H as [|y l' Hnin Hnd]; subst.
  destruct (q x); simpl; [constructor|]; auto.
  intro Hin. apply Hnin. apply in_map_iff in Hin. destruct Hin as [y [Hy Hin]].
  apply filter_In in Hin. rewrite <- Hy. apply in_map. tauto.
Qed.

(** X7: in a merge of events the new part wins: looking an event up by its
    [(async, name)] pair gives the new part's event when it has one and the
    existing one otherwise; and if neither part had two events with the same
    pair, the merged events have none either. *)
Theorem mergeNamespaceEvents_new_events_win
    (events : list Node.t) (existing : SchemaPart.t) :
  (forall event,
      find (sameEvent event) (mergeNamespaceEvents events existing)
      = match find (sameEvent event) events with
        | Some found => Some found
        | None => find (sameEvent event) existing.(SchemaPart.events)
        end)
  /\ (NoDup (map eventKey events) ->
      NoDup (map eventKey existing.(SchemaPart.events)) ->
      NoDup (map eventKey (mergeNamespaceEvents events existing))).
Proof.
  unfold mergeNamespaceEvents. split.
  - intro event. rewrite find_app.
    destruct (find (sameEvent event) events) as [found|] eqn:E; [reflexivity|].
    apply find_filter_implied. intros x _ Hx.
    apply negb_true_iff. destruct (existsb _ events) eqn:Hex; [|reflexivity].
    apply existsb_exists in Hex. destruct Hex as [item [Hin Hitem]].
    fold (sameEvent x item) in Hitem.
    apply sameEvent_key in Hitem, Hx.
    assert (Hsame : sameEvent event item = true)
      by (apply sameEvent_key; congruence).
    pose proof (find_none _ _ E item Hin). congruence.
  - intros Hnew Hold. rewrite map_app. apply NoDup_app.
    + exact Hnew.
    + now apply NoDup_map_filter.
    + intros k Hk Hk'. apply in_map_iff in Hk, Hk'.
      destruct Hk as [item [Hitem Hin]], Hk' as [x [Hx Hin']].
      apply filter_In in Hin'. destruct Hin' as [_ Hq].
      apply negb_true_iff in Hq.
      assert (Ht : existsb
                     (fun item0 =>
                        asyncEq item0.(Node.async) x.(Node.async)
                        && eqOpt item0.(Node.name) x.(Node.name)) events = true).
      { apply existsb_exists. exists item. split; [exact Hin|].
        fold (sameEvent x item). apply sameEvent_key. congruence. }
      congruence.
Qed.

(** ** Namespace merge engine: post-processing *)

Lemma NsMap_set_fresh (k : string) (v : SchemaPart.t) (m : NamespaceTable) :
  ~ In k (map fst m) -> NsMap.set k v m = (m ++ [(k, v)])%list.
Proof.
  induction m as [|[k0 v0] m IH]; simpl; intro H; [reflexivity|].
  destruct (String.eqb_spec k0 k) as [->|Hne]; [exfalso; apply H; now left|].
  rewrite IH; [reflexivity | intro Hin; apply H; now right].
Qed.

Lemma postProcessNamespaces_fold (namespaces : NamespaceTable) :
  forall result : NamespaceTable,
    NoDup (map fst result ++ map fst namespaces)%list ->
    fold_left
      (fun result entry =>
         let '(namespace, namespaceSchema) := entry in
         NsMap.set namespace
           (SchemaPart.mk
              namespaceSchema.(SchemaPart.namespace)
              namespaceSchema.(SchemaPart.description)
              (postProcessSchemaFunctions namespaceSchema.(SchemaPart.functions))
              namespaceSchema.(SchemaPart.events)
              namespaceSchema.(SchemaPart.types)
              namespaceSchema.(SchemaPart.properties))
           result)
      namespaces result
    = (result ++ map (fun e => (fst e, withoutDelete (snd e))) namespaces)%list.
Proof.
  induction namespaces as [|[k v] t IH]; intros result Hnd; cbn [fold_left map].
  - now rewrite app_nil_r.
  - cbn [map fst] in Hnd. rewrite NsMap_set_fresh.
    + rewrite IH.
      * rewrite <- app_assoc. reflexivity.
      * rewrite map_app. cbn [map fst]. rewrite <- app_assoc. exact Hnd.
    + apply NoDup_remove_2 in Hnd. intro Hin. apply Hnd. apply in_or_app. now left.
Qed.

(** X8: post-processing the merged table keeps every namespace in its place
    with its description, events, types and properties, and removes from its
    functions exactly those named [delete]; no function named [delete] is
    left in any namespace. *)
Theorem postProcessNamespaces_of_merged (schemaParts : list SchemaPart.t) :
  postProcessNamespaces (mergeSchema schemaParts)
  = map (fun e => (fst e, withoutDelete (snd e))) (mergeSchema schemaParts)
  /\ Forall
       (fun e =>
          Forall (fun f => f.(Node.name) <> Some "delete")
            (snd e).(SchemaPart.functions))
       (postProcessNamespaces (mergeSchema schemaParts)).
Proof.
  assert (H : postProcessNamespaces (mergeSchema schemaParts)
              = map (fun e => (fst e, withoutDelete (snd e))) (mergeSchema schemaParts)).
  { unfold postProcessNamespaces. rewrite postProcessNamespaces_fold; [reflexivity|].
    apply (mergeSchema_fold_invariant schemaParts (namespaces := []));
      constructor. }
  split; [exact H|]. rewrite H. apply Forall_forall. intros e He.
  apply in_map_iff in He. destruct He as [[k v] [<- _]]. cbn [snd withoutDelete].
  cbn [SchemaPart.functions]. apply Forall_forall. intros f Hf.
  unfold postProcessSchemaFunctions in Hf. apply filter_In in Hf.
  destruct Hf as [_ Hf]. intro Hname. rewrite Hname in Hf. discriminate.
Qed.

(** ** Function signature synthesizer: the shape of the overload set *)

Lemma findIndexFrom_ge (A : Type) (p : A -> bool) (xs : list A) (i : Z) :
  findIndexFrom p i xs = (-1)%Z \/ (i <= findIndexFrom p i xs)%Z.
Proof.
  revert i. induction xs as [|x xs IH]; intro i; simpl; [now left|].
  destruct (p x); [right; lia|]. destruct (IH (i + 1)%Z); [now left | right; lia].
Qed.

(** The step of the overload loop removes the first optional parameter. *)
Lemma filterIndex_removeFirst (A : Type) (p : A -> bool) (xs : list A) :
  filterIndex (fun _ index => negb (Z.eqb index (findIndex p xs))) xs
  = removeFirst p xs.
Proof.
  unfold filterIndex, findIndex.
  assert (H : forall i, (0 <= i)%Z ->
              filterIndexFrom
                (fun _ index => negb (Z.eqb index (findIndexFrom p i xs))) i xs
              = removeFirst p xs).
  { induction xs as [|x xs IH]; intros i Hi; [reflexivity|].
    cbn [findIndexFrom removeFirst]. destruct (p x); cbn [filterIndexFrom].
    - rewrite Z.eqb_refl. simpl. apply removeAt_before. lia.
    - destruct (Z.eqb_spec i (findIndexFrom p (i + 1) xs)) as [E|_]; simpl.
      + destruct (findIndexFrom_ge p xs (i + 1)); lia.
      + f_equal. apply IH. lia. }
  apply H. lia.
Qed.

Lemma removeFirst_counts (A : Type) (p : A -> bool) (xs : list A) :
  existsb p xs = true ->
  List.length (filter p xs) = S (List.length (filter p (removeFirst p xs)))
  /\ filter (fun x => negb (p x)) (removeFirst p xs) = filter (fun x => negb (p x)) xs.
Proof.
  induction xs as [|x xs IH]; simpl; [discriminate|].
  destruct (p x) eqn:E; simpl.
  - intros _. split; reflexivity.
  - intro H. rewrite E. simpl. destruct (IH H) as [H1 H2]. split; [exact H1|].
    now rewrite H2.
Qed.

Lemma findIndex_negative (A : Type) (p : A -> bool) (xs : list A) :
  (0 <=? findIndex p xs)%Z = false -> existsb p xs = false.
Proof.
  intro H. apply Z.leb_gt in H. destruct (existsb p xs) eqn:E; [|reflexivity].
  pose proof (findIndexFrom_bounds _ _ E). unfold findIndex in H. lia.
Qed.

Lemma filter_none (A : Type) (p : A -> bool) (xs : list A) :
  existsb p xs = false ->
  filter p xs = [] /\ filter (fun x => negb (p x)) xs = xs.
Proof.
  induction xs as [|x xs IH]; simpl; [now split|].
  destruct (p x); simpl; [discriminate|]. intro H. destruct (IH H) as [H1 H2].
  split; [exact H1 | now rewrite H2].
Qed.

Lemma cascade_shape (n : nat) :
  forall params : list Node.t,
    List.length params <= n ->
    List.length (cascade n params) = S (List.length (filter Node.optional params))
    /\ hd [] (cascade n params) = requireAllParams params
    /\ last (cascade n params) []
       = requireAllParams (filter (fun q => negb q.(Node.optional)) params).
Proof.
  induction n as [|n IH]; intros params Hlen; cbn [cascade];
    destruct (0 <=? findIndex Node.optional params)%Z eqn:Hopt.
  - apply findIndex_found in Hopt. lia.
  - apply findIndex_negative in Hopt. destruct (filter_none _ _ Hopt) as [-> ->].
    now repeat split.
  - pose proof (removeFirstOptional_length params Hopt) as Hrem.
    rewrite filterIndex_removeFirst in *.
    assert (Hex : existsb Node.optional params = true).
    { destruct (existsb Node.optional params) eqn:E; [reflexivity|].
      apply findIndex_none in E. rewrite E in Hopt. discriminate. }
    destruct (removeFirst_counts _ _ Hex) as [Hcount Hreq].
    destruct (IH (removeFirst Node.optional params)) as [H1 [H2 H3]]; [lia|].
    cbn [List.length hd]. rewrite H1, Hcount. repeat split.
    rewrite <- Hreq, <- H3.
    destruct (cascade n (removeFirst Node.optional params)) eqn:E;
      [simpl in H1; discriminate | reflexivity].
  - apply findIndex_negative in Hopt. destruct (filter_none _ _ Hopt) as [-> ->].
    now repeat split.
Qed.

(** X9: when an optional parameter comes before a required one, the
    overloads are one more than the optional visible parameters: the first
    covers all the visible parameters, each following one has lost the first
    optional parameter of the one before, and the last covers exactly the
    required parameters. *)
Theorem overloads_one_per_optional_parameter
    (getTypeRec : option Node.t -> option NamespaceTable -> option string -> M string)
    (schemaPart : Node.t) (currentNamespace : string) (options : Options.t)
    (namespaces : option NamespaceTable) (returnType : string)
    (parameters : list Node.t) (w w' : World) :
  findReturnType getTypeRec schemaPart namespaces currentNamespace schemaPart w
  = (Ret (returnType, parameters), w') ->
  forallb Node.optional (slice (findIndex Node.optional parameters) parameters)
  = false ->
  createFunctionDefinition getTypeRec schemaPart currentNamespace options namespaces w
  = ((if returnType =? "ERR" then
        logger Error (unknownAsyncType currentNamespace schemaPart)
      else ret tt) ;;;
     signatures <-
       mapM (emitSignature getTypeRec options (funcName schemaPart) returnType)
         (overloads parameters) ;;
     ret (renderDefinition options schemaPart signatures)) w'
  /\ List.length (overloads parameters)
     = S (List.length (filter Node.optional parameters))
  /\ hd [] (overloads parameters) = requireAllParams parameters
  /\ last (overloads parameters) []
     = requireAllParams (filter (fun q => negb q.(Node.optional)) parameters)
  /\ (forall k,
        S k < List.length (overloads parameters) ->
        nth (S k) (overloads parameters) []
        = requireAllParams
            (removeFirst Node.optional
               (Nat.iter k (removeFirst Node.optional) parameters))).
Proof.
  intros Hfound Hshape. split.
  { rewrite createFunctionDefinition_overloads. unfold bind at 1.
    rewrite Hfound. reflexivity. }
  unfold overloads. rewrite Hshape.
  destruct (cascade_shape (n := List.length parameters) parameters (le_n _))
    as [H1 [H2 H3]].
  repeat split; auto.
  assert (Hnth : forall n params k,
             List.length params <= n ->
             S k < List.length (cascade n params) ->
             nth (S k) (cascade n params) []
             = requireAllParams
                 (removeFirst Node.optional
                    (Nat.iter k (removeFirst Node.optional) params))).
  { clear. induction n as [|n IH]; intros params k Hlen Hk; cbn [cascade] in *;
      destruct (0 <=? findIndex Node.optional params)%Z eqn:Hopt;
      try (simpl in Hk; lia).
    pose proof (removeFirstOptional_length params Hopt) as Hrem.
    rewrite filterIndex_removeFirst in *. cbn [List.length nth] in *.
    destruct k as [|k].
    - simpl. destruct (cascade_shape (n := n) (removeFirst Node.optional params))
        as [_ [Hhd _]]; [lia|].
      destruct (cascade n (removeFirst Node.optional params)); [simpl in Hk; lia|].
      exact Hhd.
    - rewrite IH by lia. f_equal. f_equal.
      assert (Hswap : forall j (l : list Node.t),
                 Nat.iter j (removeFirst Node.optional)
                   (removeFirst Node.optional l)
                 = removeFirst Node.optional
                     (Nat.iter j (removeFirst Node.optional) l)).
      { clear. induction j as [|j IHj]; intro l; [reflexivity|].
        change (Nat.iter (S j) (removeFirst Node.optional)
                  (removeFirst Node.optional l))
          with (removeFirst Node.optional
                  (Nat.iter j (removeFirst Node.optional)
                     (removeFirst Node.optional l))).
        now rewrite IHj. }
      apply Hswap. }
  intros k Hk. now apply Hnth.
Qed.

Lemma overloads_one_per_optional_parameter_witness :
  (findReturnType (getType 2) Sample.move None "mail" Sample.move emptyWorld
   = (Ret ("void", [Sample.source; Sample.target; Sample.flags]), emptyWorld)
   /\ forallb Node.optional
        (slice (findIndex Node.optional [Sample.source; Sample.target; Sample.flags])
           [Sample.source; Sample.target; Sample.flags]) = false)
  /\ List.length (overloads [Sample.source; Sample.target; Sample.flags])
     = S (List.length
            (filter Node.optional [Sample.source; Sample.target; Sample.flags])).
Proof.
  split; [split; reflexivity|].
  apply (proj1 (proj2 (@overloads_one_per_optional_parameter
                         (getType 2) Sample.move "mail" Options.default None "void"
                         [Sample.source; Sample.target; Sample.flags]
                         emptyWorld emptyWorld eq_refl eq_refl))).
Defined.

Lemma requireAllParams_required (params : list Node.t) :
  Forall (fun q => q.(Node.optional) = false) params ->
  requireAllParams params = params.
Proof.
  intro H. unfold requireAllParams. induction H as [|x l Hx Hl IH]; simpl;
    [reflexivity|].
  rewrite IH. f_equal.
  destruct x as [o i nm d r t e it ch pr fs a ps rt op u ip]. simpl in *. subst op.
  now destruct (eqOpt nm (Some "callback")).
Qed.

Lemma existsb_none (A : Type) (p : A -> bool) (l : list A) :
  Forall (fun q => p q = false) l -> existsb p l = false.
Proof. induction 1 as [|x l Hx Hl IH]; simpl; [reflexivity | now rewrite Hx]. Qed.

Lemma forallb_all (A : Type) (p : A -> bool) (l : list A) :
  Forall (fun q => p q = true) l -> forallb p l = true.
Proof. induction 1 as [|x l Hx Hl IH]; simpl; [reflexivity | now rewrite Hx]. Qed.

Lemma skipn_length_app (A : Type) (l1 l2 : list A) :
  skipn (List.length l1) (l1 ++ l2)%list = l2.
Proof. induction l1 as [|x l1 IH]; simpl; auto. Qed.

Lemma forallb_skipn_required (k : nat) (l : list Node.t) :
  Forall (fun q => q.(Node.optional) = false) l ->
  k < List.length l ->
  forallb Node.optional (skipn k l) = false.
Proof.
  intro H. revert k. induction H as [|x l Hx Hl IH]; intros k Hk; simpl in Hk;
    [lia|].
  destruct k as [|k]; simpl; [now rewrite Hx | apply IH; lia].
Qed.

Lemma overloads_required_then_optional (required optional : list Node.t) :
  Forall (fun q => q.(Node.optional) = false) required ->
  Forall (fun q => q.(Node.optional) = true) optional ->
  overloads (required ++ optional)%list = [(required ++ optional)%list].
Proof.
  intros Hreq Hopt. unfold overloads.
  pose proof (existsb_none _ Hreq) as Hnone.
  destruct optional as [|o optional].
  - rewrite app_nil_r. rewrite (findIndex_none _ _ Hnone).
    destruct required as [|r required]; [reflexivity|].
    unfold slice. cbn [Z.ltb Z.compare].
    rewrite forallb_skipn_required; [|exact Hreq|cbn [List.length]; lia].
    destruct (List.length (r :: required)) as [|n] eqn:E; [discriminate|].
    cbn [cascade]. rewrite (findIndex_none _ _ Hnone).
    change (0 <=? -1)%Z with false. cbv iota.
    now rewrite requireAllParams_required.
  - assert (Ho : o.(Node.optional) = true) by (now inversion Hopt).
    assert (Hidx : findIndex Node.optional (required ++ o :: optional)%list
                   = Z.of_nat (List.length required)).
    { rewrite findIndex_app, Hnone. cbn [existsb]. rewrite Ho. simpl.
      unfold findIndex. simpl. rewrite Ho. lia. }
    rewrite Hidx. unfold slice.
    replace (Z.of_nat (List.length required) <? 0)%Z with false
      by (symmetry; apply Z.ltb_ge; lia).
    rewrite Z.min_l by (rewrite length_app, Nat2Z.inj_add; lia).
    rewrite Nat2Z.id, skipn_length_app, forallb_all; [reflexivity | exact Hopt].
Qed.

(** X10: required parameters followed by optional ones, or by none, give
    exactly one signature, over the visible parameters as they are declared:
    the optional ones keep their [?]. *)
Theorem required_then_optional_single_signature
    (getTypeRec : option Node.t -> option NamespaceTable -> option string -> M string)
    (schemaPart : Node.t) (currentNamespace : string) (options : Options.t)
    (namespaces : option NamespaceTable) (returnType : string)
    (required optional : list Node.t) (w w' : World) :
  Forall (fun q => q.(Node.optional) = false) required ->
  Forall (fun q => q.(Node.optional) = true) optional ->
  findReturnType getTypeRec schemaPart namespaces currentNamespace schemaPart w
  = (Ret (returnType, (required ++ optional)%list), w') ->
  createFunctionDefinition getTypeRec schemaPart currentNamespace options namespaces w
  = ((if returnType =? "ERR" then
        logger Error (unknownAsyncType currentNamespace schemaPart)
      else ret tt) ;;;
     signature <-
       emitSignature getTypeRec options (funcName schemaPart) returnType
         (required ++ optional)%list ;;
     ret (renderDefinition options schemaPart [signature])) w'.
Proof.
  intros Hreq Hopt Hfound.
  pose proof (overloads_required_then_optional Hreq Hopt) as Hover.
  rewrite createFunctionDefinition_overloads. unfold bind at 1.
  rewrite Hfound. cbn [fst snd]. rewrite Hover.
  apply bind_ext. intros _ w1. cbn [mapM].
  rewrite bind_bind. apply bind_ext. intros signature w2. reflexivity.
Qed.

Lemma required_then_optional_single_signature_witness :
  (Forall (fun q => q.(Node.optional) = false) [Sample.typed "id" "string"]
   /\ Forall (fun q => q.(Node.optional) = true)
        [Node.withOptional true (Sample.typed "options" "object")]
   /\ findReturnType (getType 2) Sample.get None "mail" Sample.get emptyWorld
      = (Ret ("Promise<number>",
              ([Sample.typed "id" "string"]
               ++ [Node.withOptional true (Sample.typed "options" "object")])%list),
         mkWorld [12] []))
  /\ createFunctionDefinition (getType 2) Sample.get "mail" Options.default None
       emptyWorld
     = ((if "Promise<number>" =? "ERR" then
           logger Error (unknownAsyncType "mail" Sample.get)
         else ret tt) ;;;
        signature <-
          emitSignature (getType 2) Options.default (funcName Sample.get)
            "Promise<number>"
            ([Sample.typed "id" "string"]
             ++ [Node.withOptional true (Sample.typed "options" "object")])%list ;;
        ret (renderDefinition Options.default Sample.get [signature]))
         (mkWorld [12] []).
Proof.
  assert (H1 : Forall (fun q => q.(Node.optional) = false) [Sample.typed "id" "string"])
    by (repeat constructor).
  assert (H2 : Forall (fun q => q.(Node.optional) = true)
                 [Node.withOptional true (Sample.typed "options" "object")])
    by (repeat constructor).
  split; [repeat split; assumption|].
  apply (@required_then_optional_single_signature
           (getType 2) Sample.get "mail" Options.default None "Promise<number>"
           [Sample.typed "id" "string"]
           [Node.withOptional true (Sample.typed "options" "object")]
           emptyWorld (mkWorld [12] []) H1 H2 eq_refl).
Defined.

(** ** Declaration emitter: events *)

Lemma length_append (a b : string) :
  String.length (a ++ b) = String.length a + String.length b.
Proof. induction a as [|c a IH]; simpl; [reflexivity | now rewrite IH]. Qed.

Lemma substring_append (a b : string) : substring 0 (String.length a) (a ++ b) = a.
Proof. induction a as [|c a IH]; simpl; [now destruct b | now rewrite IH]. Qed.

Lemma dropLast_append (n : nat) (a b : string) :
  String.length b = n -> dropLast n (a ++ b) = a.
Proof.
  intros <-. unfold dropLast. rewrite length_append.
  replace (String.length a + String.length b - String.length b)
    with (String.length a) by lia.
  apply substring_append.
Qed.

Lemma mapM_results (A B : Type) (Q : B -> Prop) (f : A -> M B) (xs : list A) :
  (forall x w y w', f x w = (Ret y, w') -> Q y) ->
  forall w ys w',
    mapM f xs w = (Ret ys, w') ->
    Forall Q ys /\ List.length ys = List.length xs.
Proof.
  intro Hf. induction xs as [|x xs IH]; intros w ys w' H; cbn [mapM] in H.
  - injection H as <- _. now split.
  - unfold bind at 1 in H. destruct (f x w) as [[y|msg|] w1] eqn:Hy; try discriminate.
    unfold bind at 1 in H.
    destruct (mapM f xs w1) as [[ys'|msg|] w2] eqn:Hys; try discriminate.
    injection H as <- _. destruct (IH _ _ _ Hys) as [H1 H2].
    split; [constructor; eauto | simpl; now rewrite H2].
Qed.

Lemma overloads_nonempty (parameters : list Node.t) : overloads parameters <> [].
Proof.
  unfold overloads. destruct (forallb _ _); [discriminate|].
  destruct (cascade_shape (n := List.length parameters) parameters (le_n _))
    as [H _].
  intro E. rewrite E in H. discriminate.
Qed.

Lemma concat_lines_end (delimiter : string) (signatures : list string) :
  signatures <> [] ->
  Forall (fun s => exists b, s = b ++ delimiter) signatures ->
  exists body,
    String.concat "" (map (fun signature => signature ++ LF) signatures)
    = body ++ delimiter ++ LF.
Proof.
  induction signatures as [|s l IH]; intros Hne Hall; [congruence|].
  inversion Hall as [|s' l' [b Hb] Hl]; subst. cbn [map].
  rewrite concat_empty_cons. destruct l as [|s2 l].
  - exists b. simpl. now rewrite append_nil_r, append_assoc.
  - destruct (IH ltac:(discriminate) Hl) as [body Hbody].
    exists ((b ++ delimiter) ++ LF ++ body). rewrite Hbody.
    now rewrite !append_assoc.
Qed.

(** X11: for an event whose name is not a reserved word, the text of its
    signatures ends with the union separator and a line break, and the event
    declaration is that text without these four characters, between
    [const name: EventHandler<] and [>;]: no separator is left dangling. *)
Theorem event_typing_strips_separator
    (fuel : nat) (namespaces : NamespaceTable) (count index : nat)
    (result definition : string) (schemaPart : Node.t) (w w' : World) :
  isNameReserved schemaPart = false ->
  createFunctionDefinition (getType fuel) schemaPart "" eventOptions
    (Some namespaces) w
  = (Ret definition, w') ->
  exists union,
    definition = union ++ " | " ++ LF
    /\ generateEventTyping fuel namespaces count result schemaPart index w
       = (Ret (result ++ "    const " ++ show schemaPart.(Node.name)
               ++ ": EventHandler<" ++ union ++ ">;" ++ LF),
          w').
Proof.
  intros Hname Hdef.
  assert (Hshape : exists union, definition = union ++ " | " ++ LF).
  { rewrite createFunctionDefinition_overloads in Hdef. unfold bind at 1 in Hdef.
    destruct (findReturnType _ _ _ _ _ w) as [[[returnType parameters]| |] w1];
      try discriminate.
    cbn [fst snd] in Hdef. unfold bind at 1 in Hdef.
    match type of Hdef with
    | context [match ?m w1 with _ => _ end] =>
        destruct (m w1) as [[[]| |] w2]; try discriminate
    end.
    unfold bind at 1 in Hdef.
    destruct (mapM _ (overloads parameters) w2) as [[signatures| |] w3] eqn:Hmap;
      try discriminate.
    injection Hdef as <- _.
    apply mapM_results with (Q := fun s => exists b, s = b ++ " | ") in Hmap.
    - destruct Hmap as [Hall Hlen].
      assert (Hne : signatures <> []).
      { intro E. subst signatures. simpl in Hlen.
        pose proof (overloads_nonempty parameters).
        destruct (overloads parameters); [congruence | discriminate]. }
      destruct (@concat_lines_end " | " signatures Hne Hall) as [body Hbody].
      unfold renderDefinition. rewrite Hname, Hbody. cbn [Options.omitDescription eventOptions].
      exists (generateDescription schemaPart.(Node.description) 0 ++ body).
      now rewrite append_nil_r, !append_assoc.
    - intros ps w0 y w0' Hy. unfold emitSignature, bind in Hy.
      destruct (generateFunctionParams _ ps w0) as [[text| |] w4]; try discriminate.
      injection Hy as <- _. unfold signatureLine. cbn.
      exists ("  ((" ++ text ++ ") => " ++ returnType ++ ")").
      cbn. do 4 f_equal. rewrite append_assoc. cbn. do 5 f_equal.
      now rewrite append_assoc. }
  destruct Hshape as [union ->]. exists union. split; [reflexivity|].
  unfold generateEventTyping, bind. rewrite Hdef. unfold ret. f_equal. f_equal.
  unfold debug, DEBUG. cbv iota.
  set (opening := result ++ "    const " ++ "" ++ show schemaPart.(Node.name)
                  ++ ": EventHandler<").
  replace (opening ++ union ++ " | " ++ LF)
    with ((opening ++ union) ++ (" | " ++ LF)) by (now rewrite append_assoc).
  rewrite dropLast_append by reflexivity.
  subst opening. now rewrite !append_assoc.
Qed.

Lemma event_typing_strips_separator_witness :
  (isNameReserved Sample.onUpdated = false
   /\ createFunctionDefinition (getType 2) Sample.onUpdated "" eventOptions
        (Some Sample.crossTable) emptyWorld
      = (Ret ("  ((tabId: number) => void) | " ++ LF), emptyWorld))
  /\ exists union,
       "  ((tabId: number) => void) | " ++ LF = union ++ " | " ++ LF
       /\ generateEventTyping 2 Sample.crossTable 1 "" Sample.onUpdated 0 emptyWorld
          = (Ret ("" ++ "    const " ++ show Sample.onUpdated.(Node.name)
                  ++ ": EventHandler<" ++ union ++ ">;" ++ LF),
             emptyWorld).
Proof.
  split; [split; reflexivity|].
  apply (@event_typing_strips_separator 2 Sample.crossTable 1 0 ""
           ("  ((tabId: number) => void) | " ++ LF) Sample.onUpdated
           emptyWorld emptyWorld eq_refl eq_refl).
Defined.

(** ** Selecting the namespaces to emit *)

Lemma fold_delete (ignored : list string) :
  forall namespaces : NamespaceTable,
    fold_left
      (fun namespaces ignoredNamespace => NsMap.delete ignoredNamespace namespaces)
      ignored namespaces
    = filter (fun e => negb (existsb (String.eqb (fst e)) ignored)) namespaces.
Proof.
  induction ignored as [|k ks IH]; intro namespaces; cbn [fold_left existsb].
  - induction namespaces as [|e t IHt]; simpl in *; [reflexivity | congruence].
  - rewrite IH. unfold NsMap.delete. clear.
    induction namespaces as [|e t IHt]; simpl; [reflexivity|].
    destruct (fst e =? k); simpl; [exact IHt|].
    destruct (existsb (String.eqb (fst e)) ks); simpl; now rewrite IHt.
Qed.

(** X12: the table that is emitted is the merged and post-processed table
    without the entries whose name is one of the comma separated pieces of
    the ignore list, taken as they are written (a piece with a space around it
    names no namespace); the other entries keep their order, and an empty
    list removes nothing. *)
Theorem typingsTable_ignored_namespaces
    (schemaParts : list SchemaPart.t) (ignoredNamespaces : string) :
  typingsTable schemaParts ignoredNamespaces
  = filter
      (fun e =>
         negb (truthy ignoredNamespaces
               && existsb (String.eqb (fst e)) (split "," ignoredNamespaces)))
      (postProcessNamespaces (mergeSchema schemaParts))
  /\ forall ns,
       NsMap.get ns (typingsTable schemaParts ignoredNamespaces)
       = if truthy ignoredNamespaces
            && existsb (String.eqb ns) (split "," ignoredNamespaces)
         then None
         else NsMap.get ns (postProcessNamespaces (mergeSchema schemaParts)).
Proof.
  assert (Hget : forall (q : string -> bool) (t : NamespaceTable) ns,
             NsMap.get ns (filter (fun e => negb (q (fst e))) t)
             = if q ns then None else NsMap.get ns t).
  { intros q t ns. induction t as [|[k v] t IH]; simpl.
    - now destruct (q ns).
    - destruct (q k) eqn:Ek; simpl.
      + rewrite IH. destruct (String.eqb_spec k ns) as [->|_]; [now rewrite Ek|].
        reflexivity.
      + destruct (String.eqb_spec k ns) as [->|_]; [now rewrite Ek | exact IH]. }
  assert (Heq : typingsTable schemaParts ignoredNamespaces
                = filter
                    (fun e =>
                       negb (truthy ignoredNamespaces
                             && existsb (String.eqb (fst e))
                                  (split "," ignoredNamespaces)))
                    (postProcessNamespaces (mergeSchema schemaParts))).
  { unfold typingsTable. destruct (truthy ignoredNamespaces); simpl.
    - apply fold_delete.
    - generalize (postProcessNamespaces (mergeSchema schemaParts)) as t.
      induction t as [|e t IH]; simpl in *; [reflexivity | congruence]. }
  split; [exact Heq|]. intro ns. rewrite Heq.
  apply (Hget (fun k => truthy ignoredNamespaces
                        && existsb (String.eqb k) (split "," ignoredNamespaces))).
Qed.

(** ** Function signature synthesizer: a parameter that cannot be compiled *)

Lemma generateFunctionParams_itemless_array
    (fuel : nat) (parameters : list Node.t) (p : Node.t) :
  In p parameters ->
  truthyOpt p.(Node.ref) = false ->
  p.(Node.type) = Some "array" ->
  p.(Node.items) = None ->
  forall w text w',
    generateFunctionParams (getType (S fuel)) parameters w <> (Ret text, w').
Proof.
  intros Hin Href Htype Hitems w text w' H.
  unfold generateFunctionParams in H. unfold bind at 1 in H.
  match type of H with
  | context [mapM ?f parameters w] =>
      destruct (mapM f parameters w) as [[result|msg|] w1] eqn:Hmap;
      try discriminate;
      apply (@mapM_fails _ _ f p parameters) in Hmap; [exact Hmap | | exact Hin]
  end.
  intros w0 ys w0' Hrun. unfold bind at 1 in Hrun.
  assert (Hthrow : forall mapped w2,
             getType (S fuel) (Some (Node.withParameters mapped p)) None None w2
             = (Throw "Cannot create array typing", w2)).
  { intros. cbn [getType]. unfold getTypeBody. simpl.
    rewrite Href, Htype, Hitems. reflexivity. }
  destruct p.(Node.parameters) as [a|].
  - unfold bind at 1, getElems, ret at 1 in Hrun. unfold bind at 1 in Hrun.
    rewrite Hthrow in Hrun. discriminate.
  - unfold ret at 1 in Hrun. unfold bind at 1 in Hrun.
    rewrite Hthrow in Hrun. discriminate.
Qed.

(** X13: a function one of whose visible parameters is an array without
    [items] gets no definition at all: [createFunctionDefinition] does not
    return, not even with the overloads that would leave the parameter out,
    because the first signature covers every visible parameter. *)
Theorem function_with_itemless_array_is_not_defined
    (fuel : nat) (schemaPart : Node.t) (currentNamespace : string)
    (options : Options.t) (namespaces : option NamespaceTable)
    (returnType : string) (parameters : list Node.t) (p : Node.t) (w w' : World) :
  findReturnType (getType (S fuel)) schemaPart namespaces currentNamespace
    schemaPart w
  = (Ret (returnType, parameters), w') ->
  In p parameters ->
  truthyOpt p.(Node.ref) = false ->
  p.(Node.type) = Some "array" ->
  p.(Node.items) = None ->
  forall text w'',
    createFunctionDefinition (getType (S fuel)) schemaPart currentNamespace options
      namespaces w
    <> (Ret text, w'').
Proof.
  intros Hfound Hin Href Htype Hitems text w'' H.
  rewrite createFunctionDefinition_overloads in H. unfold bind at 1 in H.
  rewrite Hfound in H. cbn [fst snd] in H. unfold bind at 1 in H.
  match type of H with
  | context [match ?m w' with _ => _ end] =>
      destruct (m w') as [[[]| |] w1]; try discriminate
  end.
  unfold bind at 1 in H.
  destruct (mapM _ (overloads parameters) w1) as [[signatures| |] w2] eqn:Hmap;
    try discriminate.
  assert (Hhd : exists first rest q,
             overloads parameters = first :: rest
             /\ In q first /\ truthyOpt q.(Node.ref) = false
             /\ q.(Node.type) = Some "array" /\ q.(Node.items) = None).
  { unfold overloads. destruct (forallb _ _).
    - exists parameters, [], p. auto.
    - destruct (cascade_shape (n := List.length parameters) parameters (le_n _))
        as [Hlen [Hhd _]].
      destruct (cascade _ parameters) as [|first rest]; [discriminate|].
      simpl in Hhd. subst first.
      exists (requireAllParams parameters), rest.
      exists (Node.withOptional
                (if eqOpt p.(Node.name) (Some "callback")
                 then p.(Node.optional) else false) p).
      split; [reflexivity|]. split; [|auto].
      unfold requireAllParams.
      apply (in_map (fun parameter =>
                       Node.withOptional
                         (if eqOpt parameter.(Node.name) (Some "callback")
                          then parameter.(Node.optional) else false) parameter)).
      exact Hin. }
  destruct Hhd as [first [rest [q [Hover [Hq [Hqr [Hqt Hqi]]]]]]].
  rewrite Hover in Hmap.
  apply (@mapM_fails _ _ _ first (first :: rest)) in Hmap; [exact Hmap| |now left].
  intros w0 ys w0' Hemit. unfold emitSignature, bind in Hemit.
  destruct (generateFunctionParams (getType (S fuel)) first w0) as [[t| |] w3] eqn:Hg;
    try discriminate.
  exact (@generateFunctionParams_itemless_array fuel first q Hq Hqr Hqt Hqi _ _ _ Hg).
Qed.

Lemma function_with_itemless_array_is_not_defined_witness :
  (findReturnType (getType 1) Sample.listIds None "mail" Sample.listIds emptyWorld
   = (Ret ("void", [Node.withName (Some "ids") Sample.arrayWithoutItems]), emptyWorld)
   /\ In (Node.withName (Some "ids") Sample.arrayWithoutItems)
        [Node.withName (Some "ids") Sample.arrayWithoutItems]
   /\ truthyOpt (Node.withName (Some "ids") Sample.arrayWithoutItems).(Node.ref) = false
   /\ (Node.withName (Some "ids") Sample.arrayWithoutItems).(Node.type) = Some "array"
   /\ (Node.withName (Some "ids") Sample.arrayWithoutItems).(Node.items) = None)
  /\ forall text w'',
       createFunctionDefinition (getType 1) Sample.listIds "mail" Options.default
         None emptyWorld
       <> (Ret text, w'').
Proof.
  assert (Hin : In (Node.withName (Some "ids") Sample.arrayWithoutItems)
                  [Node.withName (Some "ids") Sample.arrayWithoutItems])
    by (now left).
  split; [repeat split; [exact Hin]|].
  apply (@function_with_itemless_array_is_not_defined
           0 Sample.listIds "mail" Options.default None "void"
           [Node.withName (Some "ids") Sample.arrayWithoutItems]
           (Node.withName (Some "ids") Sample.arrayWithoutItems)
           emptyWorld emptyWorld eq_refl Hin eq_refl eq_refl eq_refl).
Defined.

(** ** Function signature synthesizer: parameters that are references *)



(** ** Fuel and depth *)

(** X16: the fuel does not show in the answer: with any fuel above the depth
    of the node, [getType] ends, with a type expression or an exception, and
    ends the same way. *)
Theorem getType_fuel_independent
    (fuel fuel' : nat) (node : Node.t) (namespaces : option NamespaceTable)
    (currentNamespace : option string) (w : World) :
  depth node <= fuel ->
  fuel < fuel' ->
  fst (getType (S fuel) (Some node) namespaces currentNamespace w) <> OutOfFuel
  /\ getType fuel' (Some node) namespaces currentNamespace w
     = getType (S fuel) (Some node) namespaces currentNamespace w.
Proof.
  intros Hdepth Hfuel.
  assert (Hends : fst (getType (S fuel) (Some node) namespaces currentNamespace w)
                  <> OutOfFuel).
  { pose proof (@getType_terminates fuel (Some node) namespaces currentNamespace
                  Hdepth w) as H.
    destruct (fst (getType (S fuel) (Some node) namespaces currentNamespace w));
      [discriminate | discriminate | contradiction]. }
  split; [exact Hends|].
  apply (@getType_fuel_monotone (S fuel) fuel'); [lia | exact Hends].
Qed.

Lemma getType_fuel_independent_witness :
  (depth Sample.asyncFunctionType <= 3 /\ 3 < 7)
  /\ getType 7 (Some Sample.asyncFunctionType) None None emptyWorld
     = getType 4 (Some Sample.asyncFunctionType) None None emptyWorld.
Proof.
  assert (Hd : depth Sample.asyncFunctionType <= 3) by (cbv; lia).
  assert (Hf : 3 < 7) by lia.
  split; [split; assumption|].
  apply (proj2 (@getType_fuel_independent 3 7 Sample.asyncFunctionType None None
                  emptyWorld Hd Hf)).
Defined.

(** ** Reference resolver: the answer *)

Lemma NsMap_get_In_pair (k : string) (v : SchemaPart.t) (m : NamespaceTable) :
  NoDup (map fst m) -> (NsMap.get k m = Some v <-> In (k, v) m).
Proof.
  induction m as [|[k0 v0] m IH]; simpl; intro Hnd.
  - split; [discriminate | intros []].
  - inversion Hnd as [|x l Hnin Hnd']; subst.
    destruct (String.eqb_spec k0 k) as [->|Hne].
    + split; [intros [= ->]; now left|].
      intros [[= ->]|Hin]; [reflexivity|].
      exfalso. apply Hnin. now apply (in_map fst) in Hin.
    + rewrite (IH Hnd'). split; [now right | intros [[= H _]|H]; [congruence|exact H]].
Qed.

(** X19: on a table the resolver answers, without an exception, the names
    of exactly the namespaces that declare a type with the identifier, each
    once and in the order of the table, and writes one line for each. *)
Theorem findNamespaceFortype_sound_and_complete
    (ref : string) (table : NamespaceTable) (w : World) :
  NoDup (map fst table) ->
  exists found,
    findNamespaceFortype ref (Some table) w
    = (Ret found, written w (map (foundMessage ref) found))
    /\ found
       = map fst
           (filter
              (fun e =>
                 existsb (fun item => eqOpt item.(Node.id) (Some ref))
                   (snd e).(SchemaPart.types))
              table)
    /\ NoDup found
    /\ forall ns,
         In ns found <->
         exists part,
           NsMap.get ns table = Some part
           /\ existsb (fun item => eqOpt item.(Node.id) (Some ref))
                part.(SchemaPart.types) = true.
Proof.
  intro Hnd. exists (declaringNamespaces ref (Some table)).
  split; [apply findNamespaceFortype_spec|]. split; [reflexivity|].
  unfold declaringNamespaces. split.
  - now apply NoDup_map_filter.
  - intro ns. rewrite in_map_iff. split.
    + intros [[k part] [Hk Hin]]. simpl in Hk. subst k.
      apply filter_In in Hin. destruct Hin as [Hin Hq]. exists part.
      split; [now apply NsMap_get_In_pair | exact Hq].
    + intros [part [Hget Hq]]. exists (ns, part). split; [reflexivity|].
      apply filter_In. split; [now apply NsMap_get_In_pair | exact Hq].
Qed.

Lemma findNamespaceFortype_sound_and_complete_witness :
  NoDup (map fst Sample.ambiguousTable)
  /\ exists found,
       findNamespaceFortype "Foo" (Some Sample.ambiguousTable) emptyWorld
       = (Ret found, written emptyWorld (map (foundMessage "Foo") found))
       /\ found
          = map fst
              (filter
                 (fun e =>
                    existsb (fun item => eqOpt item.(Node.id) (Some "Foo"))
                      (snd e).(SchemaPart.types))
                 Sample.ambiguousTable)
       /\ NoDup found
       /\ forall ns,
            In ns found <->
            exists part,
              NsMap.get ns Sample.ambiguousTable = Some part
              /\ existsb (fun item => eqOpt item.(Node.id) (Some "Foo"))
                   part.(SchemaPart.types) = true.
Proof.
  assert (Hnd : NoDup (map fst Sample.ambiguousTable)).
  { simpl. repeat constructor; simpl; intuition discriminate. }
  split; [exact Hnd|].
  apply (@findNamespaceFortype_sound_and_complete "Foo" Sample.ambiguousTable
           emptyWorld Hnd).
Defined.

(** ** Reading a schema file *)







(** ** Descriptions *)

Lemma replaceTag_plain (tag repl s : string) :
  mentions "<" s = false -> replaceTag tag repl s = s.
Proof.
  unfold replaceTag. induction s as [|c s IH]; [reflexivity|].
  cbn [mentions]. intro H. apply orb_false_iff in H. destruct H as [Hc Hs].
  cbn [replaceTagFrom].
  assert (Hopen : forall t, prefix ("<" ++ t) (String c s) = false).
  { intro t. change ("<" ++ t) with (String "<" t). cbn [prefix].
    destruct (ascii_dec "<" c) as [<-|_]; [discriminate|reflexivity]. }
  rewrite (Hopen (tag ++ ">")).
  change ("</" ++ tag ++ ">") with ("<" ++ ("/" ++ tag ++ ">")).
  rewrite (Hopen ("/" ++ tag ++ ">")). now rewrite IH.
Qed.

(** X18: a description in which the character [<] does not occur is put
    into the comment as it is written. *)
Theorem generateDescription_plain_text (description : string) (indention : nat) :
  truthy description = true ->
  mentions "<" description = false ->
  generateDescription (Some description) indention
  = arrayJoin indention "  " ++ "  /**" ++ LF ++ " "
    ++ arrayJoin (indention + 1) "  " ++ "* " ++ description
    ++ LF ++ "  */" ++ LF.
Proof.
  intros Htruthy Hplain. unfold generateDescription. rewrite Htruthy.
  rewrite (@replaceTag_plain "code" "`" description Hplain).
  rewrite (@replaceTag_plain "b" "**" description Hplain).
  rewrite (@replaceTag_plain "em" "*" description Hplain).
  rewrite (@replaceTag_plain "strong" "**" description Hplain).
  reflexivity.
Qed.

Lemma generateDescription_plain_text_witness :
  (truthy "Moves a message." = true /\ mentions "<" "Moves a message." = false)
  /\ generateDescription (Some "Moves a message.") 0
     = arrayJoin 0 "  " ++ "  /**" ++ LF ++ " "
       ++ arrayJoin (0 + 1) "  " ++ "* " ++ "Moves a message."
       ++ LF ++ "  */" ++ LF.
Proof.
  split; [split; reflexivity|].
  apply (@generateDescription_plain_text "Moves a message." 0 eq_refl eq_refl).
Defined.

(** ** Compiling without mutation

Only a function with a string for [async] makes [findReturnType] shift an
array.  A node that holds no such function is compiled without any change to
the schema, and compiling it again gives the same answer. *)

Lemma withoutAsyncName_eq (n : Node.t) :
  withoutAsyncName n
  = match n.(Node.async) with AsyncString _ => false | _ => true end
    && forallb withoutAsyncName (children n).
Proof.
  destruct n as [o i nm d r t e items choices properties fs a parameters rt op u ip].
  unfold children.
  cbn [withoutAsyncName Node.items Node.choices Node.properties Node.parameters
       Node.async].
  f_equal.
  assert (H : forall l : list Node.t,
             forallb (fun b : bool => b) (map withoutAsyncName l)
             = forallb withoutAsyncName l).
  { induction l as [|x l IH]; simpl; [reflexivity | now rewrite IH]. }
  rewrite <- H, !map_app. do 2 f_equal.
  - now destruct items.
  - f_equal; [now destruct choices|]. f_equal.
    + destruct properties; [|reflexivity]. now rewrite map_map.
    + now destruct parameters.
Qed.

Lemma withoutAsyncName_child (n c : Node.t) :
  withoutAsyncName n = true -> In c (children n) -> withoutAsyncName c = true.
Proof.
  rewrite withoutAsyncName_eq, andb_true_iff, forallb_forall. intros [_ H]. apply H.
Qed.

Lemma withoutAsyncName_async (n : Node.t) :
  withoutAsyncName n = true ->
  match n.(Node.async) with AsyncString _ => False | _ => True end.
Proof.
  rewrite withoutAsyncName_eq, andb_true_iff. intros [H _].
  destruct n.(Node.async); [exact I | exact I | discriminate].
Qed.

Lemma keeps_ret (A : Type) (Q : A -> Prop) (a : A) : Q a -> keeps Q (ret a).
Proof. intros H w. now split. Qed.

Lemma keeps_fail (A : Type) (Q : A -> Prop) (m : M A) :
  (forall w, m w = (OutOfFuel, w)) \/ (exists msg, forall w, m w = (Throw msg, w)) ->
  keeps Q m.
Proof.
  intros [H|[msg H]] w; rewrite H; now split.
Qed.

Lemma keeps_bind (A B : Type) (P : A -> Prop) (Q : B -> Prop)
    (m : M A) (k : A -> M B) :
  keeps P m -> (forall a, P a -> keeps Q (k a)) -> keeps Q (bind m k).
Proof.
  intros Hm Hk w. unfold bind. destruct (Hm w) as [Hs Hq].
  destruct (m w) as [[a|msg|] w1]; simpl in *; [|now split|now split].
  destruct (Hk a Hq w1) as [Hs' Hq']. split; [congruence | exact Hq'].
Qed.

Lemma keeps_weaken (A : Type) (P Q : A -> Prop) (m : M A) :
  keeps P m -> (forall a, P a -> Q a) -> keeps Q m.
Proof.
  intros Hm HPQ w. destruct (Hm w) as [Hs Hq]. split; [exact Hs|].
  destruct (fst (m w)); auto.
Qed.

Lemma keeps_logger (lvl : Level) (msg : string) : keeps (fun _ => True) (logger lvl msg).
Proof. intro w. now split. Qed.

Lemma keeps_getElems (a : ParamArray Node.t) :
  keeps (fun l => forall x, In x l -> In x a.(elems)) (getElems a).
Proof. intro w. split; [reflexivity|]. intro x. apply readArray_elems. Qed.

Lemma keeps_mapM (A B : Type) (f : A -> M B) (xs : list A) :
  (forall x, In x xs -> keeps (fun _ => True) (f x)) ->
  keeps (fun _ => True) (mapM f xs).
Proof.
  induction xs as [|x xs IH]; intro H; cbn [mapM].
  - now apply keeps_ret.
  - apply keeps_bind with (P := fun _ => True); [apply H; now left|].
    intros y _. apply keeps_bind with (P := fun _ => True).
    + apply IH. intros z Hz. apply H. now right.
    + intros ys _. now apply keeps_ret.
Qed.

Lemma keeps_overloadLoop
    (P : Node.t -> Prop) (emit : list Node.t -> M string) (n : nat) :
  (forall ps, Forall P ps -> keeps (fun _ => True) (emit (requireAllParams ps))) ->
  forall params overrides,
    Forall P params ->
    keeps (fun looped => Forall P (fst looped))
      (overloadLoop emit n params overrides).
Proof.
  intro Hemit. induction n as [|n IH]; intros params overrides HP;
    cbn [overloadLoop];
    destruct (0 <=? findIndex Node.optional params)%Z;
    try (now apply keeps_ret).
  - apply keeps_fail. now left.
  - apply keeps_bind with (P := fun _ => True); [now apply Hemit|].
    intros signature _. apply IH. now apply Forall_filterIndexFrom.
Qed.

Section Unmutated.

Variable rec : option Node.t -> option NamespaceTable -> option string -> M string.

Hypothesis Hrec :
  forall node namespaces currentNamespace,
    withoutAsyncName node = true ->
    keeps (fun _ => True) (rec (Some node) namespaces currentNamespace).

Lemma withoutAsyncName_same (n m : Node.t) :
  n.(Node.async) = m.(Node.async) -> children n = children m ->
  withoutAsyncName n = withoutAsyncName m.
Proof. intros Ha Hc. now rewrite (withoutAsyncName_eq n), (withoutAsyncName_eq m), Ha, Hc. Qed.

Lemma keeps_generateFunctionParams (parameters : list Node.t) :
  Forall (fun q => withoutAsyncName q = true) parameters ->
  keeps (fun _ => True) (generateFunctionParams rec parameters).
Proof.
  intro HP. unfold generateFunctionParams.
  apply keeps_bind with (P := fun _ => True); [|intros; now apply keeps_ret].
  apply keeps_mapM. intros param Hin.
  rewrite Forall_forall in HP. specialize (HP param Hin).
  apply keeps_bind
    with (P := fun mapped => withoutAsyncName (Node.withParameters mapped param) = true).
  - destruct param.(Node.parameters) as [a|] eqn:Ea.
    + apply keeps_bind with (P := fun l => forall x, In x l -> In x a.(elems));
        [apply keeps_getElems|].
      intros items Hitems. apply keeps_ret.
      rewrite withoutAsyncName_eq. apply andb_true_iff. split.
      * cbn. pose proof (withoutAsyncName_async _ HP) as Ha.
        now destruct param.(Node.async).
      * apply forallb_forall. intros c Hc. unfold children in Hc. cbn in Hc.
        rewrite !in_app_iff in Hc.
        destruct Hc as [Hc | [Hc | [Hc | Hc]]];
          try (apply (@withoutAsyncName_child param _ HP); unfold children;
               rewrite !in_app_iff; now auto).
        apply in_map_iff in Hc. destruct Hc as [x [<- _]]. reflexivity.
    + apply keeps_ret.
      rewrite (@withoutAsyncName_same (Node.withParameters None param) param);
        [exact HP | reflexivity |].
      unfold children. cbn. now rewrite Ea.
  - intros mapped Hmapped.
    apply keeps_bind with (P := fun _ => True); [now apply Hrec|].
    intros; now apply keeps_ret.
Qed.

Lemma keeps_findReturnType
    (schemaPart : Node.t) (namespaces : option NamespaceTable)
    (currentNamespace : string) :
  withoutAsyncName schemaPart = true ->
  keeps (fun found => Forall (fun q => withoutAsyncName q = true) (snd found))
    (findReturnType rec schemaPart namespaces currentNamespace schemaPart).
Proof.
  intro HS. unfold findReturnType.
  apply keeps_bind with (P := Forall (fun q => withoutAsyncName q = true)).
  - destruct schemaPart.(Node.parameters) as [a|] eqn:Ea.
    + apply keeps_weaken with (P := fun l => forall x, In x l -> In x a.(elems));
        [apply keeps_getElems|].
      intros l Hl. apply Forall_forall. intros x Hx.
      apply (@withoutAsyncName_child schemaPart _ HS). unfold children.
      rewrite Ea, !in_app_iff. auto.
    + apply keeps_ret. constructor.
  - intros own Hown. pose proof (withoutAsyncName_async _ HS) as Ha.
    destruct schemaPart.(Node.async) as [|b|async]; [| |contradiction];
      apply keeps_ret; cbn [snd]; apply Forall_forall; intros x Hx;
      apply filter_In in Hx; rewrite Forall_forall in Hown; now apply Hown.
Qed.

Lemma requireAllParams_withoutAsyncName (params : list Node.t) :
  Forall (fun q => withoutAsyncName q = true) params ->
  Forall (fun q => withoutAsyncName q = true) (requireAllParams params).
Proof.
  intro H. unfold requireAllParams. induction H as [|x l Hx Hl IH]; simpl;
    constructor; auto.
  now rewrite (@withoutAsyncName_same (Node.withOptional _ x) x).
Qed.

Lemma keeps_createFunctionDefinition
    (schemaPart : Node.t) (currentNamespace : string)
    (options : Options.t) (namespaces : option NamespaceTable) :
  withoutAsyncName schemaPart = true ->
  keeps (fun _ => True)
    (createFunctionDefinition rec schemaPart currentNamespace options namespaces).
Proof.
  intro HS. unfold createFunctionDefinition.
  assert (Hemit : forall returnType ps,
             Forall (fun q => withoutAsyncName q = true) ps ->
             keeps (fun _ => True)
               (emitSignature rec options (funcName schemaPart) returnType ps)).
  { intros returnType ps Hps. unfold emitSignature.
    apply keeps_bind with (P := fun _ => True);
      [now apply keeps_generateFunctionParams | intros; now apply keeps_ret]. }
  apply keeps_bind
    with (P := fun found => Forall (fun q => withoutAsyncName q = true) (snd found));
    [now apply keeps_findReturnType|].
  intros [returnType parameters] Hparams. cbn [snd] in Hparams.
  apply keeps_bind with (P := fun _ => True).
  { destruct (returnType =? "ERR"); [apply keeps_logger | now apply keeps_ret]. }
  intros _ _.
  apply keeps_bind with (P := fun _ => True); [|intros; now apply keeps_ret].
  destruct (negb _).
  - apply keeps_bind
      with (P := fun looped =>
                   Forall (fun q => withoutAsyncName q = true) (fst looped)).
    + apply keeps_overloadLoop; [|exact Hparams].
      intros ps Hps. apply Hemit. now apply requireAllParams_withoutAsyncName.
    + intros [params overrides] Hps. cbn [fst] in Hps.
      apply keeps_bind with (P := fun _ => True);
        [|intros; now apply keeps_ret].
      apply Hemit. now apply requireAllParams_withoutAsyncName.
  - apply keeps_bind with (P := fun _ => True);
      [now apply Hemit | intros; now apply keeps_ret].
Qed.

Lemma keeps_generatePropertyTypings (property : Node.t) :
  withoutAsyncName property = true ->
  keeps (fun _ => True) (generatePropertyTypings rec property).
Proof.
  intro H. unfold generatePropertyTypings.
  destruct property.(Node.unsupported); [now apply keeps_ret|].
  destruct property.(Node.choices), property.(Node.isInterfaceProperty) as [[|]|];
    (apply keeps_bind with (P := fun _ => True);
     [now apply Hrec | intros; now apply keeps_ret]).
Qed.

Lemma keeps_findNamespaceFortype (ref : string) (namespaces : option NamespaceTable) :
  keeps (fun _ => True) (findNamespaceFortype ref namespaces).
Proof. intro w. rewrite findNamespaceFortype_spec. now split. Qed.

Lemma keeps_getTypeBody
    (property : Node.t) (namespaces : option NamespaceTable)
    (currentNamespace : option string) :
  withoutAsyncName property = true ->
  keeps (fun _ => True)
    (getTypeBody rec (Some property) namespaces currentNamespace).
Proof.
  intro H. unfold getTypeBody.
  pose proof (fun c => @withoutAsyncName_child property c H) as Hchild.
  destruct (truthyOpt property.(Node.ref)).
  { destruct (includesDot _); [now apply keeps_ret|].
    apply keeps_bind with (P := fun _ => True);
      [apply keeps_findNamespaceFortype|].
    intros namespace _. destruct (pop namespace).
    - destruct (_ && _); now apply keeps_ret.
    - apply keeps_bind with (P := fun _ => True);
        [apply keeps_logger | intros; now apply keeps_ret]. }
  repeat (match goal with
          | |- keeps _ (if ?b then _ else _) =>
              destruct b; try (now apply keeps_ret)
          end).
  - destruct property.(Node.enum) as [[members|]|]; now apply keeps_ret.
  - destruct property.(Node.items) as [items|] eqn:Ei;
      [|apply keeps_fail; right; now eexists].
    destruct (truthyOpt items.(Node.type)).
    + apply keeps_bind with (P := fun _ => True);
        [|intros; now apply keeps_ret].
      apply Hrec, Hchild. unfold children. rewrite Ei, !in_app_iff. left. now left.
    + destruct (includesDot _); now apply keeps_ret.
  - destruct property.(Node.choices) as [choices|] eqn:Ec.
    + apply keeps_bind with (P := fun _ => True);
        [|intros; now apply keeps_ret].
      apply keeps_mapM. intros choice Hin. apply Hrec, Hchild.
      unfold children. rewrite Ec, !in_app_iff. auto.
    + repeat (match goal with
              | |- keeps _ (if ?b then _ else _) =>
                  destruct b; try (now apply keeps_ret)
              end).
      * apply keeps_bind with (P := fun _ => True);
          [|intros; now apply keeps_ret].
        apply keeps_createFunctionDefinition.
        rewrite withoutAsyncName_eq. apply andb_true_iff. split.
        -- cbn. pose proof (withoutAsyncName_async _ H) as Ha.
           now destruct property.(Node.async).
        -- apply forallb_forall. intros c Hc. apply Hchild.
           unfold children in *. cbn in Hc. rewrite !in_app_iff in *.
           destruct Hc as [Hc | [Hc | [Hc | Hc]]]; auto.
           destruct property.(Node.parameters); [auto | destruct Hc].
      * destruct property.(Node.properties) as [entries|] eqn:Ep;
          [|now apply keeps_ret].
        apply keeps_bind with (P := fun _ => True).
        -- apply keeps_mapM. intros [key prop] Hin.
           apply keeps_generatePropertyTypings. cbn [fst snd].
           rewrite (@withoutAsyncName_same (interfaceProperty key prop) prop)
             by reflexivity.
           apply Hchild. unfold children. rewrite Ep, !in_app_iff.
           right. right. left. apply in_map_iff. now exists (key, prop).
        -- intros members _.
           apply keeps_bind with (P := fun _ => True);
             [|intros; now apply keeps_ret].
           apply keeps_mapM. intros f _. apply keeps_logger.
Qed.

End Unmutated.

Lemma getType_keeps (fuel : nat) :
  forall (node : Node.t) (namespaces : option NamespaceTable)
         (currentNamespace : option string),
    withoutAsyncName node = true ->
    keeps (fun _ => True) (getType fuel (Some node) namespaces currentNamespace).
Proof.
  induction fuel as [|fuel IH]; intros node namespaces currentNamespace H.
  - apply keeps_fail. now left.
  - change (keeps (fun _ => True)
              (getTypeBody (getType fuel) (Some node) namespaces currentNamespace)).
    apply keeps_getTypeBody; [exact IH | exact H].
Qed.

(** ** The console does not steer the compiler

What a call answers, and which arrays it shifts, depends on the arrays
shifted before it and never on what has been written to the console. *)

Lemma uniform_ret (A : Type) (a : A) : uniform (ret a).
Proof. intros w1 w2 H. now split. Qed.

Lemma uniform_throw (A : Type) (msg : string) : uniform (@throw A msg).
Proof. intros w1 w2 H. now split. Qed.

Lemma uniform_outOfFuel (A : Type) : uniform (@outOfFuel A).
Proof. intros w1 w2 H. now split. Qed.

Lemma uniform_logger (lvl : Level) (msg : string) : uniform (logger lvl msg).
Proof. intros w1 w2 H. now split. Qed.

Lemma readArray_shifts (w1 w2 : World) (a : ParamArray Node.t) :
  shifts w1 = shifts w2 -> readArray w1 a = readArray w2 a.
Proof. intro H. unfold readArray. now rewrite H. Qed.

Lemma uniform_getElems (a : ParamArray Node.t) : uniform (getElems a).
Proof.
  intros w1 w2 H. unfold getElems. cbn [fst snd].
  rewrite (readArray_shifts w1 w2 a H). now split.
Qed.

Lemma uniform_shift (a : ParamArray Node.t) : uniform (shift a).
Proof.
  intros w1 w2 H. unfold shift. rewrite (readArray_shifts w1 w2 a H).
  destruct (readArray w2 a); cbn [fst snd]; [now split|].
  split; [reflexivity|]. destruct a.(addr); cbn [shifts]; congruence.
Qed.

Lemma uniform_bind (A B : Type) (m : M A) (k : A -> M B) :
  uniform m -> (forall a, uniform (k a)) -> uniform (bind m k).
Proof.
  intros Hm Hk w1 w2 H. unfold bind. destruct (Hm w1 w2 H) as [Hf Hs].
  destruct (m w1) as [[a1|msg1|] w1'], (m w2) as [[a2|msg2|] w2'];
    cbn [fst snd] in *; try discriminate; try (split; congruence).
  injection Hf as <-. now apply Hk.
Qed.

Lemma uniform_mapM (A B : Type) (f : A -> M B) (xs : list A) :
  (forall x, uniform (f x)) -> uniform (mapM f xs).
Proof.
  intro H. induction xs as [|x xs IH]; cbn [mapM].
  - apply uniform_ret.
  - apply uniform_bind; [apply H|]. intro y.
    apply uniform_bind; [exact IH|]. intro ys. apply uniform_ret.
Qed.

Lemma uniform_overloadLoop (emit : list Node.t -> M string) (n : nat) :
  (forall ps, uniform (emit ps)) ->
  forall params overrides, uniform (overloadLoop emit n params overrides).
Proof.
  intro H. induction n as [|n IH]; intros params overrides; cbn [overloadLoop];
    destruct (0 <=? findIndex Node.optional params)%Z;
    try apply uniform_ret; try apply uniform_outOfFuel.
  apply uniform_bind; [apply H|]. intro signature. apply IH.
Qed.

Lemma shifts_written (w : World) (messages : list (Level * string)) :
  shifts (written w messages) = shifts w.
Proof. reflexivity. Qed.

Lemma uniform_findNamespaceFortype (ref : string) (namespaces : option NamespaceTable) :
  uniform (findNamespaceFortype ref namespaces).
Proof.
  intros w1 w2 H. rewrite !findNamespaceFortype_spec. cbn [fst snd].
  now rewrite !shifts_written.
Qed.

Ltac uniform_step :=
  match goal with
  | |- uniform (bind _ _) => apply uniform_bind; [|intro]
  | |- uniform (ret _) => apply uniform_ret
  | |- uniform (throw _) => apply uniform_throw
  | |- uniform outOfFuel => apply uniform_outOfFuel
  | |- uniform (logger _ _) => apply uniform_logger
  | |- uniform (getElems _) => apply uniform_getElems
  | |- uniform (shift _) => apply uniform_shift
  | |- uniform (findNamespaceFortype _ _) => apply uniform_findNamespaceFortype
  | |- uniform (mapM _ _) => apply uniform_mapM; intro
  | |- uniform (overloadLoop _ _ _ _) => apply uniform_overloadLoop; intro
  | |- uniform (match ?x with _ => _ end) => destruct x
  end.

Section Uniform.

Variable rec : option Node.t -> option NamespaceTable -> option string -> M string.

Hypothesis Hrec :
  forall property namespaces currentNamespace,
    uniform (rec property namespaces currentNamespace).

Lemma uniform_generateFunctionParams (parameters : list Node.t) :
  uniform (generateFunctionParams rec parameters).
Proof. unfold generateFunctionParams. repeat (uniform_step || apply Hrec). Qed.

Lemma uniform_findReturnType
    (schemaPart : Node.t) (namespaces : option NamespaceTable)
    (currentNamespace : string) (func : Node.t) :
  uniform (findReturnType rec schemaPart namespaces currentNamespace func).
Proof. unfold findReturnType. repeat (uniform_step || apply Hrec). Qed.

Lemma uniform_emitSignature
    (options : Options.t) (name returnType : string) (params : list Node.t) :
  uniform (emitSignature rec options name returnType params).
Proof.
  unfold emitSignature. apply uniform_bind;
    [apply uniform_generateFunctionParams | intro; apply uniform_ret].
Qed.

Lemma uniform_createFunctionDefinition
    (schemaPart : Node.t) (currentNamespace : string)
    (options : Options.t) (namespaces : option NamespaceTable) :
  uniform (createFunctionDefinition rec schemaPart currentNamespace options namespaces).
Proof.
  unfold createFunctionDefinition.
  repeat (uniform_step || apply uniform_findReturnType
          || apply uniform_emitSignature).
Qed.

Lemma uniform_generatePropertyTypings (property : Node.t) :
  uniform (generatePropertyTypings rec property).
Proof. unfold generatePropertyTypings. repeat (uniform_step || apply Hrec). Qed.

Lemma uniform_getTypeBody
    (property : option Node.t) (namespaces : option NamespaceTable)
    (currentNamespace : option string) :
  uniform (getTypeBody rec property namespaces currentNamespace).
Proof.
  unfold getTypeBody.
  repeat (uniform_step || apply Hrec || apply uniform_createFunctionDefinition
          || apply uniform_generatePropertyTypings).
Qed.

End Uniform.

Lemma getType_uniform (fuel : nat) :
  forall property namespaces currentNamespace,
    uniform (getType fuel property namespaces currentNamespace).
Proof.
  induction fuel as [|fuel IH]; intros property namespaces currentNamespace.
  - apply uniform_outOfFuel.
  - change (uniform
              (getTypeBody (getType fuel) property namespaces currentNamespace)).
    now apply uniform_getTypeBody.
Qed.

(** X15.  [getType] on a node in which no function names its callback by a
    string for [async], at any depth: the call shifts no array, so the schema
    is as it was, and compiling the node again from the resulting state gives
    the same outcome as the first time. *)
Theorem getType_without_async_name_repeatable
    (node : Node.t) (fuel : nat) (namespaces : option NamespaceTable)
    (currentNamespace : option string) (w : World) :
  withoutAsyncName node = true ->
  shifts (snd (getType fuel (Some node) namespaces currentNamespace w)) = shifts w
  /\ fst (getType fuel (Some node) namespaces currentNamespace
            (snd (getType fuel (Some node) namespaces currentNamespace w)))
     = fst (getType fuel (Some node) namespaces currentNamespace w).
Proof.
  intro H.
  destruct (@getType_keeps fuel node namespaces currentNamespace H w) as [Hs _].
  split; [exact Hs|].
  now apply (@getType_uniform fuel (Some node) namespaces currentNamespace).
Qed.

Lemma getType_without_async_name_repeatable_witness :
  withoutAsyncName (Node.withType (Some "function") Sample.move) = true
  /\ (shifts
        (snd (getType 3 (Some (Node.withType (Some "function") Sample.move))
                None None emptyWorld))
      = shifts emptyWorld
      /\ fst (getType 3 (Some (Node.withType (Some "function") Sample.move))
                None None
                (snd (getType 3 (Some (Node.withType (Some "function") Sample.move))
                        None None emptyWorld)))
         = fst (getType 3 (Some (Node.withType (Some "function") Sample.move))
                  None None emptyWorld)).
Proof.
  split; [reflexivity|].
  apply (@getType_without_async_name_repeatable
           (Node.withType (Some "function") Sample.move) 3 None None emptyWorld).
  reflexivity.
Defined.

Lemma mergeNamespaceEvents_new_events_win_witness :
  (NoDup (map eventKey [Sample.onUpdated])
   /\ NoDup
        (map eventKey
           (SchemaPart.events
              (SchemaPart.mk "tabs" None []
                 [Node.withOid 7 Sample.onUpdated;
                  Node.withName (Some "onRemoved") Sample.onUpdated] [] None))))
  /\ NoDup
       (map eventKey
          (mergeNamespaceEvents [Sample.onUpdated]
             (SchemaPart.mk "tabs" None []
                [Node.withOid 7 Sample.onUpdated;
                 Node.withName (Some "onRemoved") Sample.onUpdated] [] None))).
Proof.
  assert (H1 : NoDup (map eventKey [Sample.onUpdated])).
  { constructor; [intros []|constructor]. }
  assert (H2 : NoDup
                 (map eventKey
                    (SchemaPart.events
                       (SchemaPart.mk "tabs" None []
                          [Node.withOid 7 Sample.onUpdated;
                           Node.withName (Some "onRemoved") Sample.onUpdated]
                          [] None)))).
  { constructor; [|constructor; [intros []|constructor]].
    intros [H|[]]. discriminate H. }
  split; [now split|].
  exact (proj2
           (@mergeNamespaceEvents_new_events_win [Sample.onUpdated]
              (SchemaPart.mk "tabs" None []
                 [Node.withOid 7 Sample.onUpdated;
                  Node.withName (Some "onRemoved") Sample.onUpdated] [] None))
           H1 H2).
Defined.

(** ** Declaration emitter: string types *)

(** X20.  A type of a namespace with [type: "string"] is declared as
    [type <id> = string;], with its description written twice, whatever
    [enum] it has and without reading the table; compiled as the type of a
    parameter or of a member, the same node with an array for [enum] (and no
    [$ref]) gives the union of the quoted members instead. *)
Theorem string_type_declaration_drops_enum
    (fuel : nat) (namespaces : NamespaceTable) (schemaPart : Node.t)
    (members : list string) (w : World) :
  schemaPart.(Node.type) = Some "string" ->
  schemaPart.(Node.enum) = Some (EnumArray members) ->
  truthyOpt schemaPart.(Node.ref) = false ->
  generateTypeTyping fuel namespaces schemaPart w
  = (Ret (generateDescription schemaPart.(Node.description) 0
          ++ generateDescription schemaPart.(Node.description) 0
          ++ "  type " ++ show schemaPart.(Node.id) ++ " = string;" ++ LF), w)
  /\ getType (S fuel) (Some schemaPart) None None w
     = (Ret (trim
               (String.concat (LF ++ " | ")
                  (map (fun item => "'" ++ item ++ "'") members))), w).
Proof.
  intros Htype Henum Href. split.
  - unfold generateTypeTyping. rewrite Htype.
    change (eqOpt (Some "string") (Some "object")) with false.
    change (eqOpt (Some "string") (Some "string")) with true.
    cbv iota. unfold bind, ret. now rewrite !append_assoc.
  - cbn [getType]. unfold getTypeBody. rewrite Href, Htype, Henum.
    reflexivity.
Qed.

Lemma string_type_declaration_drops_enum_witness :
  (Node.type
     (Node.withId (Some "Kind")
        (Node.withEnum (Some (EnumArray ["a"; "b"])) (Sample.ofType "string")))
   = Some "string"
   /\ Node.enum
        (Node.withId (Some "Kind")
           (Node.withEnum (Some (EnumArray ["a"; "b"])) (Sample.ofType "string")))
      = Some (EnumArray ["a"; "b"])
   /\ truthyOpt
        (Node.ref
           (Node.withId (Some "Kind")
              (Node.withEnum (Some (EnumArray ["a"; "b"])) (Sample.ofType "string"))))
      = false)
  /\ generateTypeTyping 0 []
       (Node.withId (Some "Kind")
          (Node.withEnum (Some (EnumArray ["a"; "b"])) (Sample.ofType "string")))
       emptyWorld
     = (Ret ("  type Kind = string;" ++ LF), emptyWorld)
  /\ getType 1
       (Some
          (Node.withId (Some "Kind")
             (Node.withEnum (Some (EnumArray ["a"; "b"])) (Sample.ofType "string"))))
       None None emptyWorld
     = (Ret ("'a'" ++ LF ++ " | 'b'"), emptyWorld).
Proof.
  split; [repeat split|].
  exact (@string_type_declaration_drops_enum 0 []
           (Node.withId (Some "Kind")
              (Node.withEnum (Some (EnumArray ["a"; "b"])) (Sample.ofType "string")))
           ["a"; "b"] emptyWorld eq_refl eq_refl eq_refl).
Defined.

(** * The first version *)

(** ** Overloads *)

Lemma slice_nat (A : Type) (n : nat) (xs : list A) :
  slice (Z.of_nat n) xs = skipn n xs.
Proof.
  unfold slice. destruct (Z.ltb_spec (Z.of_nat n) 0) as [H|_]; [lia|].
  destruct (Nat.le_gt_cases n (List.length xs)) as [Hle|Hgt].
  - now rewrite Z.min_l, Nat2Z.id by lia.
  - rewrite Z.min_r, Nat2Z.id by lia.
    now rewrite skipn_all, skipn_all2 by lia.
Qed.

Lemma sliceTo_nat (A : Type) (e : Z) (xs : list A) :
  (0 <= e)%Z -> Legacy.sliceTo e xs = firstn (Z.to_nat e) xs.
Proof.
  intro H. unfold Legacy.sliceTo. destruct (Z.ltb_spec e 0) as [H'|_]; [lia|].
  destruct (Z.le_gt_cases e (Z.of_nat (List.length xs))) as [Hle|Hgt].
  - now rewrite Z.min_l by lia.
  - rewrite Z.min_r, Nat2Z.id by lia.
    now rewrite firstn_all, firstn_all2 by lia.
Qed.

Lemma lines_cons (signature : string) (signatures : list string) :
  lines (signature :: signatures) = signature ++ LF ++ lines signatures.
Proof. unfold lines. cbn [map]. now rewrite concat_empty_cons, append_assoc. Qed.

Lemma lines_app (a b : list string) : lines (a ++ b)%list = lines a ++ lines b.
Proof.
  induction a as [|x a IH]; [reflexivity|].
  cbn [app]. now rewrite !lines_cons, IH, !append_assoc.
Qed.

Lemma prefixes_length (A : Type) (xs : list A) :
  List.length (prefixes xs) = List.length xs.
Proof.
  induction xs as [|x xs IH]; simpl; [reflexivity|]. now rewrite length_map, IH.
Qed.

Lemma prefixes_nth (A : Type) (xs : list A) :
  forall i, i < List.length xs -> nth i (prefixes xs) [] = firstn (S i) xs.
Proof.
  induction xs as [|x xs IH]; intros i Hi; [simpl in Hi; lia|].
  destruct i as [|i]; [now destruct xs|].
  cbn [prefixes nth]. simpl in Hi.
  rewrite (nth_indep _ [] (x :: [])) by (rewrite length_map, prefixes_length; lia).
  change [x] with ((cons x) (@nil A)) at 1. rewrite map_nth.
  rewrite IH by lia. reflexivity.
Qed.

Lemma prefixes_total (A : Type) (xs : list A) :
  2 * List.length (List.concat (prefixes xs))
  = List.length xs * S (List.length xs).
Proof.
  induction xs as [|x xs IH]; [reflexivity|].
  cbn [prefixes List.concat]. rewrite length_app. cbn [List.length].
  assert (H : forall P : list (list A),
             List.length (List.concat (map (cons x) P))
             = List.length P + List.length (List.concat P)).
  { induction P as [|p P IHP]; [reflexivity|].
    cbn [map List.concat]. rewrite !length_app. cbn [List.length].
    rewrite IHP. lia. }
  rewrite H, prefixes_length. lia.
Qed.

(** The loop renders one signature for each leading optional parameter and
    adds, turn after turn, all the signatures rendered so far. *)
Lemma legacy_overloadLoop_prefixes
    (emit : list Node.t -> M string) (parameters : list Node.t) :
  forall (leading : list Node.t) (index : nat) (overrides result : string)
         (w : World),
    Legacy.overloadLoop emit parameters leading index overrides result w
    = (signatures <-
         mapM emit
           (map (fun i => Legacy.requireAllParams (skipn (S i) parameters))
              (seq index (List.length leading))) ;;
       ret (result
            ++ String.concat ""
                 (map (fun p => overrides ++ lines p) (prefixes signatures)))) w.
Proof.
  induction leading as [|x leading IH]; intros index overrides result w.
  - cbn [Legacy.overloadLoop List.length seq map mapM]. unfold bind, ret.
    simpl. now rewrite append_nil_r.
  - cbn [Legacy.overloadLoop List.length seq map mapM].
    rewrite bind_bind. rewrite Nat.add_1_r, slice_nat. apply bind_ext.
    intros signature w1. rewrite IH, bind_bind. apply bind_ext.
    intros signatures w2. unfold bind, ret. f_equal. f_equal.
    cbn [prefixes map]. rewrite concat_empty_cons, map_map.
    rewrite (map_ext (fun p => overrides ++ lines (signature :: p))
               (fun p => ((overrides ++ signature) ++ LF) ++ lines p))
      by (intro p; now rewrite lines_cons, !append_assoc).
    rewrite lines_cons. change (lines []) with "".
    now rewrite !append_assoc.
Qed.

Lemma concat_lines (overrides : list (list string)) :
  String.concat "" (map (fun p => "" ++ lines p) overrides)
  = lines (List.concat overrides).
Proof.
  induction overrides as [|p ps IH]; [reflexivity|].
  cbn [map List.concat]. now rewrite concat_empty_cons, IH, lines_app.
Qed.

Lemma existsb_all_false (A : Type) (p : A -> bool) (xs : list A) :
  Forall (fun x => p x = false) xs -> existsb p xs = false.
Proof.
  induction 1 as [|x xs Hx _ IH]; simpl; [reflexivity | now rewrite Hx, IH].
Qed.

Lemma legacy_leading_optional
    (leading : list Node.t) (required : Node.t) (rest : list Node.t) :
  leading <> [] ->
  Forall (fun q => q.(Node.optional) = true) leading ->
  required.(Node.optional) = false ->
  findIndex Node.optional (leading ++ required :: rest)%list = 0%Z
  /\ findIndex (fun param => negb param.(Node.optional))
       (leading ++ required :: rest)%list
     = Z.of_nat (List.length leading).
Proof.
  intros Hne Hall Hreq. split.
  - destruct leading as [|q leading]; [congruence|].
    inversion Hall as [|? ? Hq _]; subst. unfold findIndex. simpl. now rewrite Hq.
  - unfold findIndex. rewrite findIndexFrom_app, existsb_all_false.
    + simpl. now rewrite Hreq.
    + eapply Forall_impl; [|exact Hall]. intros q Hq. simpl in Hq. now rewrite Hq.
Qed.

(** X21.  First version: when optional parameters lead and a required one
    follows them, the loop renders, for each leading optional parameter in
    turn, the signature over the parameters that follow it, and adds after
    every turn all the signatures rendered so far: the text holds the first
    signature once for each leading parameter, the second once less, and so
    on, followed by the signature over all the parameters.  With [k] leading
    optional parameters these are [k * (k + 1) / 2 + 1] lines; no parameter
    of any signature keeps its [?]. *)
Theorem legacy_overloads_accumulate
    (getTypeRec : Node.t -> M string) (currentNamespace result : string)
    (schemaPart : Node.t) (returnType : string)
    (leading : list Node.t) (required : Node.t) (rest : list Node.t)
    (w w' : World) :
  Legacy.findReturnType getTypeRec schemaPart w
  = (Ret (returnType, (leading ++ required :: rest)%list), w') ->
  leading <> [] ->
  Forall (fun q => q.(Node.optional) = true) leading ->
  required.(Node.optional) = false ->
  Legacy.functionTyping getTypeRec currentNamespace result schemaPart w
  = ((if returnType =? "ERR" then
        logger Error (unknownAsyncType currentNamespace schemaPart)
      else ret tt) ;;;
     overrides <-
       mapM (Legacy.emitSignature getTypeRec schemaPart returnType)
         (map
            (fun i =>
               Legacy.requireAllParams
                 (skipn (S i) (leading ++ required :: rest)%list))
            (seq 0 (List.length leading))) ;;
     signature <-
       Legacy.emitSignature getTypeRec schemaPart returnType
         (Legacy.requireAllParams (leading ++ required :: rest)%list) ;;
     ret (result
          ++ Legacy.generateDescription schemaPart.(Node.description) 0
          ++ lines (List.concat (prefixes overrides) ++ [signature])%list)) w'
  /\ forall overrides : list string,
       List.length overrides = List.length leading ->
       2 * List.length (List.concat (prefixes overrides))
       = List.length leading * S (List.length leading)
       /\ forall i,
            i < List.length leading ->
            nth i (prefixes overrides) [] = firstn (S i) overrides.
Proof.
  intros Hfound Hne Hall Hreq. split.
  - destruct (@legacy_leading_optional leading required rest Hne Hall Hreq) as [Hfo Hfr].
    unfold Legacy.functionTyping. unfold bind at 1. rewrite Hfound.
    apply bind_ext. intros _ w1. rewrite Hfo, Hfr.
    assert (Hlt : (0 <? Z.of_nat (List.length leading))%Z = true).
    { apply Z.ltb_lt. destruct leading; [congruence | simpl; lia]. }
    change (0 <=? 0)%Z with true. rewrite Hlt. cbn [andb].
    rewrite sliceTo_nat, Nat2Z.id by lia.
    replace (firstn (List.length leading) (leading ++ required :: rest)%list)
      with leading
      by (rewrite firstn_app, firstn_all, Nat.sub_diag; simpl;
          now rewrite app_nil_r).
    unfold bind at 1. rewrite legacy_overloadLoop_prefixes.
    unfold bind.
    destruct (mapM _ _ w1) as [[overrides|msg|] w2]; try reflexivity.
    unfold ret at 1.
    destruct (Legacy.emitSignature _ _ _ _ w2) as [[signature|msg|] w3];
      try reflexivity.
    unfold ret. do 2 f_equal.
    rewrite concat_lines, lines_app, lines_cons.
    change (lines []) with "". now rewrite !append_assoc, ?append_nil_r.
  - intros overrides Hlen. split.
    + now rewrite prefixes_total, Hlen.
    + intros i Hi. apply prefixes_nth. now rewrite Hlen.
Qed.

Lemma legacy_overloads_accumulate_witness :
  (Legacy.findReturnType (Legacy.getType 2) Sample.copy emptyWorld
   = (Ret ("void",
           ([Node.withOptional true (Sample.typed "from" "string");
             Node.withOptional true (Sample.typed "to" "string")]
            ++ Sample.typed "name" "string" :: [])%list), emptyWorld)
   /\ [Node.withOptional true (Sample.typed "from" "string");
       Node.withOptional true (Sample.typed "to" "string")] <> []
   /\ Forall (fun q => q.(Node.optional) = true)
        [Node.withOptional true (Sample.typed "from" "string");
         Node.withOptional true (Sample.typed "to" "string")]
   /\ (Sample.typed "name" "string").(Node.optional) = false)
  /\ Legacy.functionTyping (Legacy.getType 2) "mail" "" Sample.copy emptyWorld
     = (Ret ("  function copy(to: string, name: string): void;" ++ LF
             ++ "  function copy(to: string, name: string): void;" ++ LF
             ++ "  function copy(name: string): void;" ++ LF
             ++ "  function copy(from: string, to: string, name: string): void;"
             ++ LF),
        emptyWorld).
Proof.
  assert (H1 : Legacy.findReturnType (Legacy.getType 2) Sample.copy emptyWorld
               = (Ret ("void",
                       ([Node.withOptional true (Sample.typed "from" "string");
                         Node.withOptional true (Sample.typed "to" "string")]
                        ++ Sample.typed "name" "string" :: [])%list), emptyWorld))
    by reflexivity.
  assert (H2 : [Node.withOptional true (Sample.typed "from" "string");
                Node.withOptional true (Sample.typed "to" "string")] <> [])
    by discriminate.
  assert (H3 : Forall (fun q => q.(Node.optional) = true)
                 [Node.withOptional true (Sample.typed "from" "string");
                  Node.withOptional true (Sample.typed "to" "string")])
    by (repeat constructor).
  assert (H4 : (Sample.typed "name" "string").(Node.optional) = false)
    by reflexivity.
  split; [repeat split; assumption|].
  rewrite (proj1 (@legacy_overloads_accumulate (Legacy.getType 2) "mail" ""
                    Sample.copy "void" _ _ [] emptyWorld emptyWorld H1 H2 H3 H4)).
  reflexivity.
Defined.

(** ** Return types *)

Lemma filter_contradiction (A : Type) (p q : A -> bool) (xs : list A) :
  (forall x, p x = true -> q x = true -> False) -> filter q (filter p xs) = [].
Proof.
  intro H. induction xs as [|x xs IH]; simpl; [reflexivity|].
  destruct (p x) eqn:Hp; [|exact IH]. simpl.
  destruct (q x) eqn:Hq; [|exact IH]. destruct (H x Hp Hq).
Qed.

(** X22.  First version: a function with [async: "responseCallback"] is
    declared without any parameter and with the return type [Promise<any>],
    whatever parameters it has: the parameters named [responseCallback] are
    looked for among those that are not named so. *)
Theorem legacy_response_callback_drops_parameters
    (getTypeRec : Node.t -> M string) (currentNamespace result : string)
    (schemaPart : Node.t) (own : ParamArray Node.t) (w : World) :
  schemaPart.(Node.parameters) = Some own ->
  schemaPart.(Node.async) = AsyncString "responseCallback" ->
  Legacy.findReturnType getTypeRec schemaPart w = (Ret ("Promise<any>", []), w)
  /\ Legacy.functionTyping getTypeRec currentNamespace result schemaPart w
     = (Ret (result
             ++ Legacy.generateDescription schemaPart.(Node.description) 0
             ++ "  function " ++ show schemaPart.(Node.name)
             ++ "(): Promise<any>;" ++ LF), w).
Proof.
  intros Hown Hasync.
  assert (Hfound : Legacy.findReturnType getTypeRec schemaPart w
                   = (Ret ("Promise<any>", []), w)).
  { unfold Legacy.findReturnType. rewrite Hown, Hasync.
    change ("responseCallback" =? "callback") with false.
    change ("responseCallback" =? "responseCallback") with true.
    cbv iota. rewrite filter_contradiction; [reflexivity|].
    intros x Hp Hq.
    apply andb_true_iff in Hp. destruct Hp as [_ Hp]. now rewrite Hq in Hp. }
  split; [exact Hfound|].
  unfold Legacy.functionTyping. unfold bind at 1. rewrite Hfound.
  change ("Promise<any>" =? "ERR") with false. cbv iota.
  unfold bind at 1, ret at 1.
  change (findIndex Node.optional (@nil Node.t)) with (-1)%Z.
  change (0 <=? -1)%Z with false. cbn [andb].
  unfold Legacy.emitSignature, Legacy.generateFunctionParams, Legacy.signatureLine.
  cbn [mapM]. unfold bind, ret. cbn [String.concat].
  now rewrite !append_assoc.
Qed.

Lemma legacy_response_callback_drops_parameters_witness :
  (Sample.query.(Node.parameters)
   = Sample.jsonArray 23
       [Sample.typed "info" "object"; Sample.typed "responseCallback" "function"]
   /\ Sample.query.(Node.async) = AsyncString "responseCallback")
  /\ Legacy.functionTyping (Legacy.getType 2) "mail" "" Sample.query emptyWorld
     = (Ret ("  function query(): Promise<any>;" ++ LF), emptyWorld).
Proof.
  split; [now split|].
  exact (proj2
           (@legacy_response_callback_drops_parameters (Legacy.getType 2) "mail" ""
              Sample.query
              (mkArray (Some 23)
                 [Sample.typed "info" "object";
                  Sample.typed "responseCallback" "function"])
              emptyWorld eq_refl eq_refl)).
Defined.

(** X23.  First version: a function whose [async] is a string other than
    ["responseCallback"], and which is not ["callback"] with a parameter of
    that name, is reported on the error console and still declared, without
    parameters and with the return type [ERR]; the generation goes on. *)
Theorem legacy_unknown_async_is_reported
    (getTypeRec : Node.t -> M string) (currentNamespace result async : string)
    (schemaPart : Node.t) (own : ParamArray Node.t) (w : World) :
  schemaPart.(Node.parameters) = Some own ->
  schemaPart.(Node.async) = AsyncString async ->
  async <> "responseCallback" ->
  async <> "callback"
  \/ find (fun param => eqOpt param.(Node.name) (Some "callback")) own.(elems)
     = None ->
  Legacy.functionTyping getTypeRec currentNamespace result schemaPart w
  = (Ret (result
          ++ Legacy.generateDescription schemaPart.(Node.description) 0
          ++ "  function " ++ show schemaPart.(Node.name) ++ "(): ERR;" ++ LF),
     written w [(Error, unknownAsyncType currentNamespace schemaPart)]).
Proof.
  intros Hown Hasync Hresponse Hcallback.
  assert (Hfound : Legacy.findReturnType getTypeRec schemaPart w
                   = (Ret ("ERR", []), w)).
  { unfold Legacy.findReturnType. rewrite Hown, Hasync.
    apply String.eqb_neq in Hresponse.
    destruct Hcallback as [Hne | Hnone].
    - apply String.eqb_neq in Hne. now rewrite Hne, Hresponse.
    - rewrite Hnone, Hresponse. now destruct (async =? "callback"). }
  unfold Legacy.functionTyping. unfold bind at 1. rewrite Hfound.
  change ("ERR" =? "ERR") with true. cbv iota.
  unfold bind at 1, logger at 1.
  change (findIndex Node.optional (@nil Node.t)) with (-1)%Z.
  change (0 <=? -1)%Z with false. cbn [andb].
  unfold Legacy.emitSignature, Legacy.generateFunctionParams, Legacy.signatureLine.
  cbn [mapM]. unfold bind, ret. cbn [String.concat].
  unfold written. now rewrite !append_assoc.
Qed.

Lemma legacy_unknown_async_is_reported_witness :
  (Sample.notify.(Node.parameters)
   = Sample.jsonArray 14 [Sample.typed "a" "string"]
   /\ Sample.notify.(Node.async) = AsyncString "done"
   /\ "done" <> "responseCallback"
   /\ ("done" <> "callback"
       \/ find (fun param => eqOpt param.(Node.name) (Some "callback"))
            [Sample.typed "a" "string"]
          = None))
  /\ Legacy.functionTyping (Legacy.getType 2) "mail" "" Sample.notify emptyWorld
     = (Ret ("  function notify(): ERR;" ++ LF),
        written emptyWorld
          [(Error, "Unknown async type, namespace mail, function 'notify': 'done'")]).
Proof.
  assert (H1 : "done" <> "responseCallback") by discriminate.
  assert (H2 : "done" <> "callback"
               \/ find (fun param => eqOpt param.(Node.name) (Some "callback"))
                    [Sample.typed "a" "string"]
                  = None) by (right; reflexivity).
  split; [repeat split; assumption|].
  exact (@legacy_unknown_async_is_reported (Legacy.getType 2) "mail" "" "done"
           Sample.notify (mkArray (Some 14) [Sample.typed "a" "string"])
           emptyWorld eq_refl eq_refl H1 H2).
Defined.

(** X24.  First version: for a function with [async: "callback"], the
    return type is the type expression of the parameter named [callback]
    itself, not of what the callback receives: for a callback of type
    [function] (without [$ref] and [choices]) it is [void], and not a
    promise. *)
Theorem legacy_callback_function_returns_void
    (fuel : nat) (schemaPart callback : Node.t) (own : ParamArray Node.t)
    (w : World) :
  schemaPart.(Node.parameters) = Some own ->
  schemaPart.(Node.async) = AsyncString "callback" ->
  find (fun param => eqOpt param.(Node.name) (Some "callback")) own.(elems)
  = Some callback ->
  truthyOpt callback.(Node.ref) = false ->
  callback.(Node.type) = Some "function" ->
  callback.(Node.choices) = None ->
  Legacy.findReturnType (Legacy.getType (S fuel)) schemaPart w
  = (Ret ("void", visible own.(elems)), w).
Proof.
  intros Hown Hasync Hfind Href Htype Hchoices.
  unfold Legacy.findReturnType. rewrite Hown, Hasync, Hfind.
  change ("callback" =? "callback") with true. cbv iota.
  cbn [Legacy.getType]. unfold Legacy.getTypeBody.
  rewrite Href, Htype, Hchoices. reflexivity.
Qed.

Lemma legacy_callback_function_returns_void_witness :
  (Sample.send.(Node.parameters)
   = Some (mkArray (Some 10)
             [Sample.typed "a" "string"; Sample.typed "callback" "function"])
   /\ Sample.send.(Node.async) = AsyncString "callback"
   /\ find (fun param => eqOpt param.(Node.name) (Some "callback"))
        [Sample.typed "a" "string"; Sample.typed "callback" "function"]
      = Some (Sample.typed "callback" "function")
   /\ truthyOpt (Sample.typed "callback" "function").(Node.ref) = false
   /\ (Sample.typed "callback" "function").(Node.type) = Some "function"
   /\ (Sample.typed "callback" "function").(Node.choices) = None)
  /\ Legacy.findReturnType (Legacy.getType 1) Sample.send emptyWorld
     = (Ret ("void", [Sample.typed "a" "string"]), emptyWorld).
Proof.
  split; [repeat split|].
  exact (@legacy_callback_function_returns_void 0 Sample.send
           (Sample.typed "callback" "function")
           (mkArray (Some 10)
              [Sample.typed "a" "string"; Sample.typed "callback" "function"])
           emptyWorld eq_refl eq_refl eq_refl eq_refl eq_refl eq_refl).
Defined.

(** ** Termination and abortion *)

Lemma Forall_skipn (A : Type) (P : A -> Prop) (n : nat) (xs : list A) :
  Forall P xs -> Forall P (skipn n xs).
Proof.
  intro H. apply Forall_forall. intros x Hx. rewrite Forall_forall in H.
  apply H. now apply In_skipn with n.
Qed.

Lemma legacy_requireAllParams_depth (bound : nat) (params : list Node.t) :
  Forall (fun q => depth q < bound) params ->
  Forall (fun q => depth q < bound) (Legacy.requireAllParams params).
Proof.
  intro H. unfold Legacy.requireAllParams. induction H as [|x l Hx Hl IH]; simpl;
    constructor; auto.
  now rewrite (depth_same_children (Node.withOptional false x) x).
Qed.

Lemma ensures_legacy_overloadLoop
    (P : Node.t -> Prop) (emit : list Node.t -> M string)
    (parameters : list Node.t) :
  (forall ps, Forall P ps -> ensures (fun _ => True) (emit (Legacy.requireAllParams ps))) ->
  Forall P parameters ->
  forall leading index overrides result,
    ensures (fun _ => True)
      (Legacy.overloadLoop emit parameters leading index overrides result).
Proof.
  intros Hemit HP. induction leading as [|x leading IH];
    intros index overrides result; cbn [Legacy.overloadLoop].
  - now apply ensures_ret.
  - apply ensures_bind with (P := fun _ => True).
    + apply Hemit. rewrite slice_nat. now apply Forall_skipn.
    + intros signature _. apply IH.
Qed.

Lemma ensures_forEachM
    (body : string -> Node.t -> M string) (xs : list Node.t) :
  (forall result x, In x xs -> ensures (fun _ => True) (body result x)) ->
  forall result, ensures (fun _ => True) (Legacy.forEachM body xs result).
Proof.
  induction xs as [|x xs IH]; intros H result; cbn [Legacy.forEachM].
  - now apply ensures_ret.
  - apply ensures_bind with (P := fun _ => True); [apply H; now left|].
    intros result' _. apply IH. intros r y Hy. apply H. now right.
Qed.

Section LegacyTerminates.

Variable rec : Node.t -> M string.
Variable bound : nat.

Hypothesis Hrec :
  forall node, depth node < bound -> ensures (fun _ => True) (rec node).

Lemma ends_legacy_generateFunctionParams (parameters : list Node.t) :
  Forall (fun q => depth q < bound) parameters ->
  ensures (fun _ => True) (Legacy.generateFunctionParams rec parameters).
Proof.
  intro HP. unfold Legacy.generateFunctionParams.
  apply ensures_bind with (P := fun _ => True); [|intros; now apply ensures_ret].
  apply ensures_mapM. intros param Hin.
  rewrite Forall_forall in HP.
  apply ensures_bind with (P := fun _ => True);
    [apply Hrec; now apply HP | intros; now apply ensures_ret].
Qed.

Lemma ends_legacy_findReturnType (func : Node.t) :
  depth func <= bound ->
  ensures (fun found => Forall (fun q => depth q < bound) (snd found))
    (Legacy.findReturnType rec func).
Proof.
  intro HF. unfold Legacy.findReturnType.
  destruct func.(Node.parameters) as [own|] eqn:Eo; [|apply ensures_throw].
  assert (Hown : Forall (fun q => depth q < bound) own.(elems)).
  { apply Forall_forall. intros x Hx.
    apply Nat.lt_le_trans with (depth func); [|exact HF].
    apply depth_child. unfold children. rewrite Eo, !in_app_iff. auto. }
  assert (Hfiltered : forall p l, Forall (fun q => depth q < bound) l ->
                                  Forall (fun q => depth q < bound) (filter p l)).
  { intros p l Hl. rewrite Forall_forall in *. intros x Hx.
    apply filter_In in Hx. now apply Hl. }
  destruct func.(Node.async) as [|b|async];
    try (apply ensures_ret; cbn [snd]; now apply Hfiltered).
  destruct (async =? "callback").
  - destruct (find _ own.(elems)) as [callback|] eqn:Efind.
    + apply find_some in Efind. destruct Efind as [Hin _].
      rewrite Forall_forall in Hown.
      apply ensures_bind with (P := fun _ => True); [apply Hrec; now apply Hown|].
      intros returnType _. apply ensures_ret. cbn [snd]. apply Hfiltered.
      now apply Forall_forall.
    + destruct (async =? "responseCallback"); apply ensures_ret; cbn [snd];
        [now apply Hfiltered, Hfiltered | constructor].
  - destruct (async =? "responseCallback"); apply ensures_ret; cbn [snd];
      [now apply Hfiltered, Hfiltered | constructor].
Qed.

Lemma ends_legacy_functionTyping
    (currentNamespace result : string) (schemaPart : Node.t) :
  depth schemaPart <= bound ->
  ensures (fun _ => True)
    (Legacy.functionTyping rec currentNamespace result schemaPart).
Proof.
  intro HS. unfold Legacy.functionTyping.
  assert (Hemit : forall returnType ps,
             Forall (fun q => depth q < bound) ps ->
             ensures (fun _ => True)
               (Legacy.emitSignature rec schemaPart returnType ps)).
  { intros returnType ps Hps. unfold Legacy.emitSignature.
    apply ensures_bind with (P := fun _ => True);
      [now apply ends_legacy_generateFunctionParams
      | intros; now apply ensures_ret]. }
  apply ensures_bind
    with (P := fun found => Forall (fun q => depth q < bound) (snd found));
    [now apply ends_legacy_findReturnType|].
  intros [returnType parameters] Hparams. cbn [snd] in Hparams.
  apply ensures_bind with (P := fun _ => True).
  { destruct (returnType =? "ERR"); [apply ensures_logger | now apply ensures_ret]. }
  intros _ _.
  destruct (_ && _).
  - apply ensures_bind with (P := fun _ => True).
    + apply ensures_legacy_overloadLoop
        with (P := fun q => depth q < bound); [|exact Hparams].
      intros ps Hps. apply Hemit. now apply legacy_requireAllParams_depth.
    + intros result' _.
      apply ensures_bind with (P := fun _ => True);
        [|intros; now apply ensures_ret].
      apply Hemit. now apply legacy_requireAllParams_depth.
  - apply ensures_bind with (P := fun _ => True);
      [now apply Hemit | intros; now apply ensures_ret].
Qed.

Lemma ends_legacy_generatePropertyTypings (property : Node.t) :
  depth property < bound ->
  ensures (fun _ => True) (Legacy.generatePropertyTypings rec property).
Proof.
  intro H. unfold Legacy.generatePropertyTypings.
  destruct property.(Node.unsupported); [now apply ensures_ret|].
  destruct property.(Node.choices), property.(Node.isInterfaceProperty) as [[|]|];
    (apply ensures_bind with (P := fun _ => True);
     [now apply Hrec | intros; now apply ensures_ret]).
Qed.

Lemma ends_legacy_getTypeBody (property : Node.t) :
  depth property <= bound ->
  ensures (fun _ => True) (Legacy.getTypeBody rec property).
Proof.
  intro H. unfold Legacy.getTypeBody.
  assert (Hchild : forall c, In c (children property) -> depth c < bound).
  { intros c Hc. apply Nat.lt_le_trans with (depth property); [|exact H].
    now apply depth_child. }
  repeat (match goal with
          | |- ensures _ (if ?b then _ else _) =>
              destruct b; try (now apply ensures_ret)
          end).
  - destruct property.(Node.enum) as [[members|]|]; now apply ensures_ret.
  - destruct property.(Node.items) as [items|] eqn:Ei; [|apply ensures_throw].
    destruct (truthyOpt items.(Node.type)).
    + apply ensures_bind with (P := fun _ => True);
        [|intros; now apply ensures_ret].
      apply Hrec, Hchild. unfold children. rewrite Ei, !in_app_iff. left. now left.
    + destruct (includesDot _); now apply ensures_ret.
  - destruct property.(Node.choices) as [choices|] eqn:Ec.
    + apply ensures_bind with (P := fun _ => True);
        [|intros; now apply ensures_ret].
      apply ensures_mapM. intros choice Hin. apply Hrec, Hchild.
      unfold children. rewrite Ec, !in_app_iff. auto.
    + destruct (eqOpt property.(Node.type) (Some "object"));
        [|now apply ensures_ret].
      destruct property.(Node.properties) as [entries|] eqn:Ep;
        [|now apply ensures_ret].
      apply ensures_bind with (P := fun _ => True);
        [|intros; now apply ensures_ret].
      apply ensures_mapM. intros [key prop] Hin.
      apply ends_legacy_generatePropertyTypings. cbn [fst snd].
      rewrite (depth_same_children (interfaceProperty key prop) prop)
        by reflexivity.
      apply Hchild. unfold children. rewrite Ep, !in_app_iff.
      right. right. left. apply in_map_iff. now exists (key, prop).
Qed.

End LegacyTerminates.

Lemma legacy_getType_terminates (fuel : nat) :
  forall node, depth node <= fuel -> ensures (fun _ => True) (Legacy.getType fuel node).
Proof.
  induction fuel as [|fuel IH]; intros node H.
  - pose proof (depth_pos node). lia.
  - change (ensures (fun _ => True)
              (Legacy.getTypeBody (Legacy.getType fuel) node)).
    apply ends_legacy_getTypeBody with (bound := S fuel); [|exact H].
    intros c Hc. apply IH. lia.
Qed.

Lemma fails_bind_l (A B : Type) (m : M A) (k : A -> M B) :
  fails m -> fails (bind m k).
Proof.
  intros Hm w b w' H. unfold bind in H.
  destruct (m w) as [[a|msg|] w1] eqn:E; try discriminate.
  exact (Hm _ _ _ E).
Qed.

Lemma fails_bind_r (A B : Type) (m : M A) (k : A -> M B) :
  (forall a, fails (k a)) -> fails (bind m k).
Proof.
  intros Hk w b w' H. unfold bind in H.
  destruct (m w) as [[a|msg|] w1] eqn:E; try discriminate.
  exact (Hk _ _ _ _ H).
Qed.

Lemma fails_mapM (A B : Type) (f : A -> M B) (x : A) (xs : list A) :
  fails (f x) -> In x xs -> fails (mapM f xs).
Proof. intros Hx Hin w ys w'. now apply mapM_fails with x. Qed.

Lemma fails_forEachM
    (body : string -> Node.t -> M string) (x : Node.t) (xs : list Node.t) :
  (forall result, fails (body result x)) ->
  In x xs ->
  forall result, fails (Legacy.forEachM body xs result).
Proof.
  intros Hx. induction xs as [|y xs IH]; intros Hin result; [destruct Hin|].
  cbn [Legacy.forEachM]. destruct Hin as [-> | Hin].
  - apply fails_bind_l, Hx.
  - apply fails_bind_r. intro result'. now apply IH.
Qed.

Lemma legacy_getType_itemless_array (fuel : nat) (p : Node.t) :
  truthyOpt p.(Node.ref) = false ->
  p.(Node.type) = Some "array" ->
  p.(Node.items) = None ->
  fails (Legacy.getType fuel p).
Proof.
  intros Href Htype Hitems w a w' H. destruct fuel as [|fuel]; [discriminate H|].
  cbn [Legacy.getType] in H. unfold Legacy.getTypeBody in H.
  rewrite Href, Htype, Hitems in H. discriminate H.
Qed.

Lemma legacy_emitSignature_itemless_array
    (fuel : nat) (schemaPart : Node.t) (returnType : string)
    (p : Node.t) (ps : list Node.t) :
  In p ps ->
  truthyOpt p.(Node.ref) = false ->
  p.(Node.type) = Some "array" ->
  p.(Node.items) = None ->
  fails (Legacy.emitSignature (Legacy.getType fuel) schemaPart returnType ps).
Proof.
  intros Hin Href Htype Hitems.
  unfold Legacy.emitSignature, Legacy.generateFunctionParams.
  apply fails_bind_l, fails_bind_l. apply fails_mapM with p; [|exact Hin].
  apply fails_bind_l. now apply legacy_getType_itemless_array.
Qed.

(** X25.  First version: one function with a visible parameter that is an
    array without [items] leaves its whole namespace without function
    declarations: [generateFunctionTypings] ends with an exception, also for
    the functions before and after it. *)
Theorem legacy_itemless_array_aborts_namespace
    (fuel : nat) (currentNamespace : string) (namespaces : NamespaceTable)
    (schema : SchemaPart.t) (func p : Node.t) (own : ParamArray Node.t)
    (w : World) :
  NsMap.get currentNamespace namespaces = Some schema ->
  Forall (fun g => depth g <= fuel) schema.(SchemaPart.functions) ->
  In func schema.(SchemaPart.functions) ->
  func.(Node.parameters) = Some own ->
  (forall async, func.(Node.async) <> AsyncString async) ->
  In p (visible own.(elems)) ->
  truthyOpt p.(Node.ref) = false ->
  p.(Node.type) = Some "array" ->
  p.(Node.items) = None ->
  exists msg,
    fst (Legacy.generateFunctionTypings fuel currentNamespace namespaces w)
    = Throw msg.
Proof.
  intros Hget Hdepth Hin Hown Hasync Hp Href Htype Hitems.
  assert (Hfails : forall result,
             fails (Legacy.functionTyping (Legacy.getType fuel) currentNamespace
                      result func)).
  { intros result w0 text w1 H. unfold Legacy.functionTyping in H.
    assert (Hfound : exists returnType,
               Legacy.findReturnType (Legacy.getType fuel) func w0
               = (Ret (returnType, visible own.(elems)), w0)
               /\ (returnType =? "ERR") = false).
    { unfold Legacy.findReturnType. rewrite Hown.
      destruct func.(Node.async) as [|[|]|async] eqn:Ea.
      - now exists "void".
      - now exists "Promise<void>".
      - now exists "void".
      - destruct (Hasync async eq_refl). }
    destruct Hfound as [returnType [Hfound Herr]].
    unfold bind at 1 in H. rewrite Hfound, Herr in H.
    unfold bind at 1, ret at 1 in H.
    set (q := Node.withOptional false p).
    assert (Hq : In q (Legacy.requireAllParams (visible own.(elems))))
      by (unfold Legacy.requireAllParams; now apply in_map).
    destruct (_ && _).
    - revert H. apply fails_bind_r. intro result'. apply fails_bind_l.
      now apply legacy_emitSignature_itemless_array with q.
    - revert H. apply fails_bind_l.
      now apply legacy_emitSignature_itemless_array with p. }
  assert (Hends : ensures (fun _ => True)
                    (Legacy.generateFunctionTypings fuel currentNamespace namespaces)).
  { unfold Legacy.generateFunctionTypings. rewrite Hget.
    apply ensures_forEachM. intros result g Hg.
    apply ends_legacy_functionTyping with (bound := fuel).
    - intros node Hnode. apply legacy_getType_terminates. lia.
    - rewrite Forall_forall in Hdepth. now apply Hdepth. }
  specialize (Hends w).
  destruct (Legacy.generateFunctionTypings fuel currentNamespace namespaces w)
    as [[text|msg|] w1] eqn:E; cbn [fst] in *.
  - exfalso. unfold Legacy.generateFunctionTypings in E. rewrite Hget in E.
    exact (@fails_forEachM _ func _ Hfails Hin "" _ _ _ E).
  - now exists msg.
  - destruct Hends.
Qed.

Lemma legacy_itemless_array_aborts_namespace_witness :
  (NsMap.get "mail" Sample.brokenTable
   = Some (SchemaPart.mk "mail" None [Sample.listIds; Sample.ping] [] [] None)
   /\ Forall (fun g => depth g <= 2) [Sample.listIds; Sample.ping]
   /\ In Sample.listIds [Sample.listIds; Sample.ping]
   /\ Sample.listIds.(Node.parameters)
      = Some (mkArray (Some 15)
                [Node.withName (Some "ids") Sample.arrayWithoutItems])
   /\ (forall async, Sample.listIds.(Node.async) <> AsyncString async)
   /\ In (Node.withName (Some "ids") Sample.arrayWithoutItems)
        (visible [Node.withName (Some "ids") Sample.arrayWithoutItems])
   /\ truthyOpt (Node.withName (Some "ids") Sample.arrayWithoutItems).(Node.ref)
      = false
   /\ (Node.withName (Some "ids") Sample.arrayWithoutItems).(Node.type)
      = Some "array"
   /\ (Node.withName (Some "ids") Sample.arrayWithoutItems).(Node.items) = None)
  /\ exists msg,
       fst (Legacy.generateFunctionTypings 2 "mail" Sample.brokenTable emptyWorld)
       = Throw msg.
Proof.
  assert (H1 : Forall (fun g => depth g <= 2) [Sample.listIds; Sample.ping])
    by (repeat constructor).
  assert (H2 : In Sample.listIds [Sample.listIds; Sample.ping]) by (now left).
  assert (H3 : forall async, Sample.listIds.(Node.async) <> AsyncString async)
    by (intros async H; discriminate H).
  assert (H4 : In (Node.withName (Some "ids") Sample.arrayWithoutItems)
                 (visible [Node.withName (Some "ids") Sample.arrayWithoutItems]))
    by (now left).
  split; [repeat split; assumption|].
  exact (@legacy_itemless_array_aborts_namespace 2 "mail" Sample.brokenTable
           (SchemaPart.mk "mail" None [Sample.listIds; Sample.ping] [] [] None)
           Sample.listIds (Node.withName (Some "ids") Sample.arrayWithoutItems)
           (mkArray (Some 15) [Node.withName (Some "ids") Sample.arrayWithoutItems])
           emptyWorld eq_refl H1 H2 eq_refl H3 H4 eq_refl eq_refl eq_refl).
Defined.

(** ** The two versions of the merge *)

Lemma keyed_get (B : Type) (f : SchemaPart.t -> B) (m1 m2 : NamespaceTable)
    (ns : string) :
  map (fun e => (fst e, f (snd e))) m1 = map (fun e => (fst e, f (snd e))) m2 ->
  option_map f (NsMap.get ns m1) = option_map f (NsMap.get ns m2).
Proof.
  revert m2. induction m1 as [|[k1 v1] m1 IH]; intros [|[k2 v2] m2] H;
    try discriminate H; [reflexivity|].
  cbn [map fst snd] in H. injection H as Hk Hv Hrest. subst k2.
  cbn [NsMap.get]. destruct (k1 =? ns); [cbn; now rewrite Hv | now apply IH].
Qed.

Lemma keyed_set (B : Type) (f : SchemaPart.t -> B) (m1 m2 : NamespaceTable)
    (ns : string) (v1 v2 : SchemaPart.t) :
  map (fun e => (fst e, f (snd e))) m1 = map (fun e => (fst e, f (snd e))) m2 ->
  f v1 = f v2 ->
  map (fun e => (fst e, f (snd e))) (NsMap.set ns v1 m1)
  = map (fun e => (fst e, f (snd e))) (NsMap.set ns v2 m2).
Proof.
  intros H Hv. revert m2 H.
  induction m1 as [|[k1 u1] m1 IH]; intros [|[k2 u2] m2] H;
    try discriminate H.
  - cbn. now rewrite Hv.
  - cbn [map fst snd] in H. injection H as Hk Hu Hrest. subst k2.
    cbn [NsMap.set]. destruct (k1 =? ns); cbn [map fst snd].
    + now rewrite Hv, Hrest.
    + now rewrite Hu, (IH _ Hrest).
Qed.

(** X26.  The later version of [mergeSchema] changes nothing in what the
    first version computes: the two tables have the same namespaces in the
    same order, and every namespace has the same name, description,
    functions and types in both. *)
Theorem mergeSchema_agrees_with_first_version (schemaParts : list SchemaPart.t) :
  map (fun e => (fst e, commonKeys (snd e))) (mergeSchema schemaParts)
  = map (fun e => (fst e, commonKeys (snd e))) (Legacy.mergeSchema schemaParts).
Proof.
  unfold mergeSchema, Legacy.mergeSchema.
  assert (H : forall m1 m2,
             map (fun e => (fst e, commonKeys (snd e))) m1
             = map (fun e => (fst e, commonKeys (snd e))) m2 ->
             map (fun e => (fst e, commonKeys (snd e)))
               (fold_left mergeSchemaStep schemaParts m1)
             = map (fun e => (fst e, commonKeys (snd e)))
                 (fold_left Legacy.mergeSchemaStep schemaParts m2)).
  { induction schemaParts as [|part parts IH]; intros m1 m2 Hm; [exact Hm|].
    cbn [fold_left]. apply IH.
    unfold mergeSchemaStep, Legacy.mergeSchemaStep.
    pose proof (@keyed_get _ commonKeys m1 m2 part.(SchemaPart.namespace) Hm) as Hget.
    destruct (NsMap.get _ m1) as [e1|], (NsMap.get _ m2) as [e2|];
      try discriminate Hget.
    - apply (@keyed_set _ commonKeys); [exact Hm|].
      cbn in Hget. injection Hget as _ _ Hf Ht.
      unfold commonKeys, mergeNamespaceFunctions, mergeNamespaceTypes.
      cbn [SchemaPart.namespace SchemaPart.description SchemaPart.functions
           SchemaPart.types].
      now rewrite Hf, Ht.
    - now apply (@keyed_set _ commonKeys). }
  now apply H.
Qed.

(** ** Parameters that are left as they are *)

(** X27.  First version: unless the first visible parameter is optional and
    a required one follows, the function gets exactly one signature, over its
    visible parameters as they are declared.  This includes an optional
    parameter between two required ones, which keeps its [?] before a
    required parameter. *)
Theorem legacy_optional_after_required_is_kept
    (getTypeRec : Node.t -> M string) (currentNamespace result : string)
    (schemaPart : Node.t) (returnType : string) (parameters : list Node.t)
    (w w' : World) :
  Legacy.findReturnType getTypeRec schemaPart w
  = (Ret (returnType, parameters), w') ->
  (forall q, hd_error parameters = Some q -> q.(Node.optional) = false)
  \/ Forall (fun q => q.(Node.optional) = true) parameters ->
  Legacy.functionTyping getTypeRec currentNamespace result schemaPart w
  = ((if returnType =? "ERR" then
        logger Error (unknownAsyncType currentNamespace schemaPart)
      else ret tt) ;;;
     signature <-
       Legacy.emitSignature getTypeRec schemaPart returnType parameters ;;
     ret (result
          ++ Legacy.generateDescription schemaPart.(Node.description) 0
          ++ signature ++ LF)) w'.
Proof.
  intros Hfound Hshape.
  unfold Legacy.functionTyping. unfold bind at 1. rewrite Hfound.
  apply bind_ext. intros _ w1.
  assert (Hcond : (0 <=? findIndex Node.optional parameters)%Z
                  && (findIndex Node.optional parameters
                      <? findIndex (fun param => negb param.(Node.optional))
                           parameters)%Z
                  = false).
  { destruct Hshape as [Hfirst | Hall].
    - destruct parameters as [|q rest]; [reflexivity|].
      specialize (Hfirst q eq_refl). unfold findIndex. cbn [findIndexFrom].
      rewrite Hfirst. cbn [negb].
      destruct (findIndexFrom_ge Node.optional rest (0 + 1)) as [-> | Hge];
        [reflexivity|].
      apply andb_false_iff. right. apply Z.ltb_ge. lia.
    - rewrite (@findIndex_none _ (fun param => negb param.(Node.optional))).
      + apply andb_false_iff. right. apply Z.ltb_ge.
        unfold findIndex.
        destruct (findIndexFrom_ge Node.optional parameters 0); lia.
      + apply existsb_all_false. eapply Forall_impl; [|exact Hall].
        intros q Hq. simpl in Hq. now rewrite Hq. }
  rewrite Hcond. apply bind_ext. intros signature w2.
  unfold ret. now rewrite !append_assoc.
Qed.

Lemma legacy_optional_after_required_is_kept_witness :
  (Legacy.findReturnType (Legacy.getType 2)
     (Node.withParameters
        (Sample.jsonArray 24 [Sample.target; Sample.flags; Sample.typed "id" "integer"])
        Sample.move)
     emptyWorld
   = (Ret ("void", [Sample.target; Sample.flags; Sample.typed "id" "integer"]),
      emptyWorld)
   /\ ((forall q,
          hd_error [Sample.target; Sample.flags; Sample.typed "id" "integer"]
          = Some q ->
          q.(Node.optional) = false)
       \/ Forall (fun q => q.(Node.optional) = true)
            [Sample.target; Sample.flags; Sample.typed "id" "integer"]))
  /\ Legacy.functionTyping (Legacy.getType 2) "mail" ""
       (Node.withParameters
          (Sample.jsonArray 24
             [Sample.target; Sample.flags; Sample.typed "id" "integer"])
          Sample.move)
       emptyWorld
     = (Ret ("  function move(target: string, flags?: string, id: number): void;"
             ++ LF), emptyWorld).
Proof.
  assert (H : (forall q,
                 hd_error [Sample.target; Sample.flags; Sample.typed "id" "integer"]
                 = Some q ->
                 q.(Node.optional) = false)
              \/ Forall (fun q => q.(Node.optional) = true)
                   [Sample.target; Sample.flags; Sample.typed "id" "integer"]).
  { left. intros q Hq. injection Hq as <-. reflexivity. }
  split; [split; [reflexivity | exact H]|].
  rewrite (@legacy_optional_after_required_is_kept (Legacy.getType 2) "mail" ""
             (Node.withParameters
                (Sample.jsonArray 24
                   [Sample.target; Sample.flags; Sample.typed "id" "integer"])
                Sample.move)
             "void" [Sample.target; Sample.flags; Sample.typed "id" "integer"]
             emptyWorld emptyWorld eq_refl H).
  reflexivity.
Defined.
